(** * AI Image Resizer: rule derivation and size fitting

    A shallow embedding of the two implementations of the image
    fitting service:

    - the Express back end ([backend/index.js]): [parseRuleText],
      [processImage] and the [/api/process] request handler;
    - the React front end ([frontend/src/App.jsx]): [PRESETS],
      [getCurrentRules], [parseCustomRule] and [processClientSide].

    Numbers.  Every JavaScript number is a binary64 float.  The
    numbers of the preset tables, byte counts and the server's quality
    are integers far below 2^53, where float arithmetic is exact, and
    are modelled in [Z]; a size in kilobytes is a byte count divided by
    1024 = 2^10, exact again, and is modelled in [Q].  A number that
    [parseInt] reads from a rule text can be of any size: it is the
    integer that the binary64 nearest to the digits holds, or
    [Infinity].  The client's quality takes fractional values (0.92,
    steps of 0.05 and 0.02) whose sums round, so it is modelled with
    Rocq's primitive binary64 floats, which compute exactly what
    JavaScript computes.

    Strings are sequences of UTF-16 code units.  The regular
    expressions of the two rule parsers are run by a backtracking
    matcher that follows the ECMAScript matching rules. *)

From Stdlib Require Import ZArith NArith QArith Lia List Bool String Ascii.
From Stdlib Require Import Floats.
From stdpp Require Import base option gmap strings.
Import ListNotations.

Local Open Scope Z_scope.
#[local] Set Warnings "-inexact-float".

(* ================================================================== *)
(** ** JavaScript values used by the program *)
(* ================================================================== *)

(** A string is its sequence of UTF-16 code units. *)
Abbreviation jsstring := (list N).

(** The code units of an ASCII literal. *)
Definition js (s : string) : jsstring :=
  map N_of_ascii (list_ascii_of_string s).

(** What a numeric property of a rules object can hold: an integer,
    [Infinity] (what [parseInt] returns for a run of digits beyond the
    range of a binary64), [NaN] (what it returns without a digit), or
    [undefined] (a property the object does not have). *)
Inductive jsnum : Type :=
| JNum (z : Z)
| JInf
| JNaN
| JUndef.

(** Relational operators between a size in kilobytes and a bound.
    Every size is below [Infinity]; a comparison with [NaN] or
    [undefined] is [false] in JavaScript. *)
Definition js_le (x : Q) (b : jsnum) : bool :=
  match b with
  | JNum z => Qle_bool x (inject_Z z)
  | JInf => true
  | _ => false
  end.

Definition js_ge (x : Q) (b : jsnum) : bool :=
  match b with JNum z => Qle_bool (inject_Z z) x | _ => false end.

Definition js_gt (x : Q) (b : jsnum) : bool :=
  match b with JNum z => negb (Qle_bool x (inject_Z z)) | _ => false end.

Definition js_lt (x : Q) (b : jsnum) : bool :=
  match b with
  | JNum z => negb (Qle_bool (inject_Z z) x)
  | JInf => true
  | _ => false
  end.

(** A Number that is not [NaN]: an integer or [Infinity]. *)
Definition is_number (n : jsnum) : bool :=
  match n with JNum _ | JInf => true | _ => false end.

(** A rules object: what the preset tables hold and the parsers return.
    [format] is a string, or [None] for [undefined]. *)
Record Rules : Type := mkRules {
  width  : jsnum;
  height : jsnum;
  minKb  : jsnum;
  maxKb  : jsnum;
  format : option jsstring
}.

(** An object literal [{ width: w, height: h, minKb: a, maxKb: b,
    format: f }] with numeric literals. *)
Definition rules_lit (w h a b : Z) (f : string) : Rules :=
  mkRules (JNum w) (JNum h) (JNum a) (JNum b) (Some (js f)).

(* ================================================================== *)
(** ** Characters *)
(* ================================================================== *)

Module Char.
Local Open Scope N_scope.

Definition is_digit (c : N) : bool := (48 <=? c) && (c <=? 57).
Definition is_upper (c : N) : bool := (65 <=? c) && (c <=? 90).
Definition is_lower (c : N) : bool := (97 <=? c) && (c <=? 122).

(** [\w], which decides the word boundary [\b]: [A-Za-z0-9_]. *)
Definition is_word (c : N) : bool :=
  is_digit c || is_upper c || is_lower c || (c =? 95).

(** LineTerminator: LF, CR, LS, PS. *)
Definition is_line_terminator (c : N) : bool :=
  (c =? 10) || (c =? 13) || (c =? 8232) || (c =? 8233).

(** [\s]: WhiteSpace and LineTerminator. *)
Definition is_space (c : N) : bool :=
  (c =? 9) || (c =? 11) || (c =? 12) || (c =? 32) || (c =? 160)
  || (c =? 5760) || ((8192 <=? c) && (c <=? 8202))
  || (c =? 8239) || (c =? 8287) || (c =? 12288) || (c =? 65279)
  || is_line_terminator c.

(** Canonicalize of a case-insensitive pattern without the [u] flag:
    the upper-case form of the code unit.  Only the ASCII letters and
    the Latin-1 letters are mapped: no other character upper-cases to a
    character of the patterns below, and a character above U+007F is
    never mapped to an ASCII one. *)
Definition canonicalize (c : N) : N :=
  if is_lower c then c - 32
  else if (224 <=? c) && (c <=? 254) && negb (c =? 247) then c - 32
  else c.

(** [String.prototype.toLowerCase] and [toUpperCase] on the strings the
    program applies them to (a captured [jpg], [jpeg] or [png] in any
    case, a format of a rules object): ASCII letters. *)
Definition to_lower (c : N) : N := if is_upper c then c + 32 else c.
Definition to_upper (c : N) : N := if is_lower c then c - 32 else c.

End Char.

Definition toLowerCase (s : jsstring) : jsstring := map Char.to_lower s.
Definition toUpperCase (s : jsstring) : jsstring := map Char.to_upper s.

(* ================================================================== *)
(** ** Regular expressions *)
(* ================================================================== *)

Module Regex.

(** Character sets: a literal, [\d], [\s], [.], and a class [[ab]]. *)
Inductive cset : Type :=
| CChar (c : N)
| CDigit
| CSpace
| CDot
| CUnion (a b : cset).

(** Membership, with the [i] flag [ic]: a literal then matches every
    character with the same canonical form. *)
Fixpoint cset_mem (ic : bool) (cs : cset) (c : N) : bool :=
  match cs with
  | CChar p =>
      if ic then N.eqb (Char.canonicalize c) (Char.canonicalize p)
      else N.eqb c p
  | CDigit => Char.is_digit c
  | CSpace => Char.is_space c
  | CDot => negb (Char.is_line_terminator c)
  | CUnion a b => cset_mem ic a c || cset_mem ic b c
  end.

(** The pattern syntax the program uses.  [Star true r] is the greedy
    [r*], [Star false r] the lazy [r*?]; [Group n r] is the [n]-th
    capturing group; [WordB] is [\b]. *)
Inductive regex : Type :=
| Empty
| Chr (cs : cset)
| Seq (a b : regex)
| Alt (a b : regex)
| Star (greedy : bool) (r : regex)
| Group (n : nat) (r : regex)
| WordB.

(** [r+] is [r] followed by [r*]. *)
Definition Plus (r : regex) : regex := Seq r (Star true r).

Fixpoint seqs (rs : list regex) : regex :=
  match rs with
  | [] => Empty
  | [r] => r
  | r :: rs' => Seq r (seqs rs')
  end.

(** A run of literal characters. *)
Definition lit (s : string) : regex := seqs (map (fun c => Chr (CChar c)) (js s)).

(** The state of a match in progress: the input already consumed (most
    recent character first), the input still ahead, and the captures
    made so far (most recent first). *)
Record mstate : Type := mkState {
  behind : list N;
  ahead  : list N;
  caps   : list (nat * jsstring)
}.

Definition set_cap (n : nat) (v : jsstring) (s : mstate) : mstate :=
  mkState (behind s) (ahead s) ((n, v) :: caps s).

Definition word_before (s : mstate) : bool :=
  match behind s with c :: _ => Char.is_word c | [] => false end.

Definition word_after (s : mstate) : bool :=
  match ahead s with c :: _ => Char.is_word c | [] => false end.

(** A star around a matcher [body]: each iteration must consume input
    (one that consumes nothing is rejected), so [fuel] equal to the
    number of characters ahead is never exhausted.  The greedy star
    tries another iteration before it tries to go on; the lazy one the
    other way round. *)
Section StarLoop.

Variable body : (mstate -> option mstate) -> mstate -> option mstate.
Variable greedy : bool.
Variable k : mstate -> option mstate.

Fixpoint star_loop (fuel : nat) (s : mstate) {struct fuel} : option mstate :=
  match fuel with
  | O => k s
  | S fuel' =>
      let again (s' : mstate) :=
        if (length (ahead s') <? length (ahead s))%nat
        then star_loop fuel' s' else None in
      if greedy then
        match body again s with
        | Some res => Some res
        | None => k s
        end
      else
        match k s with
        | Some res => Some res
        | None => body again s
        end
  end.

End StarLoop.

(** The backtracking matcher, in continuation-passing style as in the
    ECMAScript specification: [run ic r k s] matches [r] at [s] and
    hands each way of matching it, in priority order, to the
    continuation [k]; the first one that [k] accepts is the result. *)
Fixpoint run (ic : bool) (r : regex) (k : mstate -> option mstate)
    (s : mstate) {struct r} : option mstate :=
  match r with
  | Empty => k s
  | Chr cs =>
      match ahead s with
      | c :: rest =>
          if cset_mem ic cs c then k (mkState (c :: behind s) rest (caps s))
          else None
      | [] => None
      end
  | Seq a b => run ic a (run ic b k) s
  | Alt a b =>
      match run ic a k s with
      | Some res => Some res
      | None => run ic b k s
      end
  | Star greedy r' => star_loop (run ic r') greedy k (length (ahead s)) s
  | Group n r' =>
      run ic r'
        (fun s' =>
           k (set_cap n
                (firstn (length (ahead s) - length (ahead s')) (ahead s)) s'))
        s
  | WordB => if xorb (word_before s) (word_after s) then k s else None
  end.

(** The result of a successful match: the matched substring and the
    captures. *)
Record match_array : Type := mkMatch {
  matched : jsstring;
  captures : list (nat * jsstring)
}.

(** [m[n]] for [n >= 1]: the capture, or [None] for [undefined]. *)
Fixpoint lookup_cap (n : nat) (cs : list (nat * jsstring)) : option jsstring :=
  match cs with
  | [] => None
  | (i, v) :: cs' => if Nat.eqb i n then Some v else lookup_cap n cs'
  end.

Definition group (n : nat) (m : match_array) : option jsstring :=
  lookup_cap n (captures m).

(** Search for the leftmost match: the start positions are tried from
    left to right, the end of the input included. *)
Fixpoint exec_from (ic : bool) (r : regex) (before rest : list N)
    : option match_array :=
  match run ic r Some (mkState before rest []) with
  | Some s' =>
      Some (mkMatch (firstn (length rest - length (ahead s')) rest) (caps s'))
  | None =>
      match rest with
      | [] => None
      | c :: rest' => exec_from ic r (c :: before) rest'
      end
  end.

(** [text.match(/r/)] and [text.match(/r/i)] for a pattern without the
    [g] flag. *)
Definition str_match (ic : bool) (r : regex) (text : jsstring)
    : option match_array :=
  exec_from ic r [] text.

(** *** What a match can lead to

    A relational reading of the patterns, used to reason about the
    matcher: [reaches ic r s s'] when matching [r] from the state [s]
    can end in the state [s']. *)

Inductive star_of (R : mstate -> mstate -> Prop) : mstate -> mstate -> Prop :=
| star_stop s : star_of R s s
| star_more s s1 s2 : R s s1 -> star_of R s1 s2 -> star_of R s s2.

Fixpoint reaches (ic : bool) (r : regex) (s s' : mstate) : Prop :=
  match r with
  | Empty => s' = s
  | Chr cs =>
      exists c rest,
        ahead s = c :: rest /\ cset_mem ic cs c = true /\
        s' = mkState (c :: behind s) rest (caps s)
  | Seq a b => exists s1, reaches ic a s s1 /\ reaches ic b s1 s'
  | Alt a b => reaches ic a s s' \/ reaches ic b s s'
  | Star _ r' => star_of (reaches ic r') s s'
  | Group n r' =>
      exists s1,
        reaches ic r' s s1 /\
        s' = set_cap n (firstn (length (ahead s) - length (ahead s1)) (ahead s)) s1
  | WordB => s' = s
  end.

(** The numbers of the groups of a pattern. *)
Fixpoint groups (r : regex) : list nat :=
  match r with
  | Seq a b | Alt a b => groups a ++ groups b
  | Star _ r' => groups r'
  | Group n r' => n :: groups r'
  | _ => []
  end.

(** The body of group [n] when every match of [r] goes through that
    group and through no group [n] after it. *)
Fixpoint capturing (n : nat) (r : regex) : option regex :=
  match r with
  | Group m r' => if Nat.eqb m n then Some r' else None
  | Seq a b =>
      match capturing n b with
      | Some r' => Some r'
      | None => if existsb (Nat.eqb n) (groups b) then None else capturing n a
      end
  | _ => None
  end.

(** A pattern that cannot match without consuming a character of the
    set [P]. *)
Fixpoint needs (P : N -> bool) (ic : bool) (r : regex) : Prop :=
  match r with
  | Chr cs => forall c, cset_mem ic cs c = true -> P c = true
  | Seq a b => needs P ic a \/ needs P ic b
  | Alt a b => needs P ic a /\ needs P ic b
  | Group _ r' => needs P ic r'
  | _ => False
  end.

End Regex.

(** [a || b] on two match results: [a] unless it is [null]. *)
Definition or_else {A : Type} (a b : option A) : option A :=
  match a with Some x => Some x | None => b end.

(* ================================================================== *)
(** ** parseInt *)
(* ================================================================== *)

(** The value of the leading run of decimal digits. *)
Fixpoint digits_value (acc : Z) (s : jsstring) : Z :=
  match s with
  | c :: s' =>
      if Char.is_digit c then digits_value (10 * acc + (Z.of_N c - 48)) s'
      else acc
  | [] => acc
  end.

(** The Number value for an integer [z >= 0]: the binary64 nearest to
    it, the one with the even significand of two equally near, and
    [Infinity] from 2^1024 - 2^970 on.  Up to 2^53 it is [z] itself.
    (This is the correctly rounded value, which ECMAScript prescribes
    for up to 20 digits and engines such as V8 return for longer runs
    too; for more than 20 digits ECMAScript also lets an implementation
    read the digits after the twentieth as zeros.) *)
Definition number_of (z : Z) : jsnum :=
  match SpecFloat.binary_normalize prec emax z 0 false with
  | S754_zero _ => JNum 0
  | S754_finite _ m e => JNum (Z.shiftl (Z.pos m) e)
  | S754_infinity _ => JInf
  | S754_nan => JNaN
  end.

(** [parseInt(s)] on the arguments the parsers pass it: a capture of
    [(\d+)], so no white space, sign or [0x] prefix comes first.  A
    string that does not start with a digit, and [undefined], give
    [NaN]; a run of digits gives the Number value for the integer it
    spells. *)
Definition parseInt (s : option jsstring) : jsnum :=
  match s with
  | Some (c :: s') =>
      if Char.is_digit c then number_of (digits_value 0 (c :: s')) else JNaN
  | _ => JNaN
  end.

(* ================================================================== *)
(** ** The rule parsers *)
(* ================================================================== *)

Module Patterns.
Import Regex.

Definition digits : regex := Plus (Chr CDigit).
Definition spaces : regex := Star true (Chr CSpace).

(** [[:\s]+] *)
Definition colon_or_space : regex := Plus (Chr (CUnion (CChar 58%N) CSpace)).

(** [/(\d+)\s*x\s*(\d+)/i] *)
Definition dims_x : regex :=
  seqs [Group 1 digits; spaces; lit "x"; spaces; Group 2 digits].

(** [/width[:\s]+(\d+).*height[:\s]+(\d+)/i] *)
Definition dims_named : regex :=
  seqs [lit "width"; colon_or_space; Group 1 digits; Star true (Chr CDot);
        lit "height"; colon_or_space; Group 2 digits].

(** [/(\d+)\s*[-D]\s*(\d+)\s*kb/i], where [D] is what the source file
    has after the hyphen inside the class. *)
Definition size_range (dash : cset) : regex :=
  seqs [Group 1 digits; spaces; Chr (CUnion (CChar 45%N) dash); spaces;
        Group 2 digits; spaces; lit "kb"].

(** [/size[:\s]+(\d+).*?(\d+)\s*kb/i] *)
Definition size_named : regex :=
  seqs [lit "size"; colon_or_space; Group 1 digits; Star false (Chr CDot);
        Group 2 digits; spaces; lit "kb"].

(** [/\b(jpg|jpeg|png)\b/i] *)
Definition format_word : regex :=
  seqs [WordB; Group 1 (Alt (lit "jpg") (Alt (lit "jpeg") (lit "png"))); WordB].

(** The front end's class is [[-–]]: hyphen and en dash (U+2013). *)
Definition client_dash : cset := CChar 8211%N.

(** The back end's file holds, where the en dash should be, the three
    characters U+00E2, U+20AC, U+201C (the en dash's UTF-8 bytes read as
    Windows-1252), so its class is the hyphen and these three. *)
Definition server_dash : cset :=
  CUnion (CChar 226%N) (CUnion (CChar 8364%N) (CChar 8220%N)).

End Patterns.

(** The three searches, shared word for word by [parseRuleText] (back
    end) and [parseCustomRule] (front end); [dash] is the one place
    where the two files differ. *)
Definition widthMatch (text : jsstring) : option Regex.match_array :=
  or_else (Regex.str_match true Patterns.dims_x text)
          (Regex.str_match true Patterns.dims_named text).

Definition sizeMatch (dash : Regex.cset) (text : jsstring) : option Regex.match_array :=
  or_else (Regex.str_match true (Patterns.size_range dash) text)
          (Regex.str_match true Patterns.size_named text).

Definition formatMatch (text : jsstring) : option Regex.match_array :=
  Regex.str_match true Patterns.format_word text.

(** The object the parsers return. *)
Definition parse_rules (dash : Regex.cset) (text : jsstring) : Rules :=
  {| width :=
       match widthMatch text with
       | Some m => parseInt (Regex.group 1 m) | None => JNum 200 end;
     height :=
       match widthMatch text with
       | Some m => parseInt (Regex.group 2 m) | None => JNum 230 end;
     minKb :=
       match sizeMatch dash text with
       | Some m => parseInt (Regex.group 1 m) | None => JNum 20 end;
     maxKb :=
       match sizeMatch dash text with
       | Some m => parseInt (Regex.group 2 m) | None => JNum 50 end;
     format :=
       match formatMatch text with
       | Some m => option_map toLowerCase (Regex.group 1 m)
       | None => Some (js "jpg")
       end |}.

(** The characters without which none of the five patterns can match:
    a decimal digit (both patterns of dimensions and both of sizes need
    one), and a [j] or [p] in either case (the format needs one). *)
Definition token_char (c : N) : bool :=
  Char.is_digit c || N.eqb c 106 || N.eqb c 74 || N.eqb c 112 || N.eqb c 80.

(** The letters x, w, j and p, in either case: both patterns of
    dimensions need an x or a w, the format a j or a p. *)
Definition letter_char (c : N) : bool :=
  existsb (N.eqb (Char.canonicalize c)) [88; 87; 74; 80]%N.

(** The letters k, j and p, in either case: both patterns of sizes
    need a k, the format a j or a p. *)
Definition unit_char (c : N) : bool :=
  existsb (N.eqb (Char.canonicalize c)) [75; 74; 80]%N.

(** The characters on which the two files' classes after the hyphen
    differ: the en dash, which only the front end's class has, and
    U+00E2 with its capital U+00C2, U+20AC and U+201C, which only the
    back end's has. *)
Definition dash_variants : list N := [8211; 226; 194; 8364; 8220]%N.

Definition parseRuleText (ruleText : jsstring) : Rules :=
  parse_rules Patterns.server_dash ruleText.

Definition parseCustomRule (text : jsstring) : Rules :=
  parse_rules Patterns.client_dash text.

(* ================================================================== *)
(** ** Objects used as tables, buffers, loops *)
(* ================================================================== *)

(** The properties every object literal inherits from
    [Object.prototype]: [presets[key]] finds them when [key] is not one
    of the table's own. *)
Definition object_prototype_names : list jsstring :=
  map js ["constructor"; "__proto__"; "hasOwnProperty"; "isPrototypeOf";
          "propertyIsEnumerable"; "toLocaleString"; "toString"; "valueOf";
          "__defineGetter__"; "__defineSetter__"; "__lookupGetter__";
          "__lookupSetter__"]%string.

(** An inherited member, read as a rules object: it has none of the
    five properties. *)
Definition inherited_member : Rules := mkRules JUndef JUndef JUndef JUndef None.

(** [table[key]]: the own property, else the inherited one, else
    [undefined] ([None]). *)
Definition js_get (table : gmap jsstring Rules) (key : jsstring) : option Rules :=
  match table !! key with
  | Some r => Some r
  | None =>
      if bool_decide (key ∈ object_prototype_names)
      then Some inherited_member else None
  end.

(** A Node [Buffer] or a browser [Blob]: its bytes. *)
Abbreviation Buffer := (list Byte.byte).

(** [buf.length / 1024] *)
Definition kilobytes (buf : Buffer) : Q := Z.of_nat (length buf) # 1024.

(** [x.toFixed(2)] for [x >= 0], as a number of hundredths: the nearest
    one, the larger of two equally near. *)
Definition toFixed2 (x : Q) : Z :=
  (200 * Qnum x + Z.pos (Qden x)) / (2 * Z.pos (Qden x)).

(** [parseFloat] of the string [toFixed(2)] made. *)
Definition parseFloat2 (hundredths : Z) : Q := hundredths # 100.

(** What a JavaScript [throw] carries. *)
Inductive exn : Type :=
| TypeError      (* a property read on [undefined] or [null] *)
| EncoderError   (* the image library rejected *)
| ENOENT.        (* no such file *)

(** One run of a loop body. *)
Inductive step (St : Type) : Type :=
| Continue (s : St)    (* the end of the body was reached *)
| Break (s : St)       (* [break] *)
| Throw (e : exn).
Arguments Continue {St} s.
Arguments Break {St} s.
Arguments Throw {St} e.

(** How a loop ends. *)
Inductive loop_end (St : Type) : Type :=
| Finished (s : St)    (* the condition failed, or [break] *)
| Raised (e : exn)
| OutOfFuel.
Arguments Finished {St} s.
Arguments Raised {St} e.
Arguments OutOfFuel {St}.

(** [while (cond) body], run for at most [fuel] executions of the body.
    With the end of the loop it returns the states in which the body
    was entered, first one first. *)
Fixpoint while_loop {St : Type} (fuel : nat) (cond : St -> bool)
    (body : St -> step St) (s : St) : list St * loop_end St :=
  if cond s then
    match fuel with
    | O => ([], OutOfFuel)
    | S fuel' =>
        match body s with
        | Continue s' =>
            let (visited, e) := while_loop fuel' cond body s' in
            (s :: visited, e)
        | Break s' => ([s], Finished s')
        | Throw e => ([s], Raised e)
        end
    end
  else ([], Finished s).

(* ================================================================== *)
(** ** The back end *)
(* ================================================================== *)

Module Server.

(** The upload directory: the files it holds, by path. *)
Abbreviation FS := (gmap string Buffer).

(** The variables of [processImage]'s loop. *)
Record search_state : Type := mkSearch {
  quality  : Z;
  output   : option Buffer;     (* [None] is [null] *)
  attempts : Z
}.

Definition maxAttempts : Z := 20.

(** [if (sizeKb > maxKb) quality -= 5; else if (sizeKb < minKb) quality += 3;] *)
Definition adjust (sizeKb : Q) (minKb maxKb : jsnum) (quality : Z) : Z :=
  if js_gt sizeKb maxKb then quality - 5
  else if js_lt sizeKb minKb then quality + 3
  else quality.

(** [Math.max(10, Math.min(100, quality))] *)
Definition clamp (quality : Z) : Z := Z.max 10 (Z.min 100 quality).

(** [format === 'jpg' ? 'jpeg' : format]: the name of the encoder
    method, and of the MIME subtype. *)
Definition method_name (format : jsstring) : jsstring :=
  if bool_decide (format = js "jpg") then js "jpeg" else format.

(** The JSON bodies the handler sends. *)
Record Success : Type := mkSuccess {
  res_width   : Z;
  res_height  : Z;
  fileSizeKb  : Q;
  res_format  : jsstring;
  valid       : bool;
  image_mime  : jsstring;       (* after [data:image/] *)
  image_bytes : Buffer          (* the payload of [imageBase64] *)
}.

Inductive Response : Type :=
| BadRequest                    (* 400, [No file uploaded] *)
| Processed (r : Success)       (* 200, [status: 'success'] *)
| Failed (details : exn).       (* 500, [Failed to process image] *)

(** The [valid] flag of a response, when it has one. *)
Definition verdict (resp : Response) : option bool :=
  match resp with Processed r => Some (valid r) | _ => None end.

(** A request after [upload.single('image')]: the path of the stored
    upload, if there is one, and the two form fields, each a string or
    absent. *)
Record Request : Type := mkRequest {
  file     : option string;
  ruleText : option jsstring;
  preset   : option jsstring
}.

(** The table inside the handler. *)
Definition presets : gmap jsstring Rules :=
  list_to_map
    [ (js "photo",       rules_lit 200 230 20 50 "jpg");
      (js "signature",   rules_lit 140 60 10 20 "jpg");
      (js "thumb",       rules_lit 140 60 20 50 "jpg");
      (js "declaration", rules_lit 800 300 50 100 "jpg") ].

Definition default_rule_text : jsstring :=
  js "Dimensions 200x230 pixels, size 20-50KB, JPG format".

(** A string is truthy unless it is absent or empty. *)
Definition truthy (s : option jsstring) : bool :=
  match s with Some (_ :: _) => true | _ => false end.

(** [s || d] for a string or [undefined] [s]. *)
Definition or_text (s : option jsstring) (d : jsstring) : jsstring :=
  match s with Some (c :: s') => c :: s' | _ => d end.

(** The [if (preset && preset !== 'custom') ... else ...] of the
    handler: the value of [rules], [None] for [undefined]. *)
Definition derive_rules (req : Request) : option Rules :=
  if truthy (preset req) && negb (bool_decide (preset req = Some (js "custom")))
  then js_get presets (default [] (preset req))
  else Some (parseRuleText (or_text (ruleText req) default_rule_text)).

(** The handler's effects: it deletes files and it throws.  A
    computation ends with a value, with an exception, or not within
    the fuel. *)
Inductive result (A : Type) : Type :=
| Ok (a : A) (fs : FS)
| Err (e : exn) (fs : FS)
| Unfinished.
Arguments Ok {A} a fs.
Arguments Err {A} e fs.
Arguments Unfinished {A}.

Definition M (A : Type) : Type := FS -> result A.

Definition ret {A : Type} (a : A) : M A := fun fs => Ok a fs.

Definition throw {A : Type} (e : exn) : M A := fun fs => Err e fs.

Definition bind {A B : Type} (c : M A) (k : A -> M B) : M B :=
  fun fs =>
    match c fs with
    | Ok a fs' => k a fs'
    | Err e fs' => Err e fs'
    | Unfinished => Unfinished
    end.

Notation "'do' x <- c ; k" := (bind c (fun x => k))
  (at level 10, x name, c at level 100, k at level 200).

(** A value that is read, [undefined] or a rejection raising [e]. *)
Definition expect {A : Type} (e : exn) (v : option A) : M A :=
  match v with Some a => ret a | None => throw e end.

(** [await fs.unlink(path)] *)
Definition unlink (path : string) : M unit :=
  fun fs =>
    match fs !! path with
    | Some _ => Ok tt (delete path fs)
    | None => Err ENOENT fs
    end.

Section WithSharp.

(** The image pipeline [sharp(inputPath).resize(width, height, { fit:
    'fill' })[method]({ quality }).toBuffer()] in its two stages.
    [sharp_resize] reads the contents of the input file and stretches
    the picture to the requested size; [sharp_toBuffer] encodes the
    stretched picture with the named method at a quality.  [None] is a
    rejected promise. *)
Context {Raster : Type}.
Variable sharp_resize : Buffer -> jsnum -> jsnum -> option Raster.
Variable sharp_toBuffer : Raster -> jsstring -> Z -> option Buffer.

(** [sharp(buffer).metadata()]: the pixel width and height. *)
Variable sharp_metadata : Buffer -> option (Z * Z).

(** One run of the pipeline.  It is built anew, resize included, each
    time the loop body runs. *)
Definition sharp_pipeline (input : Buffer) (width height : jsnum)
    (method : jsstring) (quality : Z) : option Buffer :=
  match sharp_resize input width height with
  | Some raster => sharp_toBuffer raster method quality
  | None => None
  end.

(** What the image library promises for [fit: 'fill']: a picture
    stretched to [w] by [h] and then encoded is a [w] by [h] image, as
    the metadata of the buffer reports it. *)
Definition fill_contract : Prop :=
  forall input w h raster method quality buf,
    sharp_resize input (JNum w) (JNum h) = Some raster ->
    sharp_toBuffer raster method quality = Some buf ->
    sharp_metadata buf = Some (w, h).

(** What the image library does with a size that is no integer:
    [resize] throws for a width or a height that is [Infinity]. *)
Definition rejects_infinity : Prop :=
  forall input w h, w = JInf \/ h = JInf -> sharp_resize input w h = None.

(** The body of the loop of [processImage]. *)
Definition attempt (fs : FS) (inputPath : string) (width height minKb maxKb : jsnum)
    (format : jsstring) (st : search_state) : step search_state :=
  match fs !! inputPath with
  | None => Throw ENOENT
  | Some input =>
      match sharp_pipeline input width height (method_name format) (quality st) with
      | None => Throw EncoderError
      | Some out =>
          let sizeKb := kilobytes out in
          if js_le sizeKb maxKb && js_ge sizeKb minKb
          then Break (mkSearch (quality st) (Some out) (attempts st))
          else Continue (mkSearch (clamp (adjust sizeKb minKb maxKb (quality st)))
                                 (Some out) (attempts st + 1))
      end
  end.

(** How many times the resize ran in a search: once in each run of the
    loop body, whose pipeline starts with it. *)
Definition resizes_run (search : list search_state * loop_end search_state) : nat :=
  length (fst search).

(** [processImage(inputPath, width, height, minKb, maxKb, format = 'jpeg')]:
    the states in which an encoding was attempted, and the end of the
    loop; [return output] is the [output] of a [Finished] state. *)
Definition processImage (fuel : nat) (fs : FS) (inputPath : string)
    (width height minKb maxKb : jsnum) (format : option jsstring)
    : list search_state * loop_end search_state :=
  while_loop fuel
    (fun st => attempts st <? maxAttempts)
    (attempt fs inputPath width height minKb maxKb (default (js "jpeg") format))
    (mkSearch 92 None 0).

(** [await processImage(...)]: the buffer it returns. *)
Definition await_processImage (fuel : nat) (inputPath : string) (rules : Rules)
    : M Buffer :=
  fun fs =>
    match processImage fuel fs inputPath (width rules) (height rules)
            (minKb rules) (maxKb rules) (format rules) with
    | (_, Finished st) =>
        match output st with
        | Some buf => Ok buf fs
        | None => Err EncoderError fs        (* [sharp(null)] *)
        end
    | (_, Raised e) => Err e fs
    | (_, OutOfFuel) => Unfinished
    end.

(** The [try] block of the handler. *)
Definition try_block (fuel : nat) (req : Request) : M Response :=
  match file req with
  | None => ret BadRequest
  | Some path =>
      do rules <- expect TypeError (derive_rules req);
      do processedBuffer <- await_processImage fuel path rules;
      do metadata <- expect EncoderError (sharp_metadata processedBuffer);
      let sizeKb := toFixed2 (kilobytes processedBuffer) in
      do _ <- unlink path;
      do fmt <- expect TypeError (format rules);
      ret (Processed
             {| res_width := fst metadata;
                res_height := snd metadata;
                fileSizeKb := parseFloat2 sizeKb;
                res_format := toUpperCase fmt;
                valid := js_le (parseFloat2 sizeKb) (maxKb rules)
                         && js_ge (parseFloat2 sizeKb) (minKb rules);
                image_mime := method_name fmt;
                image_bytes := processedBuffer |})
  end.

(** The [catch] block: [if (req.file && req.file.path) await
    fs.unlink(req.file.path).catch(() => {})], then the 500 response. *)
Definition catch_block (req : Request) (e : exn) (fs : FS) : Response * FS :=
  match file req with
  | Some path =>
      if bool_decide (path = EmptyString) then (Failed e, fs)
      else
        match unlink path fs with
        | Ok _ fs' => (Failed e, fs')
        | _ => (Failed e, fs)
        end
  | None => (Failed e, fs)
  end.

(** [app.post('/api/process', upload.single('image'), ...)]: the
    response, and the upload directory afterwards; [None] when the fuel
    runs out. *)
Definition handle (fuel : nat) (req : Request) (fs : FS) : option (Response * FS) :=
  match try_block fuel req fs with
  | Ok r fs' => Some (r, fs')
  | Err e fs' => Some (catch_block req e fs')
  | Unfinished => None
  end.

End WithSharp.
End Server.

(* ================================================================== *)
(** ** The front end *)
(* ================================================================== *)

Module Client.

(** [Math.min] and [Math.max] on two floats: [NaN] if either is, and
    [-0] below [+0]. *)
Definition Math_min (a b : float) : float :=
  if is_nan a || is_nan b then nan
  else if ltb a b then a
  else if ltb b a then b
  else if get_sign a then a else b.

Definition Math_max (a b : float) : float :=
  if is_nan a || is_nan b then nan
  else if ltb a b then b
  else if ltb b a then a
  else if get_sign a then b else a.

(** [PRESETS], without the labels the select element shows. *)
Definition PRESETS : gmap jsstring Rules :=
  list_to_map
    [ (js "custom",      rules_lit 0 0 0 0 "jpg");
      (js "photo",       rules_lit 200 230 20 50 "jpg");
      (js "signature",   rules_lit 140 60 10 20 "jpg");
      (js "thumb",       rules_lit 140 60 20 50 "jpg");
      (js "declaration", rules_lit 800 300 50 100 "jpg") ].

(** [getCurrentRules], from the component's state [selectedPreset] and
    [customRule]. *)
Definition getCurrentRules (selectedPreset customRule : jsstring) : option Rules :=
  if bool_decide (selectedPreset = js "custom") && Server.truthy (Some customRule)
  then Some (parseCustomRule customRule)
  else js_get PRESETS selectedPreset.

(** The variables of the loop of [processClientSide]. *)
Record search_state : Type := mkSearch {
  quality  : float;
  blob     : option Buffer;     (* [None] is [null] *)
  attempts : Z
}.

Definition maxAttempts : Z := 15.

(** [if (sizeKb > rules.maxKb) quality -= 0.05; else quality += 0.02;] *)
Definition adjust (sizeKb : Q) (maxKb : jsnum) (quality : float) : float :=
  if js_gt sizeKb maxKb then (quality - 0.05)%float
  else (quality + 0.02)%float.

(** [Math.max(0.1, Math.min(1, quality))] *)
Definition clamp (quality : float) : float :=
  Math_max 0.1%float (Math_min 1%float quality).

(** [0.1 <= quality && quality <= 1] *)
Definition in_range (quality : float) : bool :=
  (0.1 <=? quality)%float && (quality <=? 1)%float.

(** The subtype in [`image/${rules.format === 'jpg' ? 'jpeg' : rules.format}`]. *)
Definition mime_subtype (format : option jsstring) : jsstring :=
  match format with
  | Some f => Server.method_name f
  | None => js "undefined"
  end.

(** What [setResult] receives.  [res_sizeKb] is the string
    [finalSizeKb.toFixed(2)], as a number of hundredths. *)
Record Result : Type := mkResult {
  res_width  : jsnum;
  res_height : jsnum;
  res_sizeKb : Z;
  res_format : jsstring;
  valid      : bool;
  res_blob   : Buffer
}.

(** How a call of [processClientSide] ends. *)
Inductive outcome : Type :=
| NothingToDo                   (* the early [return] *)
| Pending                       (* [img.onload] never fires *)
| Shown (r : Result)            (* [setResult(...)] *)
| ErrorShown (e : exn)          (* [setError(...)] in the [catch] *)
| Unfinished.                   (* out of fuel *)

(** The [valid] flag of a result, when there is one. *)
Definition verdict (o : outcome) : option bool :=
  match o with Shown r => Some (valid r) | _ => None end.

Section WithCanvas.

(** A decoded image, and a canvas with something drawn on it. *)
Context {Image Canvas : Type}.

(** The canvas of [rules.width] by [rules.height] after
    [ctx.drawImage(img, 0, 0, rules.width, rules.height)]: the image
    stretched over it. *)
Variable drawImage : Image -> jsnum -> jsnum -> Canvas.

(** [canvas.toBlob(resolve, type, quality)]: the blob, or [None] for
    [null]. *)
Variable canvas_toBlob : Canvas -> jsstring -> float -> option Buffer.

(** The body of the loop. *)
Definition attempt (canvas : Canvas) (rules : Rules) (st : search_state)
    : step search_state :=
  match canvas_toBlob canvas (mime_subtype (format rules)) (quality st) with
  | None => Throw TypeError                       (* [blob.size] on [null] *)
  | Some b =>
      let sizeKb := kilobytes b in
      if js_le sizeKb (maxKb rules) && js_ge sizeKb (minKb rules)
      then Break (mkSearch (quality st) (Some b) (attempts st))
      else Continue (mkSearch (clamp (adjust sizeKb (maxKb rules) (quality st)))
                             (Some b) (attempts st + 1))
  end.

(** The loop: [let quality = 0.92; let blob = null; let attempts = 0;
    while (attempts < 15) { ... }]. *)
Definition quality_search (fuel : nat) (canvas : Canvas) (rules : Rules)
    : list search_state * loop_end search_state :=
  while_loop fuel (fun st => attempts st <? maxAttempts)
    (attempt canvas rules) (mkSearch 0.92%float None 0).

(** The file and image a call starts from: [uploadedFile] and
    [originalImage] may still be [null]; otherwise the data URL loads
    into an image, or never does. *)
Inductive source : Type :=
| NoUpload
| Undecodable
| Loaded (img : Image).

(** [processClientSide] *)
Definition processClientSide (fuel : nat) (src : source)
    (selectedPreset customRule : jsstring) : outcome :=
  match src with
  | NoUpload => NothingToDo
  | Undecodable => Pending
  | Loaded img =>
      match getCurrentRules selectedPreset customRule with
      | None => ErrorShown TypeError              (* [rules.width] *)
      | Some rules =>
          match quality_search fuel
                  (drawImage img (width rules) (height rules)) rules with
          | (_, Finished st) =>
              match blob st with
              | None => ErrorShown TypeError      (* [blob.size] on [null] *)
              | Some b =>
                  let finalSizeKb := kilobytes b in
                  match format rules with
                  | None => ErrorShown TypeError  (* [rules.format.toUpperCase()] *)
                  | Some fmt =>
                      Shown {| res_width := width rules;
                               res_height := height rules;
                               res_sizeKb := toFixed2 finalSizeKb;
                               res_format := toUpperCase fmt;
                               valid := js_le finalSizeKb (maxKb rules)
                                        && js_ge finalSizeKb (minKb rules);
                               res_blob := b |}
                  end
              end
          | (_, Raised e) => ErrorShown e
          | (_, OutOfFuel) => Unfinished
          end
      end
  end.

End WithCanvas.
End Client.


(* ================================================================== *)
(** ** The end of a loop *)
(* ================================================================== *)

(** How [while_loop cond body] came from [s0] to its end [e] through
    the states [v]: at the last state in which the body ran, it broke,
    or it completed and the condition then failed, or it threw. *)
Definition ends_at {St : Type} (cond : St -> bool) (body : St -> step St)
    (v : list St) (e : loop_end St) (s0 : St) : Prop :=
  match e with
  | Finished st =>
      (v = [] /\ st = s0 /\ cond s0 = false) \/
      (exists sl, last v = Some sl /\ cond sl = true /\
                  (body sl = Break st \/ (body sl = Continue st /\ cond st = false)))
  | Raised x =>
      exists sl, last v = Some sl /\ cond sl = true /\ body sl = Throw x
  | OutOfFuel => True
  end.

Definition step_map {A B : Type} (f : A -> B) (g : exn -> exn) (x : step A) : step B :=
  match x with
  | Continue s => Continue (f s)
  | Break s => Break (f s)
  | Throw e => Throw (g e)
  end.

Definition loop_end_map {A B : Type} (f : A -> B) (g : exn -> exn)
    (x : loop_end A) : loop_end B :=
  match x with
  | Finished s => Finished (f s)
  | Raised e => Raised (g e)
  | OutOfFuel => OutOfFuel
  end.

(* ================================================================== *)
(** ** The search of section 4.2 of the specification *)
(* ================================================================== *)

(** The size-fitting search written a second time, from the words of
    section 4.2 of the specification (steps 2 to 4), over any quality
    scale.  The two implementations above are compared with it. *)
Module Spec42.

(** An encoder-native quality scale: the starting quality, the step
    down, the step up, the clamp to the valid range, and the attempt
    bound. *)
Record scale (T : Type) : Type := mkScale {
  start    : T;
  decrease : T -> T;
  increase : T -> T;
  clamp    : T -> T;
  budget   : Z
}.
Arguments mkScale {T}.
Arguments start {T}.
Arguments decrease {T}.
Arguments increase {T}.
Arguments clamp {T}.
Arguments budget {T}.

Record state (T : Type) : Type := mkSearch {
  quality  : T;
  encoded  : option Buffer;
  attempts : Z
}.
Arguments mkSearch {T}.
Arguments quality {T}.
Arguments encoded {T}.
Arguments attempts {T}.

Section Search.

Context {T : Type} (sc : scale T) (encode : T -> option Buffer) (minKb maxKb : Z).

(** Step 3c: [minKb <= sizeKb <= maxKb]. *)
Definition in_window (sizeKb : Q) : bool :=
  Qle_bool (inject_Z minKb) sizeKb && Qle_bool sizeKb (inject_Z maxKb).

(** One pass of step 3. *)
Definition attempt (st : state T) : step (state T) :=
  match encode (quality st) with                                  (* 3a *)
  | None => Throw EncoderError
  | Some buf =>
      let sizeKb := kilobytes buf in                              (* 3b *)
      if in_window sizeKb                                         (* 3c *)
      then Break (mkSearch (quality st) (Some buf) (attempts st))
      else
        let q := if negb (Qle_bool sizeKb (inject_Z maxKb))
                 then decrease sc (quality st)                    (* 3d *)
                 else increase sc (quality st) in                 (* 3e *)
        Continue (mkSearch (clamp sc q) (Some buf) (attempts st + 1)) (* 3f *)
  end.

(** Steps 2 to 4: the last buffer encoded is the one kept. *)
Definition fit (fuel : nat) : list (state T) * loop_end (state T) :=
  while_loop fuel (fun st => attempts st <? budget sc) attempt
    (mkSearch (start sc) None 0).

End Search.

(** The scale the back end uses: 0 to 100, steps of 5 down and 3 up. *)
Definition server_scale : scale Z :=
  mkScale 92 (fun q => q - 5) (fun q => q + 3) Server.clamp Server.maxAttempts.

(** The scale the front end uses: 0 to 1, steps of 0.05 down and 0.02 up. *)
Definition client_scale : scale float :=
  mkScale 0.92%float (fun q => q - 0.05)%float (fun q => q + 0.02)%float
    Client.clamp Client.maxAttempts.

Definition of_server (st : Server.search_state) : state Z :=
  mkSearch (Server.quality st) (Server.output st) (Server.attempts st).

Definition of_client (st : Client.search_state) : state float :=
  mkSearch (Client.quality st) (Client.blob st) (Client.attempts st).

End Spec42.

(* ================================================================== *)
(** ** Encoders and requests for the examples *)
(* ================================================================== *)

Module Examples.

(** [n] zero bytes. *)
Definition blank (n : Z) : Buffer := repeat Byte.x00 (Z.to_nat n).

(** A pipeline for the back end.  The stretched picture is its two
    dimensions (both must be below 256); the encoded buffer holds them
    in its first two bytes and grows with the quality, 200 bytes per
    quality point. *)
Definition sharp_resize (input : Buffer) (w h : jsnum) : option (Z * Z) :=
  match w, h with
  | JNum w, JNum h =>
      if (0 <=? w) && (w <? 256) && (0 <=? h) && (h <? 256) then Some (w, h) else None
  | _, _ => None
  end.

Definition sharp_toBuffer (raster : Z * Z) (method : jsstring) (quality : Z)
    : option Buffer :=
  match Byte.of_N (Z.to_N (fst raster)), Byte.of_N (Z.to_N (snd raster)) with
  | Some bw, Some bh => Some (bw :: bh :: blank (200 * quality))
  | _, _ => None
  end.

(** It reads the two dimensions back. *)
Definition sharp_metadata (buf : Buffer) : option (Z * Z) :=
  match buf with
  | bw :: bh :: _ => Some (Z.of_N (Byte.to_N bw), Z.of_N (Byte.to_N bh))
  | _ => None
  end.

(** A picture that encodes to [n] bytes at every quality. *)
Definition flat_resize (input : Buffer) (w h : jsnum) : option unit := Some tt.

Definition flat_toBuffer (n : Z) (raster : unit) (method : jsstring)
    (quality : Z) : option Buffer :=
  Some (blank n).

(** A canvas whose blob has [n] bytes at every quality. *)
Definition flat_toBlob (n : Z) (canvas : unit) (mime : jsstring) (quality : float)
    : option Buffer :=
  Some (blank n).

(** Metadata that reports 140 by 60 for every buffer. *)
Definition signature_metadata (buf : Buffer) : option (Z * Z) := Some (140, 60).

(** A picture that encodes to 1500 bytes at a quality of at most a fifth
    of the scale and to 3000 bytes above it: by the back end's encoder,
    and by the canvas. *)
Definition cliff_toBuffer (raster : unit) (method : jsstring) (quality : Z)
    : option Buffer :=
  Some (blank (if quality <=? 20 then 1500 else 3000)).

Definition cliff_toBlob (canvas : unit) (mime : jsstring) (quality : float)
    : option Buffer :=
  Some (blank (if (quality <=? 0.2)%float then 1500 else 3000)).

Definition any_metadata (buf : Buffer) : option (Z * Z) := Some (100, 100).

(** A canvas whose blob grows with the quality. *)
Definition drawImage (img : unit) (w h : jsnum) : unit := tt.

Definition canvas_toBlob (canvas : unit) (mime : jsstring) (quality : float)
    : option Buffer :=
  Some (blank (if (quality <=? 0.5)%float then 9000 else 18000)).

(** The upload directory with one stored upload. *)
Definition upload_path : string := "uploads/1700000000000-photo.png".

Definition uploads : Server.FS := {[ upload_path := blank 64 ]}.

(** Requests for that upload: with a preset, and with custom rule text. *)
Definition with_preset (name : string) : Server.Request :=
  Server.mkRequest (Some upload_path) (Some []) (Some (js name)).

Definition with_text (text : string) : Server.Request :=
  Server.mkRequest (Some upload_path) (Some (js text)) (Some (js "custom")).

End Examples.

(* ================================================================== *)
(** ** Loops: general facts *)
(* ================================================================== *)

Section WhileLoop.

Context {St : Type} (cond : St -> bool) (body : St -> step St).

(** A measure that is positive where the body runs and that every
    completed iteration lowers bounds the number of iterations, and
    that much fuel is enough. *)
Lemma while_loop_bounded (mu : St -> nat) :
  (forall s, cond s = true -> (0 < mu s)%nat) ->
  (forall s s', cond s = true -> body s = Continue s' -> (mu s' < mu s)%nat) ->
  forall fuel s, (mu s <= fuel)%nat ->
    (length (fst (while_loop fuel cond body s)) <= mu s)%nat /\
    snd (while_loop fuel cond body s) <> OutOfFuel.
Proof.
  intros Hpos Hdec fuel.
  induction fuel as [|fuel IH]; intros s Hfuel; simpl.
  - destruct (cond s) eqn:Hc; simpl.
    + specialize (Hpos s Hc). lia.
    + split; [lia | discriminate].
  - destruct (cond s) eqn:Hc; simpl; [|split; [lia | discriminate]].
    specialize (Hpos s Hc).
    destruct (body s) as [s'|s'|e] eqn:Hb; simpl.
    + specialize (Hdec s s' Hc Hb).
      destruct (IH s' ltac:(lia)) as [Hlen Hend].
      destruct (while_loop fuel cond body s') as [v e]; simpl in *.
      split; [lia | exact Hend].
    + split; [lia | discriminate].
    + split; [lia | discriminate].
Qed.

(** More fuel than needed changes nothing. *)
Lemma while_loop_fuel_irrelevant :
  forall fuel fuel' s,
    snd (while_loop fuel cond body s) <> OutOfFuel ->
    (fuel <= fuel')%nat ->
    while_loop fuel' cond body s = while_loop fuel cond body s.
Proof.
  induction fuel as [|fuel IH]; intros fuel' s Hend Hle; simpl in *.
  - destruct (cond s) eqn:Hc; simpl in *; [congruence|].
    destruct fuel'; simpl; rewrite Hc; reflexivity.
  - destruct fuel' as [|fuel']; [lia|]. simpl.
    destruct (cond s) eqn:Hc; [|reflexivity].
    destruct (body s) as [s'|s'|e] eqn:Hb; try reflexivity.
    rewrite (IH fuel' s'); [reflexivity| |lia].
    destruct (while_loop fuel cond body s'); simpl in *; exact Hend.
Qed.

(** A property of the initial state that completed iterations keep holds
    in every state in which the body is entered. *)
Lemma while_loop_invariant (P : St -> Prop) :
  (forall s s', P s -> cond s = true -> body s = Continue s' -> P s') ->
  forall fuel s, P s -> Forall P (fst (while_loop fuel cond body s)).
Proof.
  intros Hstep fuel.
  induction fuel as [|fuel IH]; intros s Hs; simpl.
  - destruct (cond s); simpl; constructor.
  - destruct (cond s) eqn:Hc; simpl; [|constructor].
    destruct (body s) as [s'|s'|e] eqn:Hb; simpl.
    + specialize (IH s' (Hstep s s' Hs Hc Hb)).
      destruct (while_loop fuel cond body s'); simpl in *.
      constructor; assumption.
    + constructor; [assumption | constructor].
    + constructor; [assumption | constructor].
Qed.

Lemma while_loop_ends :
  forall fuel s,
    ends_at cond body (fst (while_loop fuel cond body s))
      (snd (while_loop fuel cond body s)) s.
Proof.
  induction fuel as [|fuel IH]; intros s; simpl.
  - destruct (cond s) eqn:Hc; simpl; [exact I | left; auto].
  - destruct (cond s) eqn:Hc; simpl; [|left; auto].
    destruct (body s) as [s'|s'|e] eqn:Hb; simpl.
    + specialize (IH s').
      destruct (while_loop fuel cond body s') as [v e]; simpl in *.
      destruct e as [st|x|]; simpl in *; [| |exact I].
      * right. destruct IH as [(-> & -> & Hc')|(sl & Hl & Hcl & Hbl)].
        -- exists s. auto.
        -- exists sl. split; [|auto].
           destruct v; [discriminate|exact Hl].
      * destruct IH as (sl & Hl & Hcl & Hbl).
        exists sl. split; [|auto]. destruct v; [discriminate|exact Hl].
    + right. exists s. auto.
    + exists s. auto.
Qed.

(** The first state visited is the initial one. *)
Lemma while_loop_first fuel s a :
  fst (while_loop fuel cond body s) !! 0%nat = Some a -> a = s.
Proof.
  destruct fuel as [|fuel]; simpl.
  - destruct (cond s); discriminate.
  - destruct (cond s); [|discriminate].
    destruct (body s) as [s'|s'|e]; simpl;
      try destruct (while_loop fuel cond body s'); simpl; congruence.
Qed.

(** A counter that every completed run of the body raises by one
    numbers the states visited. *)
Lemma while_loop_count (count : St -> Z) :
  (forall s s', cond s = true -> body s = Continue s' -> count s' = count s + 1) ->
  forall fuel s i a,
    fst (while_loop fuel cond body s) !! i = Some a ->
    count a = count s + Z.of_nat i.
Proof.
  intros Hstep fuel.
  induction fuel as [|fuel IH]; intros s i a; simpl.
  - destruct (cond s); discriminate.
  - destruct (cond s) eqn:Hc; [|discriminate].
    destruct (body s) as [s'|s'|e] eqn:Hb; simpl.
    + specialize (IH s'). specialize (Hstep s s' Hc Hb).
      destruct (while_loop fuel cond body s') as [v e]; simpl in *.
      destruct i as [|i]; simpl.
      * intros [= <-]. lia.
      * intros H. rewrite (IH _ _ H). lia.
    + destruct i as [|i]; simpl; [intros [= <-]; lia | discriminate].
    + destruct i as [|i]; simpl; [intros [= <-]; lia | discriminate].
Qed.

(** A state map that commutes with the condition and the body maps
    one loop onto the other. *)
Lemma while_loop_map {St' : Type} (f : St -> St') (g : exn -> exn)
    (cond' : St' -> bool) (body' : St' -> step St') :
  (forall s, cond' (f s) = cond s) ->
  (forall s, cond s = true -> body' (f s) = step_map f g (body s)) ->
  forall fuel s,
    while_loop fuel cond' body' (f s) =
    (map f (fst (while_loop fuel cond body s)),
     loop_end_map f g (snd (while_loop fuel cond body s))).
Proof.
  intros Hc Hb fuel.
  induction fuel as [|fuel IH]; intros s; simpl; rewrite Hc.
  - destruct (cond s); reflexivity.
  - destruct (cond s) eqn:Hcs; [|reflexivity].
    rewrite (Hb s Hcs).
    destruct (body s) as [s'|s'|e]; simpl; try reflexivity.
    rewrite IH.
    destruct (while_loop fuel cond body s'); reflexivity.
Qed.

End WhileLoop.

Lemma last_is_lookup {A : Type} (l : list A) (a : A) :
  last l = Some a -> l !! (length l - 1)%nat = Some a /\ (0 < length l)%nat.
Proof.
  rewrite last_lookup. destruct l as [|x l]; [discriminate|].
  simpl. rewrite Nat.sub_0_r. intros H. split; [exact H | lia].
Qed.

Lemma last_In {A : Type} (l : list A) (a : A) : last l = Some a -> In a l.
Proof.
  intros H. apply last_is_lookup in H as [H _].
  apply list_elem_of_In. eapply list_elem_of_lookup_2. exact H.
Qed.

(* ================================================================== *)
(** ** The matcher *)
(* ================================================================== *)

Section Matcher.
Import Regex.

Variable ic : bool.

(** Soundness of the star loop, given soundness of its body. *)
Lemma star_loop_sound (r : regex) (g : bool) :
  (forall k s res, run ic r k s = Some res ->
     exists s', reaches ic r s s' /\ k s' = Some res) ->
  forall k fuel s res,
    star_loop (run ic r) g k fuel s = Some res ->
    exists s', star_of (reaches ic r) s s' /\ k s' = Some res.
Proof.
  intros IHr k fuel.
  induction fuel as [|fuel IH]; intros s res H; simpl in H.
  - exists s. split; [constructor | exact H].
  - assert (forall res',
              run ic r (fun s' => if (length (ahead s') <? length (ahead s))%nat
                                  then star_loop (run ic r) g k fuel s' else None) s
              = Some res' ->
              exists s', star_of (reaches ic r) s s' /\ k s' = Some res') as Hagain.
    { intros res' Hrun.
      destruct (IHr _ _ _ Hrun) as (s1 & Hr1 & Hk1).
      destruct (length (ahead s1) <? length (ahead s))%nat; [|discriminate].
      destruct (IH _ _ Hk1) as (s2 & Hstar & Hk2).
      exists s2. split; [econstructor; eassumption | exact Hk2]. }
    destruct g.
    + destruct (run ic r _ s) as [res'|] eqn:Hrun.
      * injection H as <-. apply Hagain. reflexivity.
      * exists s. split; [constructor | exact H].
    + destruct (k s) as [res'|] eqn:Hk.
      * injection H as <-. exists s. split; [constructor | exact Hk].
      * apply Hagain. exact H.
Qed.

(** Soundness of the matcher: a result comes from the continuation, at
    a state the pattern can lead to. *)
Lemma run_sound (r : regex) :
  forall k s res, run ic r k s = Some res ->
    exists s', reaches ic r s s' /\ k s' = Some res.
Proof.
  induction r as [|cs|a IHa b IHb|a IHa b IHb|g r IHr|n r IHr|];
    intros k s res H; simpl in H.
  - exists s. split; [reflexivity | exact H].
  - destruct (ahead s) as [|c rest] eqn:Ha; [discriminate|].
    destruct (cset_mem ic cs c) eqn:Hc; [|discriminate].
    eexists. split; [|exact H]. simpl. exists c, rest. auto.
  - destruct (IHa _ _ _ H) as (s1 & Hr1 & Hk1).
    destruct (IHb _ _ _ Hk1) as (s2 & Hr2 & Hk2).
    exists s2. split; [exists s1; auto | exact Hk2].
  - destruct (run ic a k s) as [res'|] eqn:Hrun.
    + injection H as <-. destruct (IHa _ _ _ Hrun) as (s' & Hr & Hk).
      exists s'. split; [left; exact Hr | exact Hk].
    + destruct (IHb _ _ _ H) as (s' & Hr & Hk).
      exists s'. split; [right; exact Hr | exact Hk].
  - apply (star_loop_sound r g IHr _ _ _ _ H).
  - destruct (IHr _ _ _ H) as (s1 & Hr1 & Hk1).
    eexists. split; [|exact Hk1]. simpl. exists s1. auto.
  - destruct (xorb (word_before s) (word_after s)); [|discriminate].
    exists s. split; [reflexivity | exact H].
Qed.

(** A match only moves forward in the input. *)
Lemma reaches_suffix (r : regex) :
  forall s s', reaches ic r s s' -> exists pre, ahead s = pre ++ ahead s'.
Proof.
  induction r as [|cs|a IHa b IHb|a IHa b IHb|g r IHr|n r IHr|];
    intros s s' H; simpl in H.
  - subst. exists []. reflexivity.
  - destruct H as (c & rest & Ha & _ & ->). exists [c]. exact Ha.
  - destruct H as (s1 & H1 & H2).
    destruct (IHa _ _ H1) as [p1 E1]. destruct (IHb _ _ H2) as [p2 E2].
    exists (p1 ++ p2). rewrite E1, E2, app_assoc. reflexivity.
  - destruct H as [H|H]; eauto.
  - induction H as [s|s s1 s2 H1 _ IH].
    + exists []. reflexivity.
    + destruct (IHr _ _ H1) as [p1 E1]. destruct IH as [p2 E2].
      exists (p1 ++ p2). rewrite E1, E2, app_assoc. reflexivity.
  - destruct H as (s1 & H1 & ->). simpl. eauto.
  - subst. exists []. reflexivity.
Qed.

(** A match only adds captures, and only for its own groups. *)
Lemma reaches_caps (r : regex) :
  forall s s', reaches ic r s s' ->
    exists new, caps s' = new ++ caps s /\
                Forall (fun kv => In (fst kv) (groups r)) new.
Proof.
  induction r as [|cs|a IHa b IHb|a IHa b IHb|g r IHr|n r IHr|];
    intros s s' H; simpl in H.
  - subst. exists []. split; [reflexivity | constructor].
  - destruct H as (c & rest & _ & _ & ->). exists []. split; [reflexivity | constructor].
  - destruct H as (s1 & H1 & H2).
    destruct (IHa _ _ H1) as (n1 & E1 & F1). destruct (IHb _ _ H2) as (n2 & E2 & F2).
    exists (n2 ++ n1). rewrite E2, E1, app_assoc. split; [reflexivity|].
    apply Forall_app. split; eapply Forall_impl; try eassumption;
      simpl; intros kv Hin; apply in_or_app; auto.
  - destruct H as [H|H]; [destruct (IHa _ _ H) as (new & E & F)
                         |destruct (IHb _ _ H) as (new & E & F)];
      exists new; (split; [exact E|]); eapply Forall_impl; try eassumption;
      simpl; intros kv Hin; apply in_or_app; auto.
  - induction H as [s|s s1 s2 H1 _ IH].
    + exists []. split; [reflexivity | constructor].
    + destruct (IHr _ _ H1) as (n1 & E1 & F1). destruct IH as (n2 & E2 & F2).
      exists (n2 ++ n1). rewrite E2, E1, app_assoc. split; [reflexivity|].
      apply Forall_app. split; assumption.
  - destruct H as (s1 & H1 & ->). simpl.
    destruct (IHr _ _ H1) as (new & E & F).
    exists ((n, firstn (length (ahead s) - length (ahead s1)) (ahead s)) :: new).
    rewrite E. split; [reflexivity|].
    constructor; [left; reflexivity|].
    eapply Forall_impl; try eassumption. simpl. auto.
  - subst. exists []. split; [reflexivity | constructor].
Qed.

Lemma lookup_cap_app_other n new old :
  Forall (fun kv : nat * jsstring => fst kv <> n) new ->
  lookup_cap n (new ++ old) = lookup_cap n old.
Proof.
  induction new as [|[i v] new IH]; intros H; simpl; [reflexivity|].
  inversion H as [|? ? Hi Hrest]; subst. simpl in Hi.
  destruct (Nat.eqb_spec i n); [contradiction | auto].
Qed.

(** A group in the sequence of a pattern, with no group of that number
    after it, is in the captures of every match. *)
Lemma capturing_sound (n : nat) (r : regex) :
  forall r' s s', capturing n r = Some r' -> reaches ic r s s' ->
    exists s1 s2,
      reaches ic r' s1 s2 /\
      lookup_cap n (caps s')
      = Some (firstn (length (ahead s1) - length (ahead s2)) (ahead s1)).
Proof.
  induction r as [|cs|a IHa b IHb|a IHa b IHb|g r IHr|m r IHr|];
    intros r' s s' Hcap H; simpl in Hcap; try discriminate.
  - destruct H as (s1 & H1 & H2).
    destruct (capturing n b) as [rb|] eqn:Hb.
    + injection Hcap as <-. eapply IHb; eauto.
    + destruct (existsb (Nat.eqb n) (groups b)) eqn:Hex; [discriminate|].
      destruct (IHa _ _ _ Hcap H1) as (t1 & t2 & Hr & Hl).
      exists t1, t2. split; [exact Hr|].
      destruct (reaches_caps b _ _ H2) as (new & -> & F).
      rewrite lookup_cap_app_other; [exact Hl|].
      eapply Forall_impl; [exact F|]. simpl. intros kv Hin Heq.
      assert (existsb (Nat.eqb n) (groups b) = true) as Hc; [|congruence].
      apply existsb_exists. exists (fst kv).
      split; [exact Hin | rewrite Heq; apply Nat.eqb_refl].
  - destruct (Nat.eqb_spec m n) as [->|]; [|discriminate].
    injection Hcap as <-. destruct H as (s1 & H1 & ->).
    exists s, s1. split; [exact H1|]. simpl. rewrite Nat.eqb_refl. reflexivity.
Qed.

(** A run of digits is captured as a string that starts with a digit. *)
Lemma reaches_digits s s' :
  reaches ic Patterns.digits s s' ->
  exists c v,
    firstn (length (ahead s) - length (ahead s')) (ahead s) = c :: v /\
    Char.is_digit c = true.
Proof.
  intros (s1 & (c & rest & Ha & Hc & ->) & Hstar).
  destruct (reaches_suffix (Star true (Chr CDigit)) _ _ Hstar) as [pre Hpre].
  simpl in Hpre. rewrite Ha, Hpre.
  replace (length (c :: pre ++ ahead s') - length (ahead s'))%nat
    with (S (length pre)) by (simpl; rewrite length_app; lia).
  simpl. eauto.
Qed.

(** The matcher fails where its continuation fails on every state
    further on in the input. *)
Lemma star_loop_fails (r : regex) (g : bool) :
  (forall k s,
     (forall s', (exists pre, ahead s = pre ++ ahead s') -> k s' = None) ->
     run ic r k s = None) ->
  forall k fuel s,
    (forall s', (exists pre, ahead s = pre ++ ahead s') -> k s' = None) ->
    star_loop (run ic r) g k fuel s = None.
Proof.
  intros IHr k fuel.
  induction fuel as [|fuel IH]; intros s Hk; simpl.
  - apply Hk. exists []. reflexivity.
  - assert (k s = None) as Hks by (apply Hk; exists []; reflexivity).
    assert (run ic r (fun s' => if (length (ahead s') <? length (ahead s))%nat
                                then star_loop (run ic r) g k fuel s' else None) s
            = None) as Hagain.
    { apply IHr. intros s1 [p1 E1].
      destruct (length (ahead s1) <? length (ahead s))%nat; [|reflexivity].
      apply IH. intros s2 [p2 E2]. apply Hk.
      exists (p1 ++ p2). rewrite E1, E2, app_assoc. reflexivity. }
    destruct g; rewrite Hagain, Hks; reflexivity.
Qed.

Lemma run_fails (r : regex) :
  forall k s,
    (forall s', (exists pre, ahead s = pre ++ ahead s') -> k s' = None) ->
    run ic r k s = None.
Proof.
  induction r as [|cs|a IHa b IHb|a IHa b IHb|g r IHr|n r IHr|];
    intros k s Hk; simpl.
  - apply Hk. exists []. reflexivity.
  - destruct (ahead s) as [|c rest] eqn:Ha; [reflexivity|].
    destruct (cset_mem ic cs c); [|reflexivity].
    apply Hk. simpl. exists [c]. reflexivity.
  - apply IHa. intros s1 [p1 E1]. apply IHb. intros s2 [p2 E2].
    apply Hk. exists (p1 ++ p2). rewrite E1, E2, app_assoc. reflexivity.
  - rewrite (IHa _ _ Hk). apply IHb, Hk.
  - apply (star_loop_fails r g IHr), Hk.
  - apply IHr. intros s1 Hs1. apply Hk. simpl. exact Hs1.
  - destruct (xorb _ _); [|reflexivity]. apply Hk. exists []. reflexivity.
Qed.

(** A pattern that needs a character of a set fails on input without
    one. *)
Lemma run_needs (P : N -> bool) (r : regex) :
  needs P ic r ->
  forall k s, Forall (fun c => P c = false) (ahead s) -> run ic r k s = None.
Proof.
  induction r as [|cs|a IHa b IHb|a IHa b IHb|g r IHr|n r IHr|];
    intros Hn k s Hs; simpl in Hn; try contradiction; simpl.
  - destruct (ahead s) as [|c rest]; [reflexivity|].
    destruct (cset_mem ic cs c) eqn:Hc; [|reflexivity].
    inversion Hs as [|? ? Hpc _]; subst. rewrite (Hn c Hc) in Hpc. discriminate.
  - destruct Hn as [Hn|Hn]; [apply IHa; assumption|].
    apply run_fails. intros s1 [p1 E1]. apply IHb; [exact Hn|].
    rewrite E1 in Hs. apply Forall_app in Hs. tauto.
  - destruct Hn as [Ha Hb]. rewrite (IHa Ha _ _ Hs). apply IHb; assumption.
  - apply IHr; assumption.
Qed.

Lemma exec_from_needs (P : N -> bool) (r : regex) :
  needs P ic r ->
  forall rest before, Forall (fun c => P c = false) rest ->
    exec_from ic r before rest = None.
Proof.
  intros Hn rest.
  induction rest as [|c rest IH]; intros before Hs; simpl;
    rewrite (run_needs P r Hn); simpl; try assumption; try reflexivity.
  apply IH. inversion Hs; assumption.
Qed.

(** The matcher only looks at its continuation further on in the
    input. *)
Lemma star_loop_cong (r : regex) (g : bool) :
  (forall k1 k2 s,
     (forall s', (exists pre, ahead s = pre ++ ahead s') -> k1 s' = k2 s') ->
     run ic r k1 s = run ic r k2 s) ->
  forall k1 k2 fuel s,
    (forall s', (exists pre, ahead s = pre ++ ahead s') -> k1 s' = k2 s') ->
    star_loop (run ic r) g k1 fuel s = star_loop (run ic r) g k2 fuel s.
Proof.
  intros IHr k1 k2 fuel.
  induction fuel as [|fuel IH]; intros s Hk; simpl.
  - apply Hk. exists []. reflexivity.
  - assert (k1 s = k2 s) as Hks by (apply Hk; exists []; reflexivity).
    assert (run ic r (fun s' => if (length (ahead s') <? length (ahead s))%nat
                                then star_loop (run ic r) g k1 fuel s' else None) s
            = run ic r (fun s' => if (length (ahead s') <? length (ahead s))%nat
                                  then star_loop (run ic r) g k2 fuel s' else None) s)
      as Hagain.
    { apply IHr. intros s1 [p1 E1].
      destruct (length (ahead s1) <? length (ahead s))%nat; [|reflexivity].
      apply IH. intros s2 [p2 E2]. apply Hk.
      exists (p1 ++ p2). rewrite E1, E2, app_assoc. reflexivity. }
    rewrite Hagain, Hks. reflexivity.
Qed.

Lemma run_cong (r : regex) :
  forall k1 k2 s,
    (forall s', (exists pre, ahead s = pre ++ ahead s') -> k1 s' = k2 s') ->
    run ic r k1 s = run ic r k2 s.
Proof.
  induction r as [|cs|a IHa b IHb|a IHa b IHb|g r IHr|n r IHr|];
    intros k1 k2 s Hk; simpl.
  - apply Hk. exists []. reflexivity.
  - destruct (ahead s) as [|c rest] eqn:Ha; [reflexivity|].
    destruct (cset_mem ic cs c); [|reflexivity].
    apply Hk. simpl. exists [c]. reflexivity.
  - apply IHa. intros s1 [p1 E1]. apply IHb. intros s2 [p2 E2].
    apply Hk. exists (p1 ++ p2). rewrite E1, E2, app_assoc. reflexivity.
  - rewrite (IHa _ _ _ Hk), (IHb _ _ _ Hk). reflexivity.
  - apply (star_loop_cong r g IHr), Hk.
  - apply IHr. intros s1 Hs1. apply Hk. simpl. exact Hs1.
  - destruct (xorb _ _); [|reflexivity]. apply Hk. exists []. reflexivity.
Qed.

(** The captures of a match found by [str_match]. *)
Lemma exec_from_reaches (r : regex) :
  forall rest before m, exec_from ic r before rest = Some m ->
    exists s s', reaches ic r s s' /\ captures m = caps s'.
Proof.
  induction rest as [|c rest IH]; intros before m H; simpl in H.
  - destruct (run ic r Some _) as [s'|] eqn:Hrun; [|discriminate].
    injection H as <-. destruct (run_sound r _ _ _ Hrun) as (s1 & Hr & [= ->]).
    eauto.
  - destruct (run ic r Some _) as [s'|] eqn:Hrun.
    + injection H as <-. destruct (run_sound r _ _ _ Hrun) as (s1 & Hr & [= ->]).
      eauto.
    + eapply IH. exact H.
Qed.

End Matcher.

(* ================================================================== *)
(** ** The back end's quality search *)
(* ================================================================== *)

Section ServerSearch.

Context {Raster : Type}.
Variable sharp_resize : Buffer -> jsnum -> jsnum -> option Raster.
Variable sharp_toBuffer : Raster -> jsstring -> Z -> option Buffer.
Variables (fs : Server.FS) (inputPath : string).
Variables (w h lo hi : jsnum) (fmt : jsstring).

Let cond (st : Server.search_state) : bool :=
  Server.attempts st <? Server.maxAttempts.

Let body : Server.search_state -> step Server.search_state :=
  Server.attempt sharp_resize sharp_toBuffer fs inputPath w h lo hi fmt.

Let encode (q : Z) (input : Buffer) : option Buffer :=
  Server.sharp_pipeline sharp_resize sharp_toBuffer input w h
    (Server.method_name fmt) q.

(** What one attempt does, case by case. *)
Lemma server_attempt_inv st :
  match body st with
  | Throw e =>
      (fs !! inputPath = None /\ e = ENOENT) \/
      (exists input, fs !! inputPath = Some input /\ e = EncoderError /\
         encode (Server.quality st) input = None)
  | Break st' =>
      exists input out,
        fs !! inputPath = Some input /\
        encode (Server.quality st) input = Some out /\
        js_le (kilobytes out) hi && js_ge (kilobytes out) lo = true /\
        st' = Server.mkSearch (Server.quality st) (Some out) (Server.attempts st)
  | Continue st' =>
      exists input out,
        fs !! inputPath = Some input /\
        encode (Server.quality st) input = Some out /\
        js_le (kilobytes out) hi && js_ge (kilobytes out) lo = false /\
        st' = Server.mkSearch
                (Server.clamp (Server.adjust (kilobytes out) lo hi (Server.quality st)))
                (Some out) (Server.attempts st + 1)
  end.
Proof.
  unfold body, encode, Server.attempt.
  destruct (fs !! inputPath) as [input|] eqn:Hin; [|left; auto].
  destruct (Server.sharp_pipeline sharp_resize sharp_toBuffer input w h
              (Server.method_name fmt) (Server.quality st))
    as [out|] eqn:Henc; [|right; eauto].
  destruct (js_le (kilobytes out) hi && js_ge (kilobytes out) lo) eqn:Hwin;
    exists input, out; auto.
Qed.

Lemma server_clamp_range q : 10 <= Server.clamp q <= 100.
Proof. unfold Server.clamp. lia. Qed.

(** The attempt counter is a measure of the loop. *)
Lemma server_search_bounded fuel st :
  0 <= Server.attempts st ->
  (Z.to_nat (Server.maxAttempts - Server.attempts st) <= fuel)%nat ->
  (length (fst (while_loop fuel cond body st))
     <= Z.to_nat (Server.maxAttempts - Server.attempts st))%nat /\
  snd (while_loop fuel cond body st) <> OutOfFuel.
Proof.
  intros Hge Hfuel.
  apply (while_loop_bounded cond body
           (fun s => Z.to_nat (Server.maxAttempts - Server.attempts s))); auto.
  - intros s Hc. unfold cond in Hc. apply Z.ltb_lt in Hc. lia.
  - intros s s' Hc Hb. unfold cond in Hc. apply Z.ltb_lt in Hc.
    pose proof (server_attempt_inv s) as Hinv. rewrite Hb in Hinv.
    destruct Hinv as (input & out & _ & _ & _ & ->). simpl. lia.
Qed.

(** Every quality handed to the encoder is within 10 and 100. *)
Lemma server_search_quality fuel :
  Forall (fun st => 10 <= Server.quality st <= 100)
    (fst (while_loop fuel cond body (Server.mkSearch 92 None 0))).
Proof.
  apply while_loop_invariant; [|simpl; lia].
  intros s s' _ _ Hb.
  pose proof (server_attempt_inv s) as Hinv. rewrite Hb in Hinv.
  destruct Hinv as (input & out & _ & _ & _ & ->). simpl.
  apply server_clamp_range.
Qed.

(** The buffer in a final state is what the encoder made in the last
    attempt. *)
Lemma server_search_last fuel st :
  snd (while_loop fuel cond body (Server.mkSearch 92 None 0)) = Finished st ->
  exists sl input out,
    last (fst (while_loop fuel cond body (Server.mkSearch 92 None 0))) = Some sl /\
    fs !! inputPath = Some input /\
    encode (Server.quality sl) input = Some out /\
    Server.output st = Some out.
Proof.
  intros Hfin.
  pose proof (while_loop_ends cond body fuel (Server.mkSearch 92 None 0)) as Hends.
  rewrite Hfin in Hends. simpl in Hends.
  destruct Hends as [(_ & _ & Hc)|(sl & Hl & _ & Hb)]; [discriminate|].
  pose proof (server_attempt_inv sl) as Hinv.
  destruct Hb as [Hb|[Hb _]]; rewrite Hb in Hinv;
    destruct Hinv as (input & out & Hin & Henc & _ & ->);
    exists sl, input, out; auto.
Qed.

(** At least one attempt is made. *)
Lemma server_search_nonempty fuel :
  snd (while_loop fuel cond body (Server.mkSearch 92 None 0)) <> OutOfFuel ->
  (1 <= length (fst (while_loop fuel cond body (Server.mkSearch 92 None 0))))%nat.
Proof.
  intros Hend.
  pose proof (while_loop_ends cond body fuel (Server.mkSearch 92 None 0)) as Hends.
  destruct (while_loop fuel cond body (Server.mkSearch 92 None 0)) as [v e].
  simpl in *.
  destruct e as [st|x|]; simpl in Hends; [| |congruence].
  - destruct Hends as [(_ & _ & Hc)|(sl & Hl & _)]; [discriminate|].
    destruct v; [discriminate|simpl; lia].
  - destruct Hends as (sl & Hl & _). destruct v; [discriminate|simpl; lia].
Qed.

(** The attempt counter numbers the attempts. *)
Lemma server_search_count fuel i a :
  fst (while_loop fuel cond body (Server.mkSearch 92 None 0)) !! i = Some a ->
  Server.attempts a = Z.of_nat i.
Proof.
  intros H.
  assert (forall s s', cond s = true -> body s = Continue s' ->
                       Server.attempts s' = Server.attempts s + 1) as Hstep.
  { intros s s' _ Hb.
    pose proof (server_attempt_inv s) as Hinv. rewrite Hb in Hinv.
    destruct Hinv as (input & out & _ & _ & _ & ->). reflexivity. }
  rewrite (while_loop_count cond body Server.attempts Hstep _ _ _ _ H).
  simpl. lia.
Qed.

(** How the loop finishes: on the attempt whose buffer is within the
    window, with that buffer; or after the twentieth attempt, with the
    buffer of that attempt. *)
Lemma server_search_finished fuel st :
  snd (while_loop fuel cond body (Server.mkSearch 92 None 0)) = Finished st ->
  exists sl input out,
    last (fst (while_loop fuel cond body (Server.mkSearch 92 None 0))) = Some sl /\
    fs !! inputPath = Some input /\
    encode (Server.quality sl) input = Some out /\
    Server.output st = Some out /\
    (if js_le (kilobytes out) hi && js_ge (kilobytes out) lo
     then st = Server.mkSearch (Server.quality sl) (Some out) (Server.attempts sl)
     else length (fst (while_loop fuel cond body (Server.mkSearch 92 None 0))) = 20%nat /\
          Server.attempts st = 20).
Proof.
  intros Hfin.
  pose proof (while_loop_ends cond body fuel (Server.mkSearch 92 None 0)) as Hends.
  pose proof (server_search_count fuel) as Hcount.
  destruct (while_loop fuel cond body (Server.mkSearch 92 None 0)) as [v e].
  simpl in *. subst e. simpl in Hends.
  destruct Hends as [(_ & _ & Hc)|(sl & Hl & Hcl & Hb)]; [discriminate|].
  pose proof (last_is_lookup _ _ Hl) as [Hlk Hpos].
  pose proof (Hcount _ _ Hlk) as Hn.
  pose proof (server_attempt_inv sl) as Hinv.
  destruct Hb as [Hb|[Hb Hcst]]; rewrite Hb in Hinv;
    destruct Hinv as (input & out & Hin & Henc & Hwin & ->);
    exists sl, input, out; rewrite Hwin; simpl; repeat split; auto;
    unfold cond in Hcl, Hcst; simpl in Hcst; unfold Server.maxAttempts in *;
    apply Z.ltb_lt in Hcl; apply Z.ltb_ge in Hcst; lia.
Qed.

(** How the loop raises: in its last attempt, because the file is
    missing or because the pipeline rejected. *)
Lemma server_search_raised fuel e :
  snd (while_loop fuel cond body (Server.mkSearch 92 None 0)) = Raised e ->
  exists sl,
    last (fst (while_loop fuel cond body (Server.mkSearch 92 None 0))) = Some sl /\
    ((fs !! inputPath = None /\ e = ENOENT) \/
     (exists input, fs !! inputPath = Some input /\ e = EncoderError /\
        encode (Server.quality sl) input = None)).
Proof.
  intros Hr.
  pose proof (while_loop_ends cond body fuel (Server.mkSearch 92 None 0)) as Hends.
  rewrite Hr in Hends. simpl in Hends.
  destruct Hends as (sl & Hl & _ & Hb).
  pose proof (server_attempt_inv sl) as Hinv. rewrite Hb in Hinv.
  exists sl. split; [exact Hl | exact Hinv].
Qed.

(** With the file in place and a pipeline that makes a buffer at every
    quality of the scale, the loop finishes. *)
Lemma server_search_finishes fuel input :
  (20 <= fuel)%nat ->
  fs !! inputPath = Some input ->
  (forall q, 10 <= q <= 100 -> is_Some (encode q input)) ->
  exists st, snd (while_loop fuel cond body (Server.mkSearch 92 None 0)) = Finished st.
Proof.
  intros Hfuel Hin Henc.
  destruct (server_search_bounded fuel (Server.mkSearch 92 None 0)) as [_ Hend];
    [simpl; lia | simpl; unfold Server.maxAttempts; lia |].
  pose proof (server_search_raised fuel) as Hraised.
  pose proof (server_search_quality fuel) as Hq.
  destruct (snd (while_loop fuel cond body (Server.mkSearch 92 None 0)))
    as [st|e|]; [eauto| |congruence].
  destruct (Hraised e eq_refl) as (sl & Hl & [(Hno & _)|(input' & Hin' & _ & Hnone)]).
  - congruence.
  - assert (input' = input) as -> by congruence.
    rewrite Forall_forall in Hq.
    pose proof (Hq sl (proj2 (list_elem_of_In _ _) (last_In _ _ Hl))) as Hrange.
    destruct (Henc _ Hrange) as [out Hout]. congruence.
Qed.

End ServerSearch.

(* ================================================================== *)
(** ** Binary64 floats: order and NaN *)
(* ================================================================== *)

Section FloatFacts.

Local Open Scope float_scope.

Lemma SFcompare_antisym a b c :
  SFcompare a b = Some c -> SFcompare b a = Some (CompOpp c).
Proof.
  destruct a as [sa|sa| |sa ma ea], b as [sb|sb| |sb mb eb]; simpl;
    try discriminate;
    try (destruct sa); try (destruct sb); simpl;
    try (intros [= <-]; reflexivity).
  - intros [= <-]. rewrite (Z.compare_antisym ea eb).
    destruct (ea ?= eb)%Z; simpl; try reflexivity.
    rewrite (Pos.compare_cont_antisym ma mb Eq). reflexivity.
  - intros [= <-]. rewrite (Z.compare_antisym ea eb).
    destruct (ea ?= eb)%Z; simpl; try reflexivity.
    rewrite (Pos.compare_cont_antisym ma mb Eq). reflexivity.
Qed.

Lemma SFcompare_total a b :
  a <> S754_nan -> b <> S754_nan -> exists c, SFcompare a b = Some c.
Proof.
  destruct a, b; simpl; intros Ha Hb; try congruence; eauto.
Qed.

Lemma SFcompare_refl a : a <> S754_nan -> SFcompare a a = Some Eq.
Proof.
  destruct a as [s|s| |s m e]; simpl; intros Ha; try congruence.
  - destruct s; reflexivity.
  - rewrite Z.compare_refl.
    rewrite Pos.compare_cont_refl. destruct s; reflexivity.
Qed.

Lemma is_nan_false x : is_nan x = false <-> Prim2SF x <> S754_nan.
Proof.
  unfold is_nan. rewrite FloatAxioms.eqb_spec. unfold SFeqb. split.
  - intros H Hn. rewrite Hn in H. discriminate.
  - intros H. rewrite (SFcompare_refl _ H). reflexivity.
Qed.

Lemma leb_not_nan x y : (x <=? y) = true -> is_nan x = false /\ is_nan y = false.
Proof.
  rewrite FloatAxioms.leb_spec. unfold SFleb. rewrite !is_nan_false.
  destruct (Prim2SF x), (Prim2SF y); simpl; try discriminate; split; congruence.
Qed.

(** Shifting right and rounding keep a mantissa non-negative, so the
    branch of [binary_round_aux] that answers NaN is never taken. *)
Lemma shr_1_nonneg mrs : (0 <= shr_m mrs)%Z -> (0 <= shr_m (shr_1 mrs))%Z.
Proof.
  destruct mrs as [m r s]. simpl.
  destruct m as [|p|p]; simpl; try lia; destruct p; simpl; lia.
Qed.

Lemma iter_shr_1_nonneg p mrs :
  (0 <= shr_m mrs)%Z -> (0 <= shr_m (SpecFloat.iter_pos shr_1 p mrs))%Z.
Proof.
  revert mrs. induction p as [p IH|p IH|]; intros mrs H; simpl.
  - apply IH, IH, shr_1_nonneg, H.
  - apply IH, IH, H.
  - apply shr_1_nonneg, H.
Qed.

Lemma shr_fexp_nonneg m e l :
  (0 <= m)%Z -> (0 <= shr_m (fst (shr_fexp prec emax m e l)))%Z.
Proof.
  intros H. unfold shr_fexp, shr.
  assert (0 <= shr_m (shr_record_of_loc m l))%Z as H0
    by (destruct l as [|[]]; simpl; exact H).
  destruct (fexp prec emax (Zdigits2 m + e) - e)%Z; simpl; auto.
  apply iter_shr_1_nonneg, H0.
Qed.

Lemma binary_round_aux_not_nan sx mx ex lx :
  (0 <= mx)%Z -> binary_round_aux prec emax sx mx ex lx <> S754_nan.
Proof.
  intros H. unfold binary_round_aux.
  pose proof (shr_fexp_nonneg mx ex lx H) as H1.
  destruct (shr_fexp prec emax mx ex lx) as [mrs' e']. simpl in H1.
  assert (0 <= round_nearest_even (shr_m mrs') (loc_of_shr_record mrs'))%Z as H2.
  { unfold round_nearest_even.
    destruct (loc_of_shr_record mrs') as [|[]]; try lia.
    destruct (Z.even (shr_m mrs')); lia. }
  pose proof (shr_fexp_nonneg _ e' loc_Exact H2) as H3.
  destruct (shr_fexp prec emax _ e' loc_Exact) as [mrs'' e'']. simpl in H3.
  destruct (shr_m mrs''); try lia; try discriminate.
  destruct (e'' <=? emax - prec)%Z; discriminate.
Qed.

Lemma binary_normalize_not_nan m e sz :
  binary_normalize prec emax m e sz <> S754_nan.
Proof.
  unfold binary_normalize, binary_round.
  destruct m; [discriminate| |];
    destruct (shl_align _ _ _); apply binary_round_aux_not_nan; lia.
Qed.

(** Adding or subtracting a finite float never turns a number into NaN. *)
Lemma sub_finite_not_nan x y s m e :
  Prim2SF y = S754_finite s m e -> is_nan x = false -> is_nan (x - y) = false.
Proof.
  rewrite !is_nan_false, FloatAxioms.sub_spec. intros -> Hx.
  unfold SF64sub, SFsub.
  destruct (Prim2SF x); try congruence; try discriminate.
  apply binary_normalize_not_nan.
Qed.

Lemma add_finite_not_nan x y s m e :
  Prim2SF y = S754_finite s m e -> is_nan x = false -> is_nan (x + y) = false.
Proof.
  rewrite !is_nan_false, FloatAxioms.add_spec. intros -> Hx.
  unfold SF64add, SFadd.
  destruct (Prim2SF x); try congruence; try discriminate.
  apply binary_normalize_not_nan.
Qed.

(** The three outcomes of comparing two numbers, as the tests of
    [Math.min] and [Math.max] see them. *)
Lemma float_trichotomy x y :
  is_nan x = false -> is_nan y = false ->
  ((x <? y) = true /\ (x <=? y) = true) \/
  ((x <? y) = false /\ (y <? x) = true /\ (y <=? x) = true) \/
  ((x <? y) = false /\ (y <? x) = false /\ (x <=? y) = true /\ (y <=? x) = true).
Proof.
  rewrite !is_nan_false. intros Hx Hy.
  rewrite !FloatAxioms.ltb_spec, !FloatAxioms.leb_spec. unfold SFltb, SFleb.
  destruct (SFcompare_total _ _ Hx Hy) as [c Hc].
  rewrite (SFcompare_antisym _ _ _ Hc), Hc.
  destruct c; simpl; auto 10.
Qed.

(** [Math.max(0.1, Math.min(1, q))] is within 0.1 and 1 for every number [q]. *)
Lemma client_clamp_range q :
  is_nan q = false -> Client.in_range (Client.clamp q) = true.
Proof.
  intros Hq. unfold Client.clamp, Client.in_range.
  assert (is_nan (Client.Math_min 1 q) = false /\
          (Client.Math_min 1 q <=? 1) = true) as [Hm Hle].
  { unfold Client.Math_min. rewrite Hq.
    change (is_nan 1) with false. simpl.
    destruct (float_trichotomy 1 q eq_refl Hq)
      as [(-> & _)|[(-> & -> & H)|(-> & -> & _ & H)]]; auto. }
  set (m := Client.Math_min 1 q) in *.
  unfold Client.Math_max. rewrite Hm.
  change (is_nan 0.1) with false. simpl.
  destruct (float_trichotomy 0.1 m eq_refl Hm)
    as [(-> & H)|[(-> & -> & _)|(-> & -> & _ & _)]].
  - rewrite H, Hle. reflexivity.
  - reflexivity.
  - reflexivity.
Qed.

Lemma client_in_range_not_nan q : Client.in_range q = true -> is_nan q = false.
Proof.
  unfold Client.in_range. intros H. apply andb_prop in H as [H _].
  apply (leb_not_nan _ _ H).
Qed.

End FloatFacts.

(* ================================================================== *)
(** ** The Number value for an integer *)
(* ================================================================== *)

Section Numbers.

Lemma iter_xO_pow mx k : Z.pos (Pos.iter xO mx k) = Z.pos mx * 2 ^ Z.pos k.
Proof.
  induction k as [|k IH] using Pos.peano_ind.
  - simpl. lia.
  - rewrite Pos.iter_succ, Pos2Z.inj_succ, Z.pow_succ_r by lia.
    rewrite Pos2Z.inj_xO, IH. lia.
Qed.

Lemma iter_xO_digits mx k :
  Z.pos (SpecFloat.digits2_pos (Pos.iter xO mx k))
  = Z.pos (SpecFloat.digits2_pos mx) + Z.pos k.
Proof.
  induction k as [|k IH] using Pos.peano_ind.
  - simpl. lia.
  - rewrite Pos.iter_succ. simpl SpecFloat.digits2_pos. lia.
Qed.

Lemma digits2_lower p : 2 ^ (Z.pos (SpecFloat.digits2_pos p) - 1) <= Z.pos p.
Proof.
  induction p as [p IH|p IH|]; simpl SpecFloat.digits2_pos.
  - rewrite Pos2Z.inj_succ.
    replace (Z.succ (Z.pos (SpecFloat.digits2_pos p)) - 1)
      with (Z.succ (Z.pos (SpecFloat.digits2_pos p) - 1)) by lia.
    rewrite Z.pow_succ_r by lia. lia.
  - rewrite Pos2Z.inj_succ.
    replace (Z.succ (Z.pos (SpecFloat.digits2_pos p)) - 1)
      with (Z.succ (Z.pos (SpecFloat.digits2_pos p) - 1)) by lia.
    rewrite Z.pow_succ_r by lia. lia.
  - simpl. lia.
Qed.

(** A significand of 53 bits with an exponent that needs no shift is
    the result of the rounding as it stands. *)
Lemma round_aux_exact mz ez :
  Z.pos (SpecFloat.digits2_pos mz) = 53 -> -52 <= ez <= 0 ->
  SpecFloat.binary_round_aux prec emax false (Z.pos mz) ez SpecFloat.loc_Exact
  = S754_finite false mz ez.
Proof.
  intros Hd He.
  unfold SpecFloat.binary_round_aux, SpecFloat.shr_fexp.
  simpl SpecFloat.shr_record_of_loc. simpl SpecFloat.Zdigits2. rewrite Hd.
  assert (SpecFloat.fexp prec emax (53 + ez) - ez = 0) as ->.
  { unfold SpecFloat.fexp, SpecFloat.emin, prec, emax. lia. }
  simpl SpecFloat.shr. cbv beta iota. simpl SpecFloat.round_nearest_even.
  simpl SpecFloat.shr_record_of_loc. simpl SpecFloat.Zdigits2. rewrite Hd.
  assert (SpecFloat.fexp prec emax (53 + ez) - ez = 0) as ->.
  { unfold SpecFloat.fexp, SpecFloat.emin, prec, emax. lia. }
  simpl. unfold prec, emax.
  change (1024 - 53) with 971.
  rewrite (proj2 (Z.leb_le ez 971)) by lia. reflexivity.
Qed.

(** Below 2^53 the Number value for an integer is the integer. *)
Lemma number_of_exact z : 0 <= z < 2 ^ 53 -> number_of z = JNum z.
Proof.
  intros Hz. unfold number_of, SpecFloat.binary_normalize.
  destruct z as [|mx|mx]; [reflexivity| |lia].
  unfold SpecFloat.binary_round.
  pose proof (digits2_lower mx) as Hlow.
  assert (Z.pos (SpecFloat.digits2_pos mx) <= 53) as Hd.
  { destruct (Z_le_gt_dec (Z.pos (SpecFloat.digits2_pos mx)) 53) as [|Hgt];
      [assumption|].
    assert (2 ^ 53 <= 2 ^ (Z.pos (SpecFloat.digits2_pos mx) - 1))
      by (apply Z.pow_le_mono_r; lia).
    lia. }
  assert (SpecFloat.fexp prec emax (Z.pos (SpecFloat.digits2_pos mx) + 0)
          = Z.pos (SpecFloat.digits2_pos mx) - 53) as ->.
  { unfold SpecFloat.fexp, SpecFloat.emin, prec, emax. lia. }
  unfold SpecFloat.shl_align.
  destruct (Z.pos (SpecFloat.digits2_pos mx) - 53 - 0) as [|k|k] eqn:Hk; [| lia |].
  - rewrite round_aux_exact by lia. simpl. reflexivity.
  - assert (Z.pos (SpecFloat.digits2_pos mx) - 53 = Z.neg k) as -> by lia.
    rewrite round_aux_exact.
    + f_equal. rewrite <- Z.shiftr_opp_r, Z.shiftr_div_pow2 by lia.
      rewrite iter_xO_pow. simpl Z.opp. apply Z.div_mul. lia.
    + rewrite iter_xO_digits. lia.
    + lia.
Qed.

(** The Number value for an integer is never [NaN]. *)
Lemma number_of_is_number z : is_number (number_of z) = true.
Proof.
  unfold number_of.
  pose proof (binary_normalize_not_nan z 0 false) as H.
  destruct (SpecFloat.binary_normalize prec emax z 0 false); try reflexivity.
  contradiction.
Qed.

(** Beyond 2^53 it is rounded, to the even significand of two equally
    near, and from 2^1024 - 2^970 on it is [Infinity]. *)
Example number_of_rounds :
  number_of (2 ^ 53) = JNum (2 ^ 53) /\
  number_of (2 ^ 53 + 1) = JNum (2 ^ 53) /\
  number_of (2 ^ 53 + 2) = JNum (2 ^ 53 + 2) /\
  number_of (2 ^ 53 + 3) = JNum (2 ^ 53 + 4) /\
  number_of (10 ^ 23) = JNum 99999999999999991611392 /\
  number_of (2 ^ 1024 - 2 ^ 970 - 1) = JNum (2 ^ 1024 - 2 ^ 971) /\
  number_of (2 ^ 1024 - 2 ^ 970) = JInf /\
  number_of (10 ^ 400) = JInf.
Proof. vm_compute. repeat split; reflexivity. Qed.

End Numbers.

(* ================================================================== *)
(** ** The front end's quality search *)
(* ================================================================== *)

Section ClientSearch.

Context {Canvas : Type}.
Variable canvas_toBlob : Canvas -> jsstring -> float -> option Buffer.
Variables (canvas : Canvas) (rules : Rules).

Let cond (st : Client.search_state) : bool :=
  Client.attempts st <? Client.maxAttempts.

Let body : Client.search_state -> step Client.search_state :=
  Client.attempt canvas_toBlob canvas rules.

Let toBlob (q : float) : option Buffer :=
  canvas_toBlob canvas (Client.mime_subtype (format rules)) q.

Lemma client_attempt_inv st :
  match body st with
  | Throw e => e = TypeError /\ toBlob (Client.quality st) = None
  | Break st' =>
      exists b,
        toBlob (Client.quality st) = Some b /\
        js_le (kilobytes b) (maxKb rules) && js_ge (kilobytes b) (minKb rules) = true /\
        st' = Client.mkSearch (Client.quality st) (Some b) (Client.attempts st)
  | Continue st' =>
      exists b,
        toBlob (Client.quality st) = Some b /\
        js_le (kilobytes b) (maxKb rules) && js_ge (kilobytes b) (minKb rules) = false /\
        st' = Client.mkSearch
                (Client.clamp (Client.adjust (kilobytes b) (maxKb rules) (Client.quality st)))
                (Some b) (Client.attempts st + 1)
  end.
Proof.
  unfold body, Client.attempt, toBlob.
  destruct (canvas_toBlob canvas (Client.mime_subtype (format rules))
              (Client.quality st))
    as [b|] eqn:Henc; [|auto].
  destruct (js_le (kilobytes b) (maxKb rules) && js_ge (kilobytes b) (minKb rules))
    eqn:Hwin; exists b; auto.
Qed.

Lemma client_search_bounded fuel st :
  0 <= Client.attempts st ->
  (Z.to_nat (Client.maxAttempts - Client.attempts st) <= fuel)%nat ->
  (length (fst (while_loop fuel cond body st))
     <= Z.to_nat (Client.maxAttempts - Client.attempts st))%nat /\
  snd (while_loop fuel cond body st) <> OutOfFuel.
Proof.
  intros Hge Hfuel.
  apply (while_loop_bounded cond body
           (fun s => Z.to_nat (Client.maxAttempts - Client.attempts s))); auto.
  - intros s Hc. unfold cond in Hc. apply Z.ltb_lt in Hc. lia.
  - intros s s' Hc Hb. unfold cond in Hc. apply Z.ltb_lt in Hc.
    pose proof (client_attempt_inv s) as Hinv. rewrite Hb in Hinv.
    destruct Hinv as (b & _ & _ & ->). simpl. lia.
Qed.

(** An adjusted quality is still a number. *)
Lemma client_adjust_not_nan sizeKb hi q :
  is_nan q = false -> is_nan (Client.adjust sizeKb hi q) = false.
Proof.
  intros Hq. unfold Client.adjust.
  destruct (js_gt sizeKb hi).
  - eapply sub_finite_not_nan; [reflexivity | exact Hq].
  - eapply add_finite_not_nan; [reflexivity | exact Hq].
Qed.

(** Every quality handed to the canvas is within 0.1 and 1. *)
Lemma client_search_quality fuel :
  Forall (fun st => Client.in_range (Client.quality st) = true)
    (fst (while_loop fuel cond body (Client.mkSearch 0.92%float None 0))).
Proof.
  apply while_loop_invariant; [|reflexivity].
  intros s s' Hs _ Hb.
  pose proof (client_attempt_inv s) as Hinv. rewrite Hb in Hinv.
  destruct Hinv as (b & _ & _ & ->). simpl.
  apply client_clamp_range, client_adjust_not_nan, client_in_range_not_nan, Hs.
Qed.

Lemma client_search_last fuel st :
  snd (while_loop fuel cond body (Client.mkSearch 0.92%float None 0)) = Finished st ->
  exists sl b,
    last (fst (while_loop fuel cond body (Client.mkSearch 0.92%float None 0))) = Some sl /\
    toBlob (Client.quality sl) = Some b /\
    Client.blob st = Some b.
Proof.
  intros Hfin.
  pose proof (while_loop_ends cond body fuel (Client.mkSearch 0.92%float None 0)) as Hends.
  rewrite Hfin in Hends. simpl in Hends.
  destruct Hends as [(_ & _ & Hc)|(sl & Hl & _ & Hb)]; [discriminate|].
  pose proof (client_attempt_inv sl) as Hinv.
  destruct Hb as [Hb|[Hb _]]; rewrite Hb in Hinv;
    destruct Hinv as (b & Henc & _ & ->); exists sl, b; auto.
Qed.

Lemma client_search_nonempty fuel :
  snd (while_loop fuel cond body (Client.mkSearch 0.92%float None 0)) <> OutOfFuel ->
  (1 <= length (fst (while_loop fuel cond body (Client.mkSearch 0.92%float None 0))))%nat.
Proof.
  intros Hend.
  pose proof (while_loop_ends cond body fuel (Client.mkSearch 0.92%float None 0)) as Hends.
  destruct (while_loop fuel cond body (Client.mkSearch 0.92%float None 0)) as [v e].
  simpl in *.
  destruct e as [st|x|]; simpl in Hends; [| |congruence].
  - destruct Hends as [(_ & _ & Hc)|(sl & Hl & _)]; [discriminate|].
    destruct v; [discriminate|simpl; lia].
  - destruct Hends as (sl & Hl & _). destruct v; [discriminate|simpl; lia].
Qed.

(** The attempt counter numbers the attempts. *)
Lemma client_search_count fuel i a :
  fst (while_loop fuel cond body (Client.mkSearch 0.92%float None 0)) !! i = Some a ->
  Client.attempts a = Z.of_nat i.
Proof.
  intros H.
  assert (forall s s', cond s = true -> body s = Continue s' ->
                       Client.attempts s' = Client.attempts s + 1) as Hstep.
  { intros s s' _ Hb.
    pose proof (client_attempt_inv s) as Hinv. rewrite Hb in Hinv.
    destruct Hinv as (b & _ & _ & ->). reflexivity. }
  rewrite (while_loop_count cond body Client.attempts Hstep _ _ _ _ H).
  simpl. lia.
Qed.

(** How the loop finishes: on the attempt whose blob is within the
    window, with that blob; or after the fifteenth attempt, with the
    blob of that attempt. *)
Lemma client_search_finished fuel st :
  snd (while_loop fuel cond body (Client.mkSearch 0.92%float None 0)) = Finished st ->
  exists sl b,
    last (fst (while_loop fuel cond body (Client.mkSearch 0.92%float None 0))) = Some sl /\
    toBlob (Client.quality sl) = Some b /\
    Client.blob st = Some b /\
    (if js_le (kilobytes b) (maxKb rules) && js_ge (kilobytes b) (minKb rules)
     then st = Client.mkSearch (Client.quality sl) (Some b) (Client.attempts sl)
     else length (fst (while_loop fuel cond body (Client.mkSearch 0.92%float None 0)))
          = 15%nat /\
          Client.attempts st = 15).
Proof.
  intros Hfin.
  pose proof (while_loop_ends cond body fuel (Client.mkSearch 0.92%float None 0)) as Hends.
  pose proof (client_search_count fuel) as Hcount.
  destruct (while_loop fuel cond body (Client.mkSearch 0.92%float None 0)) as [v e].
  simpl in *. subst e. simpl in Hends.
  destruct Hends as [(_ & _ & Hc)|(sl & Hl & Hcl & Hb)]; [discriminate|].
  pose proof (last_is_lookup _ _ Hl) as [Hlk Hpos].
  pose proof (Hcount _ _ Hlk) as Hn.
  pose proof (client_attempt_inv sl) as Hinv.
  destruct Hb as [Hb|[Hb Hcst]]; rewrite Hb in Hinv;
    destruct Hinv as (b & Henc & Hwin & ->);
    exists sl, b; rewrite Hwin; simpl; repeat split; auto;
    unfold cond in Hcl, Hcst; simpl in Hcst; unfold Client.maxAttempts in *;
    apply Z.ltb_lt in Hcl; apply Z.ltb_ge in Hcst; lia.
Qed.

(** How the loop raises: in its last attempt, on a blob that is [null]. *)
Lemma client_search_raised fuel e :
  snd (while_loop fuel cond body (Client.mkSearch 0.92%float None 0)) = Raised e ->
  exists sl,
    last (fst (while_loop fuel cond body (Client.mkSearch 0.92%float None 0))) = Some sl /\
    e = TypeError /\ toBlob (Client.quality sl) = None.
Proof.
  intros Hr.
  pose proof (while_loop_ends cond body fuel (Client.mkSearch 0.92%float None 0)) as Hends.
  rewrite Hr in Hends. simpl in Hends.
  destruct Hends as (sl & Hl & _ & Hb).
  pose proof (client_attempt_inv sl) as Hinv. rewrite Hb in Hinv.
  exists sl. split; [exact Hl | exact Hinv].
Qed.

(** With a canvas that makes a blob at every quality of the scale, the
    loop finishes. *)
Lemma client_search_finishes fuel :
  (15 <= fuel)%nat ->
  (forall q, Client.in_range q = true -> is_Some (toBlob q)) ->
  exists st,
    snd (while_loop fuel cond body (Client.mkSearch 0.92%float None 0)) = Finished st.
Proof.
  intros Hfuel Henc.
  destruct (client_search_bounded fuel (Client.mkSearch 0.92%float None 0)) as [_ Hend];
    [simpl; lia | simpl; unfold Client.maxAttempts; lia |].
  pose proof (client_search_raised fuel) as Hraised.
  pose proof (client_search_quality fuel) as Hq.
  destruct (snd (while_loop fuel cond body (Client.mkSearch 0.92%float None 0)))
    as [st|e|]; [eauto| |congruence].
  destruct (Hraised e eq_refl) as (sl & Hl & _ & Hnone).
  rewrite Forall_forall in Hq.
  pose proof (Hq sl (proj2 (list_elem_of_In _ _) (last_In _ _ Hl))) as Hrange.
  destruct (Henc _ Hrange) as [out Hout]. congruence.
Qed.

End ClientSearch.

(* ================================================================== *)
(** ** Termination, budget and the buffer returned *)
(* ================================================================== *)

(** C1.  The quality search ends in both implementations, whatever the
    image pipeline returns and whatever the rules are (a window that no
    encoding can reach, an inverted window, bounds that are not
    numbers): with fuel for 20 runs of the body the back end's loop has
    ended, after at least one and at most 20 encoding attempts, and more
    fuel changes nothing; the same holds for the front end with 15.
    The loop ends by returning whenever the encoder makes a buffer at
    every quality of the scale (and, in the back end, the uploaded file
    is in place); it raises only when an encoding fails, or the file is
    missing, in the last attempt made.  When it returns, the buffer it
    leaves in [output] (in [blob]), the one that is returned, is the
    buffer encoded in the last attempt: either that buffer is within
    the window and the loop stopped there, or it is outside the window
    and all 20 (15) attempts were made.  So for an image of which no
    encoding fits, the loop makes exactly 20 (15) attempts and returns
    the last buffer, outside the window. *)
Theorem C1_search_ends_within_budget :
  forall (Raster : Type)
    (sharp_resize : Buffer -> jsnum -> jsnum -> option Raster)
    (sharp_toBuffer : Raster -> jsstring -> Z -> option Buffer)
    (fs : Server.FS) (inputPath : string) (w h lo hi : jsnum)
    (fmt : option jsstring)
    (Canvas : Type) (canvas_toBlob : Canvas -> jsstring -> float -> option Buffer)
    (canvas : Canvas) (rules : Rules) (fuel_s fuel_c : nat),
    (20 <= fuel_s)%nat -> (15 <= fuel_c)%nat ->
    let server fuel :=
      Server.processImage sharp_resize sharp_toBuffer fuel fs inputPath w h lo hi fmt in
    let encode input q :=
      Server.sharp_pipeline sharp_resize sharp_toBuffer input w h
        (Server.method_name (default (js "jpeg") fmt)) q in
    let fits out := js_le (kilobytes out) hi && js_ge (kilobytes out) lo in
    let client fuel := Client.quality_search canvas_toBlob fuel canvas rules in
    let toBlob q := canvas_toBlob canvas (Client.mime_subtype (format rules)) q in
    let fits_c b :=
      js_le (kilobytes b) (maxKb rules) && js_ge (kilobytes b) (minKb rules) in
    (snd (server fuel_s) <> OutOfFuel /\
     server fuel_s = server 20%nat /\
     (1 <= length (fst (server fuel_s)) <= 20)%nat /\
     (forall st, snd (server fuel_s) = Finished st ->
        exists sl input out,
          last (fst (server fuel_s)) = Some sl /\
          fs !! inputPath = Some input /\
          encode input (Server.quality sl) = Some out /\
          Server.output st = Some out /\
          (if fits out
           then st = Server.mkSearch (Server.quality sl) (Some out) (Server.attempts sl)
           else length (fst (server fuel_s)) = 20%nat /\ Server.attempts st = 20)) /\
     (forall e, snd (server fuel_s) = Raised e ->
        exists sl,
          last (fst (server fuel_s)) = Some sl /\
          ((fs !! inputPath = None /\ e = ENOENT) \/
           (exists input, fs !! inputPath = Some input /\ e = EncoderError /\
              encode input (Server.quality sl) = None))) /\
     (forall input,
        fs !! inputPath = Some input ->
        (forall q, 10 <= q <= 100 -> is_Some (encode input q)) ->
        exists st out,
          snd (server fuel_s) = Finished st /\ Server.output st = Some out) /\
     (forall input,
        fs !! inputPath = Some input ->
        (forall q, 10 <= q <= 100 ->
           exists out, encode input q = Some out /\ fits out = false) ->
        length (fst (server fuel_s)) = 20%nat /\
        exists st sl out,
          snd (server fuel_s) = Finished st /\
          last (fst (server fuel_s)) = Some sl /\
          encode input (Server.quality sl) = Some out /\
          Server.output st = Some out /\ fits out = false)) /\
    (snd (client fuel_c) <> OutOfFuel /\
     client fuel_c = client 15%nat /\
     (1 <= length (fst (client fuel_c)) <= 15)%nat /\
     (forall st, snd (client fuel_c) = Finished st ->
        exists sl b,
          last (fst (client fuel_c)) = Some sl /\
          toBlob (Client.quality sl) = Some b /\
          Client.blob st = Some b /\
          (if fits_c b
           then st = Client.mkSearch (Client.quality sl) (Some b) (Client.attempts sl)
           else length (fst (client fuel_c)) = 15%nat /\ Client.attempts st = 15)) /\
     (forall e, snd (client fuel_c) = Raised e ->
        exists sl,
          last (fst (client fuel_c)) = Some sl /\
          e = TypeError /\ toBlob (Client.quality sl) = None) /\
     ((forall q, Client.in_range q = true -> is_Some (toBlob q)) ->
      exists st b, snd (client fuel_c) = Finished st /\ Client.blob st = Some b) /\
     ((forall q, Client.in_range q = true ->
         exists b, toBlob q = Some b /\ fits_c b = false) ->
      length (fst (client fuel_c)) = 15%nat /\
      exists st sl b,
        snd (client fuel_c) = Finished st /\
        last (fst (client fuel_c)) = Some sl /\
        toBlob (Client.quality sl) = Some b /\
        Client.blob st = Some b /\ fits_c b = false)).
Proof.
  intros Raster sharp_resize sharp_toBuffer fs inputPath w h lo hi fmt
    Canvas canvas_toBlob canvas rules fuel_s fuel_c Hs Hc
    server encode fits client toBlob fits_c.
  split.
  - assert (forall fuel, (20 <= fuel)%nat ->
              (length (fst (server fuel)) <= 20)%nat /\ snd (server fuel) <> OutOfFuel)
      as Hb.
    { intros fuel Hf. unfold server, Server.processImage.
      apply (server_search_bounded sharp_resize sharp_toBuffer fs inputPath
               w h lo hi (default (js "jpeg") fmt) fuel (Server.mkSearch 92 None 0));
        simpl; [lia|]. unfold Server.maxAttempts. lia. }
    destruct (Hb fuel_s Hs) as [Hlen Hend].
    destruct (Hb 20%nat (le_n _)) as [_ Hend20].
    pose proof (server_search_finished sharp_resize sharp_toBuffer fs inputPath
                  w h lo hi (default (js "jpeg") fmt) fuel_s) as Hfinished.
    pose proof (server_search_finishes sharp_resize sharp_toBuffer fs inputPath
                  w h lo hi (default (js "jpeg") fmt) fuel_s) as Hfinishes.
    split; [exact Hend|]. split.
    { unfold server, Server.processImage.
      apply while_loop_fuel_irrelevant; [exact Hend20 | exact Hs]. }
    split.
    { split; [|exact Hlen].
      unfold server, Server.processImage.
      apply server_search_nonempty. exact Hend. }
    split; [exact Hfinished|].
    split.
    { apply (server_search_raised sharp_resize sharp_toBuffer fs inputPath
               w h lo hi (default (js "jpeg") fmt) fuel_s). }
    split.
    { intros input Hin Henc.
      destruct (Hfinishes input Hs Hin Henc) as (st & Hst).
      destruct (Hfinished st Hst) as (sl & input' & out & _ & _ & _ & Hout & _).
      exists st, out. split; [exact Hst | exact Hout]. }
    intros input Hin Hnever.
    assert (forall q, 10 <= q <= 100 -> is_Some (encode input q)) as Henc.
    { intros q Hq. destruct (Hnever q Hq) as (out & -> & _). eauto. }
    destruct (Hfinishes input Hs Hin Henc) as (st & Hst).
    destruct (Hfinished st Hst) as (sl & input' & out & Hl & Hin' & Hout & Ho & Hcase).
    assert (input' = input) as -> by congruence.
    assert (10 <= Server.quality sl <= 100) as Hq.
    { pose proof (server_search_quality sharp_resize sharp_toBuffer fs inputPath
                    w h lo hi (default (js "jpeg") fmt) fuel_s) as HQ.
      rewrite Forall_forall in HQ.
      apply HQ, list_elem_of_In, last_In, Hl. }
    destruct (Hnever _ Hq) as (out' & Hout' & Hmiss).
    assert (out' = out) as -> by (unfold encode in Hout'; congruence).
    unfold fits in Hmiss. rewrite Hmiss in Hcase.
    split; [exact (proj1 Hcase)|].
    exists st, sl, out. repeat split; assumption.
  - assert (forall fuel, (15 <= fuel)%nat ->
              (length (fst (client fuel)) <= 15)%nat /\ snd (client fuel) <> OutOfFuel)
      as Hb.
    { intros fuel Hf. unfold client, Client.quality_search.
      apply (client_search_bounded canvas_toBlob canvas rules fuel
               (Client.mkSearch 0.92%float None 0));
        simpl; [lia|]. unfold Client.maxAttempts. lia. }
    destruct (Hb fuel_c Hc) as [Hlen Hend].
    destruct (Hb 15%nat (le_n _)) as [_ Hend15].
    pose proof (client_search_finished canvas_toBlob canvas rules fuel_c) as Hfinished.
    pose proof (client_search_finishes canvas_toBlob canvas rules fuel_c) as Hfinishes.
    split; [exact Hend|]. split.
    { unfold client, Client.quality_search.
      apply while_loop_fuel_irrelevant; [exact Hend15 | exact Hc]. }
    split.
    { split; [|exact Hlen].
      unfold client, Client.quality_search.
      apply client_search_nonempty. exact Hend. }
    split; [exact Hfinished|].
    split; [apply (client_search_raised canvas_toBlob canvas rules fuel_c)|].
    split.
    { intros Henc.
      destruct (Hfinishes Hc Henc) as (st & Hst).
      destruct (Hfinished st Hst) as (sl & b & _ & _ & Hblob & _).
      exists st, b. split; [exact Hst | exact Hblob]. }
    intros Hnever.
    assert (forall q, Client.in_range q = true -> is_Some (toBlob q)) as Henc.
    { intros q Hq. destruct (Hnever q Hq) as (b & -> & _). eauto. }
    destruct (Hfinishes Hc Henc) as (st & Hst).
    destruct (Hfinished st Hst) as (sl & b & Hl & Hb' & Hblob & Hcase).
    assert (Client.in_range (Client.quality sl) = true) as Hq.
    { pose proof (client_search_quality canvas_toBlob canvas rules fuel_c) as HQ.
      rewrite Forall_forall in HQ.
      apply HQ, list_elem_of_In, last_In, Hl. }
    destruct (Hnever _ Hq) as (b' & Hb'' & Hmiss).
    assert (b' = b) as -> by (unfold toBlob in Hb''; congruence).
    unfold fits_c in Hmiss. rewrite Hmiss in Hcase.
    split; [exact (proj1 Hcase)|].
    exists st, sl, b. repeat split; assumption.
Qed.

(** The theorem at an image that never fits: every encoding has 3000
    bytes and the window ends at 1 KB.  The back end makes 20 attempts
    and the front end 15, and each returns the buffer of 3000 bytes. *)
Lemma C1_never_fitting_image :
  (length (fst (Server.processImage Examples.flat_resize (Examples.flat_toBuffer 3000) 20
                  Examples.uploads Examples.upload_path
                  (JNum 140) (JNum 60) (JNum 0) (JNum 1) (Some (js "jpg")))) = 20%nat /\
   exists st,
     snd (Server.processImage Examples.flat_resize (Examples.flat_toBuffer 3000) 20
            Examples.uploads Examples.upload_path
            (JNum 140) (JNum 60) (JNum 0) (JNum 1) (Some (js "jpg"))) = Finished st /\
     Server.output st = Some (Examples.blank 3000)) /\
  (length (fst (Client.quality_search (Examples.flat_toBlob 3000) 15 tt
                  (rules_lit 140 60 0 1 "jpg"))) = 15%nat /\
   exists st,
     snd (Client.quality_search (Examples.flat_toBlob 3000) 15 tt
            (rules_lit 140 60 0 1 "jpg")) = Finished st /\
     Client.blob st = Some (Examples.blank 3000)) /\
  js_le (kilobytes (Examples.blank 3000)) (JNum 1) = false.
Proof.
  pose proof (C1_search_ends_within_budget unit
                Examples.flat_resize (Examples.flat_toBuffer 3000)
                Examples.uploads Examples.upload_path
                (JNum 140) (JNum 60) (JNum 0) (JNum 1) (Some (js "jpg"))
                unit (Examples.flat_toBlob 3000) tt (rules_lit 140 60 0 1 "jpg")
                20%nat 15%nat (le_n 20) (le_n 15)) as [Hs Hc].
  cbv zeta in Hs, Hc.
  destruct Hs as (_ & _ & _ & _ & _ & _ & Hs).
  destruct Hc as (_ & _ & _ & _ & _ & _ & Hc).
  assert (js_le (kilobytes (Examples.blank 3000)) (JNum 1) = false) as Hbig
    by (vm_compute; reflexivity).
  split; [|split; [|exact Hbig]].
  - destruct (Hs (Examples.blank 64)) as (Hlen & st & sl & out & Hst & _ & Henc & Hout & _).
    + reflexivity.
    + intros q _. exists (Examples.blank 3000). split; [reflexivity|].
      rewrite Hbig. reflexivity.
    + split; [exact Hlen|]. exists st. split; [exact Hst|].
      rewrite Hout. rewrite <- Henc. reflexivity.
  - destruct Hc as (Hlen & st & sl & b & Hst & _ & Henc & Hblob & _).
    + intros q _. exists (Examples.blank 3000). split; [reflexivity|].
      simpl maxKb. rewrite Hbig. reflexivity.
    + split; [exact Hlen|]. exists st. split; [exact Hst|].
      rewrite Hblob. rewrite <- Henc. reflexivity.
Defined.

(** What that search returns: the loop ran out of attempts, and the
    buffer kept is outside the window. *)
Example never_fitting_image_result :
  let run := Server.processImage Examples.flat_resize (Examples.flat_toBuffer 3000) 20
               Examples.uploads Examples.upload_path
               (JNum 140) (JNum 60) (JNum 0) (JNum 1) (Some (js "jpg")) in
  length (fst run) = 20%nat /\
  snd run = Finished (Server.mkSearch 10 (Some (Examples.blank 3000)) 20) /\
  js_le (kilobytes (Examples.blank 3000)) (JNum 1) = false.
Proof. vm_compute. auto. Qed.

(* ================================================================== *)
(** ** The quality stays on its scale *)
(* ================================================================== *)

(** C4.  In both implementations every quality handed to the encoder,
    in every attempt of every search, lies within the bounds the clamp
    enforces: 10 and 100 in the back end, 0.1 and 1 in the front end.
    This holds for every image pipeline and all rules, a window ending
    at 0 included, because the clamp applied after each adjustment puts
    any value back within the bounds. *)
Theorem C4_quality_never_leaves_the_scale :
  forall (Raster : Type)
    (sharp_resize : Buffer -> jsnum -> jsnum -> option Raster)
    (sharp_toBuffer : Raster -> jsstring -> Z -> option Buffer)
    (fs : Server.FS) (inputPath : string) (w h lo hi : jsnum)
    (fmt : option jsstring)
    (Canvas : Type) (canvas_toBlob : Canvas -> jsstring -> float -> option Buffer)
    (canvas : Canvas) (rules : Rules) (fuel_s fuel_c : nat),
    Forall (fun st => 10 <= Server.quality st <= 100)
      (fst (Server.processImage sharp_resize sharp_toBuffer fuel_s fs inputPath
              w h lo hi fmt)) /\
    Forall (fun st => Client.in_range (Client.quality st) = true)
      (fst (Client.quality_search canvas_toBlob fuel_c canvas rules)) /\
    (forall q sizeKb, 10 <= Server.clamp (Server.adjust sizeKb lo hi q) <= 100) /\
    (forall q sizeKb, Client.in_range q = true ->
       Client.in_range (Client.clamp (Client.adjust sizeKb (maxKb rules) q)) = true).
Proof.
  intros. split; [|split; [|split]].
  - apply server_search_quality.
  - apply client_search_quality.
  - intros. apply server_clamp_range.
  - intros q sizeKb Hq.
    apply client_clamp_range, client_adjust_not_nan, client_in_range_not_nan, Hq.
Qed.

(** The theorem at a window that ends at 0 KB. *)
Lemma C4_window_ending_at_zero :
  Forall (fun st => 10 <= Server.quality st <= 100)
    (fst (Server.processImage Examples.flat_resize (Examples.flat_toBuffer 3000) 20
            Examples.uploads Examples.upload_path
            (JNum 140) (JNum 60) (JNum 0) (JNum 0) (Some (js "jpg")))) /\
  Client.in_range
    (Client.clamp (Client.adjust (3000 # 1024) (JNum 0) 0.1%float)) = true.
Proof.
  pose proof (C4_quality_never_leaves_the_scale unit
                Examples.flat_resize (Examples.flat_toBuffer 3000)
                Examples.uploads Examples.upload_path
                (JNum 140) (JNum 60) (JNum 0) (JNum 0) (Some (js "jpg"))
                unit Examples.cliff_toBlob tt (rules_lit 140 60 0 0 "jpg")
                20%nat 15%nat) as (Hs & _ & _ & Hc).
  split; [exact Hs | apply Hc; reflexivity].
Defined.

(** The qualities tried against a window that ends at 0 KB: down by 5
    to 12, then held at 10 by the clamp; the front end's 15 qualities are
    all within 0.1 and 1. *)
Example qualities_tried_for_empty_window :
  map Server.quality
    (fst (Server.processImage Examples.flat_resize (Examples.flat_toBuffer 3000) 20
            Examples.uploads Examples.upload_path
            (JNum 140) (JNum 60) (JNum 0) (JNum 0) (Some (js "jpg"))))
  = [92; 87; 82; 77; 72; 67; 62; 57; 52; 47; 42; 37; 32; 27; 22; 17; 12; 10; 10; 10] /\
  map (fun st => Client.in_range (Client.quality st))
    (fst (Client.quality_search Examples.cliff_toBlob 15 tt (rules_lit 140 60 0 0 "jpg")))
  = repeat true 15.
Proof. vm_compute. auto. Qed.

(* ================================================================== *)
(** ** The two steps *)
(* ================================================================== *)

Lemma js_gt_not_le x b : js_gt x b = true -> js_le x b = false.
Proof. destruct b; simpl; try discriminate. destruct (Qle_bool x (inject_Z z)); auto. Qed.

Lemma js_lt_not_ge x b : js_lt x b = true -> js_ge x b = false.
Proof.
  destruct b; simpl; try discriminate; [|reflexivity].
  destruct (Qle_bool (inject_Z z) x); auto.
Qed.

(** C5, as the code has it.  In an attempt whose encoding is above
    [maxKb] the quality goes down by 5 in the back end and by 0.05 in
    the front end, 5% of either scale.  In an attempt whose encoding is
    not above [maxKb] and is below [minKb] it goes up by 3 in the back
    end, 3% of its scale, and by 0.02 in the front end, 2% of its scale.
    Either way the result is clamped and the attempt counted. *)
Theorem C5_steps_down_and_up :
  forall (Raster : Type)
    (sharp_resize : Buffer -> jsnum -> jsnum -> option Raster)
    (sharp_toBuffer : Raster -> jsstring -> Z -> option Buffer)
    (fs : Server.FS) (inputPath : string) (w h lo hi : jsnum) (fmt : jsstring)
    (st : Server.search_state) (input out : Buffer)
    (Canvas : Type) (canvas_toBlob : Canvas -> jsstring -> float -> option Buffer)
    (canvas : Canvas) (rules : Rules) (cst : Client.search_state) (b : Buffer),
    fs !! inputPath = Some input ->
    Server.sharp_pipeline sharp_resize sharp_toBuffer input w h
      (Server.method_name fmt) (Server.quality st) = Some out ->
    canvas_toBlob canvas (Client.mime_subtype (format rules)) (Client.quality cst) = Some b ->
    (js_gt (kilobytes out) hi = true ->
       Server.attempt sharp_resize sharp_toBuffer fs inputPath w h lo hi fmt st
       = Continue (Server.mkSearch (Server.clamp (Server.quality st - 5))
                     (Some out) (Server.attempts st + 1))) /\
    (js_gt (kilobytes out) hi = false -> js_lt (kilobytes out) lo = true ->
       Server.attempt sharp_resize sharp_toBuffer fs inputPath w h lo hi fmt st
       = Continue (Server.mkSearch (Server.clamp (Server.quality st + 3))
                     (Some out) (Server.attempts st + 1))) /\
    (js_gt (kilobytes b) (maxKb rules) = true ->
       Client.attempt canvas_toBlob canvas rules cst
       = Continue (Client.mkSearch (Client.clamp (Client.quality cst - 0.05)%float)
                     (Some b) (Client.attempts cst + 1))) /\
    (js_gt (kilobytes b) (maxKb rules) = false ->
     js_lt (kilobytes b) (minKb rules) = true ->
       Client.attempt canvas_toBlob canvas rules cst
       = Continue (Client.mkSearch (Client.clamp (Client.quality cst + 0.02)%float)
                     (Some b) (Client.attempts cst + 1))).
Proof.
  intros Raster sharp_resize sharp_toBuffer fs inputPath w h lo hi fmt st input out
    Canvas canvas_toBlob canvas rules cst b Hin Henc Hblob.
  unfold Server.attempt, Client.attempt. rewrite Hin, Henc, Hblob.
  unfold Server.adjust, Client.adjust.
  repeat split.
  - intros Hgt. rewrite (js_gt_not_le _ _ Hgt), Hgt. reflexivity.
  - intros Hgt Hlt. rewrite (js_lt_not_ge _ _ Hlt), Hgt, Hlt, andb_false_r. reflexivity.
  - intros Hgt. rewrite (js_gt_not_le _ _ Hgt), Hgt. reflexivity.
  - intros Hgt Hlt. rewrite (js_lt_not_ge _ _ Hlt), Hgt, andb_false_r. reflexivity.
Qed.

(** The theorem at a first attempt that encodes to 3000 bytes for the
    window from 10 to 20 KB: the back end goes from 92 to 95, the front
    end from 0.92 to 0.92 + 0.02. *)
Lemma C5_first_attempt_below_window :
  Server.attempt Examples.flat_resize (Examples.flat_toBuffer 3000)
    Examples.uploads Examples.upload_path (JNum 140) (JNum 60) (JNum 10) (JNum 20)
    (js "jpg") (Server.mkSearch 92 None 0)
  = Continue (Server.mkSearch 95 (Some (Examples.blank 3000)) 1) /\
  Client.attempt Examples.cliff_toBlob tt (rules_lit 140 60 10 20 "jpg")
    (Client.mkSearch 0.92%float None 0)
  = Continue (Client.mkSearch (Client.clamp (0.92 + 0.02)%float)
                (Some (Examples.blank 3000)) 1).
Proof.
  pose proof (C5_steps_down_and_up unit
                Examples.flat_resize (Examples.flat_toBuffer 3000)
                Examples.uploads Examples.upload_path
                (JNum 140) (JNum 60) (JNum 10) (JNum 20) (js "jpg")
                (Server.mkSearch 92 None 0) (Examples.blank 64) (Examples.blank 3000)
                unit Examples.cliff_toBlob tt (rules_lit 140 60 10 20 "jpg")
                (Client.mkSearch 0.92%float None 0) (Examples.blank 3000)
                eq_refl eq_refl eq_refl) as (_ & Hup & _ & Hcup).
  split; [apply Hup; reflexivity | apply Hcup; reflexivity].
Defined.

(** C5 as stated fails in the front end: below the window its quality
    goes up by 0.02, which is not 3% of its scale.  From 0.92 the next
    quality is 0.92 + 0.02; it is below 0.92 + 0.03, and the clamp is not
    what holds it there. *)
Lemma C5_client_step_up_is_not_three_percent :
  js_lt (kilobytes (Examples.blank 3000)) (JNum 10) = true /\
  Client.attempt Examples.cliff_toBlob tt (rules_lit 140 60 10 20 "jpg")
    (Client.mkSearch 0.92%float None 0)
  = Continue (Client.mkSearch (0.92 + 0.02)%float (Some (Examples.blank 3000)) 1) /\
  (0.92 + 0.02 <? 0.92 + 0.03)%float = true /\
  (0.92 + 0.03 <? 1)%float = true.
Proof. vm_compute. auto. Qed.

(* ================================================================== *)
(** ** The request handler *)
(* ================================================================== *)

Section Handler.

Context {Raster : Type}.
Variable sharp_resize : Buffer -> jsnum -> jsnum -> option Raster.
Variable sharp_toBuffer : Raster -> jsstring -> Z -> option Buffer.
Variable sharp_metadata : Buffer -> option (Z * Z).

Let handle := Server.handle sharp_resize sharp_toBuffer sharp_metadata.
Let try_block := Server.try_block sharp_resize sharp_toBuffer sharp_metadata.
Let processImage := Server.processImage sharp_resize sharp_toBuffer.

(** What a successful run of the [try] block went through. *)
Lemma try_block_ok fuel req fs resp fs' :
  try_block fuel req fs = Server.Ok resp fs' ->
  (Server.file req = None /\ resp = Server.BadRequest /\ fs' = fs) \/
  (exists path rules st buf meta fmt input,
     Server.file req = Some path /\
     Server.derive_rules req = Some rules /\
     snd (processImage fuel fs path (width rules) (height rules)
            (minKb rules) (maxKb rules) (format rules)) = Finished st /\
     Server.output st = Some buf /\
     sharp_metadata buf = Some meta /\
     fs !! path = Some input /\
     fs' = delete path fs /\
     format rules = Some fmt /\
     resp = Server.Processed
              {| Server.res_width := fst meta;
                 Server.res_height := snd meta;
                 Server.fileSizeKb := parseFloat2 (toFixed2 (kilobytes buf));
                 Server.res_format := toUpperCase fmt;
                 Server.valid :=
                   js_le (parseFloat2 (toFixed2 (kilobytes buf))) (maxKb rules)
                   && js_ge (parseFloat2 (toFixed2 (kilobytes buf))) (minKb rules);
                 Server.image_mime := Server.method_name fmt;
                 Server.image_bytes := buf |}).
Proof.
  unfold try_block, Server.try_block.
  destruct (Server.file req) as [path|] eqn:Hfile.
  2:{ unfold Server.ret. intros [= <- <-]. left. auto. }
  unfold Server.bind, Server.expect, Server.ret, Server.throw,
    Server.await_processImage, Server.unlink.
  destruct (Server.derive_rules req) as [rules|] eqn:Hrules; [|discriminate].
  fold processImage.
  destruct (processImage fuel fs path (width rules) (height rules)
              (minKb rules) (maxKb rules) (format rules)) as [v [st|e|]] eqn:Hrun;
    try discriminate.
  destruct (Server.output st) as [buf|] eqn:Hout; [|discriminate].
  destruct (sharp_metadata buf) as [meta|] eqn:Hmeta; [|discriminate].
  destruct (fs !! path) as [input|] eqn:Hin; [|discriminate].
  destruct (format rules) as [fmt|] eqn:Hfmt; [|discriminate].
  intros [= <- <-]. right.
  exists path, rules, st, buf, meta, fmt, input.
  rewrite Hfmt. repeat split; auto. rewrite Hrun. reflexivity.
Qed.

(** Where the [try] block throws, the upload directory is as it was, or
    is already without the upload. *)
Lemma try_block_err fuel req fs e fs' :
  try_block fuel req fs = Server.Err e fs' ->
  exists path, Server.file req = Some path /\ (fs' = fs \/ fs' = delete path fs).
Proof.
  unfold try_block, Server.try_block.
  destruct (Server.file req) as [path|] eqn:Hfile; [|discriminate].
  unfold Server.bind, Server.expect, Server.ret, Server.throw,
    Server.await_processImage, Server.unlink.
  intros H. exists path. split; [reflexivity|].
  destruct (Server.derive_rules req) as [rules|]; [|injection H as <- <-; auto].
  destruct (Server.processImage sharp_resize sharp_toBuffer fuel fs path
              (width rules) (height rules) (minKb rules) (maxKb rules) (format rules))
    as [v [st|x|]]; [| injection H as <- <-; auto | discriminate].
  destruct (Server.output st) as [buf|]; [|injection H as <- <-; auto].
  destruct (sharp_metadata buf) as [meta|]; [|injection H as <- <-; auto].
  destruct (fs !! path) as [input|]; [|injection H as <- <-; auto].
  destruct (format rules) as [fmt|]; [discriminate|injection H as <- <-; auto].
Qed.

(** With fuel for the 20 attempts the handler answers. *)
Lemma handle_answers fuel req fs :
  (20 <= fuel)%nat -> exists resp fs', handle fuel req fs = Some (resp, fs').
Proof.
  intros Hfuel. unfold handle, Server.handle, Server.try_block.
  destruct (Server.file req) as [path|]; [|unfold Server.ret; eauto].
  unfold Server.bind, Server.expect, Server.ret, Server.throw,
    Server.await_processImage, Server.unlink.
  destruct (Server.derive_rules req) as [rules|];
    [|destruct (Server.catch_block _ _ _); eauto].
  assert (snd (Server.processImage sharp_resize sharp_toBuffer fuel fs path
                 (width rules) (height rules) (minKb rules) (maxKb rules)
                 (format rules)) <> OutOfFuel) as Hend.
  { apply server_search_bounded; simpl; [lia|]. unfold Server.maxAttempts. lia. }
  destruct (Server.processImage sharp_resize sharp_toBuffer fuel fs path
              (width rules) (height rules) (minKb rules) (maxKb rules) (format rules))
    as [v [st|x|]]; simpl in Hend; [| |congruence].
  - destruct (Server.output st) as [buf|];
      [|destruct (Server.catch_block _ _ _); eauto].
    destruct (sharp_metadata buf) as [meta|];
      [|destruct (Server.catch_block _ _ _); eauto].
    destruct (fs !! path) as [input|];
      [|destruct (Server.catch_block _ _ _); eauto].
    destruct (format rules) as [fmt|];
      [eauto | destruct (Server.catch_block _ _ _); eauto].
  - destruct (Server.catch_block _ _ _); eauto.
Qed.

End Handler.

(* ================================================================== *)
(** ** The rule parsers *)
(* ================================================================== *)

Section Parsers.
Import Regex.

(** What a group [(\d+)] captured starts with a digit. *)
Lemma capture_digits (r : regex) (n : nat) :
  capturing n r = Some Patterns.digits ->
  forall text m, str_match true r text = Some m ->
    exists c v, group n m = Some (c :: v) /\ Char.is_digit c = true.
Proof.
  intros Hcap text m Hm.
  destruct (exec_from_reaches true r _ _ _ Hm) as (s & s' & Hr & Hc).
  destruct (capturing_sound true n r _ _ _ Hcap Hr) as (s1 & s2 & Hd & Hl).
  destruct (reaches_digits true _ _ Hd) as (c & v & Hv & Hdig).
  exists c, v. unfold group. rewrite Hc, Hl, Hv. auto.
Qed.

(** A capture of [(\d+)] parses to a number, never to NaN. *)
Lemma parseInt_capture (r : regex) (n : nat) :
  capturing n r = Some Patterns.digits ->
  forall text m, str_match true r text = Some m ->
    is_number (parseInt (group n m)) = true.
Proof.
  intros Hcap text m Hm.
  destruct (exec_from_reaches true r _ _ _ Hm) as (s & s' & Hr & Hc).
  destruct (capturing_sound true n r _ _ _ Hcap Hr) as (s1 & s2 & Hd & Hl).
  destruct (reaches_digits true _ _ Hd) as (c & v & Hv & Hdig).
  unfold group. rewrite Hc, Hl, Hv. unfold parseInt. rewrite Hdig.
  apply number_of_is_number.
Qed.

Lemma widthMatch_numbers text m :
  widthMatch text = Some m ->
  is_number (parseInt (group 1 m)) = true /\ is_number (parseInt (group 2 m)) = true.
Proof.
  unfold widthMatch, or_else. intros H.
  destruct (str_match true Patterns.dims_x text) as [m1|] eqn:H1.
  - injection H as <-.
    split; [apply (parseInt_capture Patterns.dims_x 1 eq_refl _ _ H1)
           |apply (parseInt_capture Patterns.dims_x 2 eq_refl _ _ H1)].
  - split; [apply (parseInt_capture Patterns.dims_named 1 eq_refl _ _ H)
           |apply (parseInt_capture Patterns.dims_named 2 eq_refl _ _ H)].
Qed.

Lemma sizeMatch_numbers dash text m :
  sizeMatch dash text = Some m ->
  is_number (parseInt (group 1 m)) = true /\ is_number (parseInt (group 2 m)) = true.
Proof.
  unfold sizeMatch, or_else. intros H.
  destruct (str_match true (Patterns.size_range dash) text) as [m1|] eqn:H1.
  - injection H as <-.
    split; [apply (parseInt_capture (Patterns.size_range dash) 1 eq_refl _ _ H1)
           |apply (parseInt_capture (Patterns.size_range dash) 2 eq_refl _ _ H1)].
  - split; [apply (parseInt_capture Patterns.size_named 1 eq_refl _ _ H)
           |apply (parseInt_capture Patterns.size_named 2 eq_refl _ _ H)].
Qed.

Lemma formatMatch_string text m :
  formatMatch text = Some m -> exists f, group 1 m = Some f.
Proof.
  unfold formatMatch. intros Hm.
  destruct (exec_from_reaches true _ _ _ _ Hm) as (s & s' & Hr & Hc).
  destruct (capturing_sound true 1 Patterns.format_word _ _ _ eq_refl Hr)
    as (s1 & s2 & _ & Hl).
  unfold group. rewrite Hc, Hl. eauto.
Qed.

(** Which characters a letter of a pattern matches when case is ignored. *)
Lemma canonicalize_upper c u :
  (65 <= u <= 90)%N -> Char.canonicalize c = u -> c = u \/ c = (u + 32)%N.
Proof.
  unfold Char.canonicalize, Char.is_lower. intros Hu.
  destruct (97 <=? c)%N eqn:H1; destruct (c <=? 122)%N eqn:H2; simpl;
    try (destruct ((224 <=? c)%N && (c <=? 254)%N && negb (c =? 247)%N) eqn:H3;
         [apply andb_prop in H3 as [H3 _]; apply andb_prop in H3 as [H3 H4];
          apply N.leb_le in H3|]);
    try apply N.leb_le in H1; try apply N.leb_gt in H1;
    try apply N.leb_le in H2; try apply N.leb_gt in H2; lia.
Qed.

(** A run of literal characters matches a string of the same length
    that agrees with it up to case. *)
Lemma reaches_lit (w : list N) :
  forall s s',
    reaches true (seqs (map (fun c => Chr (CChar c)) w)) s s' ->
    exists v, ahead s = v ++ ahead s' /\
              map Char.canonicalize v = map Char.canonicalize w.
Proof.
  induction w as [|p w IH]; intros s s' H.
  - simpl in H. subst. exists []. auto.
  - destruct w as [|q w'].
    + simpl in H. destruct H as (c & rest & Ha & Hc & ->).
      apply N.eqb_eq in Hc. exists [c]. simpl. rewrite Hc. auto.
    + change (seqs (map (fun c => Chr (CChar c)) (p :: q :: w')))
        with (Seq (Chr (CChar p)) (seqs (map (fun c => Chr (CChar c)) (q :: w')))) in H.
      destruct H as (s1 & (c & rest & Ha & Hc & ->) & H2).
      apply N.eqb_eq in Hc.
      destruct (IH _ _ H2) as (v & Hv & Hcan). simpl in Hv.
      exists (c :: v). split.
      * rewrite Ha, Hv. reflexivity.
      * simpl. simpl in Hcan. rewrite Hc, Hcan. reflexivity.
Qed.

(** Lower-casing a string that agrees up to case with a lower-case
    word gives the word. *)
Lemma lower_of_canonical (v w : list N) :
  Forall (fun c => Char.is_lower c = true) w ->
  map Char.canonicalize v = map Char.canonicalize w ->
  toLowerCase v = w.
Proof.
  intros Hw. revert v.
  induction Hw as [|p w Hp _ IH]; intros [|c v] H; simpl in H; try discriminate.
  - reflexivity.
  - injection H as Hc Hrest. simpl. rewrite (IH _ Hrest). f_equal.
    assert (Char.canonicalize p = (p - 32)%N) as Ep
      by (unfold Char.canonicalize; rewrite Hp; reflexivity).
    unfold Char.is_lower in Hp. apply andb_prop in Hp as [H1 H2].
    apply N.leb_le in H1. apply N.leb_le in H2.
    rewrite Ep in Hc.
    destruct (canonicalize_upper c (p - 32) ltac:(lia) Hc) as [->| ->];
      unfold Char.to_lower, Char.is_upper.
    + rewrite (proj2 (N.leb_le 65 (p - 32))), (proj2 (N.leb_le (p - 32) 90)) by lia.
      simpl. lia.
    + replace (p - 32 + 32)%N with p by lia.
      rewrite (proj2 (N.leb_gt p 90)) by lia. rewrite andb_false_r. reflexivity.
Qed.

(** The format a match gives: the captured word in lower case, one of
    the three of the pattern. *)
Lemma formatMatch_word text m :
  formatMatch text = Some m ->
  exists f, option_map toLowerCase (group 1 m) = Some f /\
            In f [js "jpg"; js "jpeg"; js "png"].
Proof.
  unfold formatMatch. intros Hm.
  destruct (exec_from_reaches true _ _ _ _ Hm) as (s & s' & Hr & Hc).
  destruct (capturing_sound true 1 Patterns.format_word _ _ _ eq_refl Hr)
    as (s1 & s2 & Halt & Hl).
  unfold group. rewrite Hc, Hl. simpl option_map.
  assert (forall w, reaches true (lit w) s1 s2 ->
                    Forall (fun c => Char.is_lower c = true) (js w) ->
                    toLowerCase (firstn (length (ahead s1) - length (ahead s2)) (ahead s1))
                    = js w) as Hword.
  { intros w Hw Hlow.
    destruct (reaches_lit _ _ _ Hw) as (v & Hv & Hcan).
    rewrite Hv.
    replace (length (v ++ ahead s2) - length (ahead s2))%nat with (length v)
      by (rewrite length_app; lia).
    rewrite firstn_app, firstn_all, Nat.sub_diag. simpl. rewrite app_nil_r.
    apply lower_of_canonical; assumption. }
  destruct Halt as [H|[H|H]].
  - exists (js "jpg"). rewrite (Hword "jpg"%string H); [simpl; auto|].
    vm_compute. repeat constructor.
  - exists (js "jpeg"). rewrite (Hword "jpeg"%string H); [simpl; auto|].
    vm_compute. repeat constructor.
  - exists (js "png"). rewrite (Hword "png"%string H); [simpl; auto|].
    vm_compute. repeat constructor.
Qed.

(** The parsers return a complete rules object for every text: four
    numbers, none of them [NaN], and one of the three formats. *)
Lemma parse_rules_complete dash text :
  exists w h lo hi f,
    parse_rules dash text = mkRules w h lo hi (Some f) /\
    is_number w = true /\ is_number h = true /\
    is_number lo = true /\ is_number hi = true /\
    In f [js "jpg"; js "jpeg"; js "png"].
Proof.
  unfold parse_rules.
  destruct (widthMatch text) as [mw|] eqn:Hw;
    [destruct (widthMatch_numbers _ _ Hw) as (Hw1 & Hw2)|];
  (destruct (sizeMatch dash text) as [ms|] eqn:Hs;
    [destruct (sizeMatch_numbers _ _ _ Hs) as (Hs1 & Hs2)|]);
  (destruct (formatMatch text) as [mf|] eqn:Hf;
    [destruct (formatMatch_word _ _ Hf) as (f & -> & Hin)|]);
  do 5 eexists; (split; [reflexivity|]); simpl; auto 10.
Qed.

(** Each search fills its own fields: from what it captured when it
    matched, with the defaults when it did not. *)
Lemma parse_rules_fields dash text :
  match widthMatch text with
  | Some m => width (parse_rules dash text) = parseInt (group 1 m) /\
              height (parse_rules dash text) = parseInt (group 2 m)
  | None => width (parse_rules dash text) = JNum 200 /\
            height (parse_rules dash text) = JNum 230
  end /\
  match sizeMatch dash text with
  | Some m => minKb (parse_rules dash text) = parseInt (group 1 m) /\
              maxKb (parse_rules dash text) = parseInt (group 2 m)
  | None => minKb (parse_rules dash text) = JNum 20 /\
            maxKb (parse_rules dash text) = JNum 50
  end /\
  match formatMatch text with
  | Some m => format (parse_rules dash text) = option_map toLowerCase (group 1 m)
  | None => format (parse_rules dash text) = Some (js "jpg")
  end.
Proof.
  unfold parse_rules. simpl.
  destruct (widthMatch text); destruct (sizeMatch dash text);
    destruct (formatMatch text); auto.
Qed.

Lemma token_char_letter c p :
  In p [106; 112]%N -> cset_mem true (CChar p) c = true -> token_char c = true.
Proof.
  simpl. intros Hp Hc. apply N.eqb_eq in Hc. unfold token_char.
  destruct Hp as [<-|[<-|[]]].
  - destruct (canonicalize_upper c 74 ltac:(lia) Hc) as [->| ->];
      rewrite ?orb_true_r; reflexivity.
  - destruct (canonicalize_upper c 80 ltac:(lia) Hc) as [->| ->];
      rewrite ?orb_true_r; reflexivity.
Qed.

Lemma token_char_digit c : cset_mem true CDigit c = true -> token_char c = true.
Proof. simpl. unfold token_char. intros ->. reflexivity. Qed.

Lemma needs_digits : needs token_char true Patterns.digits.
Proof. left. exact token_char_digit. Qed.

Lemma needs_dims_x : needs token_char true Patterns.dims_x.
Proof. left. exact needs_digits. Qed.

Lemma needs_dims_named : needs token_char true Patterns.dims_named.
Proof. right. right. left. exact needs_digits. Qed.

Lemma needs_size_range dash : needs token_char true (Patterns.size_range dash).
Proof. left. exact needs_digits. Qed.

Lemma needs_size_named : needs token_char true Patterns.size_named.
Proof. right. right. left. exact needs_digits. Qed.

Lemma needs_format_word : needs token_char true Patterns.format_word.
Proof.
  right. left. split; [|split]; left; intros c Hc;
    eapply token_char_letter; try exact Hc; simpl; auto.
Qed.

(** Without a token character no search matches. *)
Lemma no_token_no_match dash text :
  Forall (fun c => token_char c = false) text ->
  widthMatch text = None /\ sizeMatch dash text = None /\ formatMatch text = None.
Proof.
  intros Ht. unfold widthMatch, sizeMatch, formatMatch, str_match.
  rewrite (exec_from_needs true token_char _ needs_dims_x _ _ Ht).
  rewrite (exec_from_needs true token_char _ needs_dims_named _ _ Ht).
  rewrite (exec_from_needs true token_char _ (needs_size_range dash) _ _ Ht).
  rewrite (exec_from_needs true token_char _ needs_size_named _ _ Ht).
  rewrite (exec_from_needs true token_char _ needs_format_word _ _ Ht).
  auto.
Qed.

End Parsers.

(* ================================================================== *)
(** ** Texts on which a search matches *)
(* ================================================================== *)

Section Matches.
Import Regex.

(** A greedy star over a character set takes every character of the
    set that lies ahead, when the rest of the pattern accepts that. *)
Lemma run_star_takes_all (cs : cset) (ds rest : list N) :
  Forall (fun c => cset_mem true cs c = true) ds ->
  match rest with c :: _ => cset_mem true cs c = false | [] => True end ->
  forall b cps k res,
    k (mkState (rev ds ++ b) rest cps) = Some res ->
    run true (Star true (Chr cs)) k (mkState b (ds ++ rest) cps) = Some res.
Proof.
  intros Hds Hrest.
  induction Hds as [|d ds Hd _ IH]; intros b cps k res Hk.
  - simpl in *. destruct rest as [|c rest]; simpl; [exact Hk|].
    rewrite Hrest. exact Hk.
  - assert (run true (Star true (Chr cs)) k (mkState (d :: b) (ds ++ rest) cps)
            = Some res) as Hnext.
    { apply IH. simpl in Hk. rewrite <- app_assoc in Hk. exact Hk. }
    simpl in *. rewrite Hd. simpl.
    rewrite Nat.ltb_irrefl || rewrite (proj2 (Nat.ltb_lt _ _) (Nat.lt_succ_diag_r _)).
    rewrite Hnext. reflexivity.
Qed.

Lemma digit_not_space c : Char.is_digit c = true -> Char.is_space c = false.
Proof.
  unfold Char.is_digit, Char.is_space, Char.is_line_terminator.
  intros H. apply andb_prop in H as [H1 H2].
  apply N.leb_le in H1. apply N.leb_le in H2.
  repeat match goal with
         | |- context [(c =? ?n)%N] =>
             rewrite (proj2 (N.eqb_neq c n)) by lia
         end.
  destruct (8192 <=? c)%N eqn:H3; [apply N.leb_le in H3; lia | reflexivity].
Qed.

(** The equations of the matcher used below. *)
Lemma run_seq (a b : regex) k s :
  run true (Seq a b) k s = run true a (run true b k) s.
Proof. reflexivity. Qed.

Lemma run_chr (cs : cset) k b c rest cps :
  run true (Chr cs) k (mkState b (c :: rest) cps)
  = if cset_mem true cs c then k (mkState (c :: b) rest cps) else None.
Proof. reflexivity. Qed.

Lemma run_group (n : nat) (r : regex) k s :
  run true (Group n r) k s
  = run true r
      (fun s' => k (set_cap n (firstn (length (ahead s) - length (ahead s')) (ahead s)) s'))
      s.
Proof. reflexivity. Qed.

(** A group around a run of digits captures the whole run. *)
Lemma run_group_digits (n : nat) (ds rest : list N) :
  ds <> [] -> Forall (fun c => Char.is_digit c = true) ds ->
  match rest with c :: _ => Char.is_digit c = false | [] => True end ->
  forall b cps k res,
    k (mkState (rev ds ++ b) rest ((n, ds) :: cps)) = Some res ->
    run true (Group n Patterns.digits) k (mkState b (ds ++ rest) cps) = Some res.
Proof.
  intros Hne Hds Hrest b cps k res Hk.
  destruct ds as [|d ds]; [contradiction|].
  inversion Hds as [|? ? Hd Hds']; subst.
  rewrite run_group. unfold Patterns.digits, Plus.
  rewrite run_seq. simpl app. rewrite run_chr.
  change (cset_mem true CDigit d) with (Char.is_digit d). rewrite Hd.
  apply run_star_takes_all; [exact Hds' | exact Hrest |].
  unfold set_cap. simpl ahead. simpl behind. simpl caps.
  replace (length (d :: ds ++ rest) - length rest)%nat with (S (length ds))
    by (simpl; rewrite length_app; lia).
  replace (firstn (S (length ds)) (d :: ds ++ rest)) with (d :: ds).
  - simpl in Hk. rewrite <- app_assoc in Hk. exact Hk.
  - simpl. f_equal. rewrite firstn_app, firstn_all, Nat.sub_diag. simpl.
    rewrite app_nil_r. reflexivity.
Qed.

Lemma exec_from_hit (r : regex) before rest s' :
  run true r Some (mkState before rest []) = Some s' ->
  exec_from true r before rest
  = Some (mkMatch (firstn (length rest - length (ahead s')) rest) (caps s')).
Proof. intros H. destruct rest; simpl; rewrite H; reflexivity. Qed.

(** A text that starts with [a-bkb], for two runs of digits [a] and
    [b], matches the first size pattern where it starts, with [a] and
    [b] captured. *)
Lemma size_range_matches (dash : cset) (da db rest : list N) :
  da <> [] -> db <> [] ->
  Forall (fun c => Char.is_digit c = true) da ->
  Forall (fun c => Char.is_digit c = true) db ->
  exists m,
    str_match true (Patterns.size_range dash) (da ++ js "-" ++ db ++ js "kb" ++ rest)
    = Some m /\
    group 1 m = Some da /\ group 2 m = Some db.
Proof.
  intros Hna Hnb Hda Hdb.
  eexists. split.
  - unfold str_match. apply exec_from_hit.
    unfold Patterns.size_range. cbn [seqs].
    rewrite run_seq.
    apply run_group_digits; [exact Hna | exact Hda | reflexivity |].
    rewrite run_seq.
    apply (run_star_takes_all CSpace [] (js "-" ++ db ++ js "kb" ++ rest));
      [constructor | reflexivity |].
    rewrite run_seq. simpl app. rewrite run_chr.
    change (cset_mem true (CUnion (CChar 45) dash) 45) with (true || cset_mem true dash 45).
    cbn [orb].
    rewrite run_seq.
    destruct db as [|b0 db']; [contradiction|].
    inversion Hdb as [|? ? Hb0 Hdb']; subst.
    apply (run_star_takes_all CSpace [] ((b0 :: db') ++ js "kb" ++ rest));
      [constructor | simpl; apply digit_not_space, Hb0 |].
    rewrite run_seq.
    apply run_group_digits; [discriminate | exact Hdb | reflexivity |].
    rewrite run_seq.
    apply (run_star_takes_all CSpace [] (js "kb" ++ rest)); [constructor | reflexivity |].
    change (lit "kb") with (Seq (Chr (CChar 107)) (Chr (CChar 98))).
    rewrite run_seq. change (js "kb" ++ rest) with (107%N :: 98%N :: rest).
    rewrite run_chr. change (cset_mem true (CChar 107) 107) with true. cbv iota.
    rewrite run_chr. change (cset_mem true (CChar 98) 98) with true. cbv iota.
    reflexivity.
  - split; reflexivity.
Qed.

(** A text that starts with [wxh] or [wXh], for two runs of digits [w]
    and [h], matches the first pattern of dimensions where it starts,
    with [w] and [h] captured. *)
Lemma dims_x_matches (dw dh rest : list N) (x : N) :
  dw <> [] -> dh <> [] ->
  Forall (fun c => Char.is_digit c = true) dw ->
  Forall (fun c => Char.is_digit c = true) dh ->
  In x (js "xX") ->
  match rest with c :: _ => Char.is_digit c = false | [] => True end ->
  exists m,
    str_match true Patterns.dims_x (dw ++ [x] ++ dh ++ rest) = Some m /\
    group 1 m = Some dw /\ group 2 m = Some dh.
Proof.
  intros Hnw Hnh Hdw Hdh Hx Hrest.
  assert (Char.is_digit x = false /\ Char.is_space x = false /\
          cset_mem true (CChar 120) x = true) as (Hxd & Hxs & Hxx)
    by (destruct Hx as [<-|[<-|[]]]; vm_compute; auto).
  eexists. split.
  - unfold str_match. apply exec_from_hit.
    unfold Patterns.dims_x. cbn [seqs].
    rewrite run_seq.
    apply run_group_digits; [exact Hnw | exact Hdw | exact Hxd |].
    rewrite run_seq.
    apply (run_star_takes_all CSpace [] ([x] ++ dh ++ rest));
      [constructor | exact Hxs |].
    rewrite run_seq. change (lit "x") with (Chr (CChar 120)).
    simpl app. rewrite run_chr, Hxx.
    rewrite run_seq.
    destruct dh as [|h0 dh']; [contradiction|].
    inversion Hdh as [|? ? Hh0 Hdh']; subst.
    apply (run_star_takes_all CSpace [] ((h0 :: dh') ++ rest));
      [constructor | simpl; apply digit_not_space, Hh0 |].
    apply run_group_digits; [discriminate | exact Hdh | exact Hrest |].
    reflexivity.
  - split; reflexivity.
Qed.

Lemma letter_char_of (p c : N) :
  In (Char.canonicalize p) [88; 87; 74; 80]%N ->
  cset_mem true (CChar p) c = true -> letter_char c = true.
Proof.
  simpl. intros Hp Hc. apply N.eqb_eq in Hc. unfold letter_char. rewrite Hc.
  apply existsb_exists. exists (Char.canonicalize p).
  split; [exact Hp | apply N.eqb_refl].
Qed.

Lemma needs_letter_dims_x : needs letter_char true Patterns.dims_x.
Proof. right. right. left. intros c. apply letter_char_of. vm_compute. auto. Qed.

Lemma needs_letter_dims_named : needs letter_char true Patterns.dims_named.
Proof. left. left. intros c. apply letter_char_of. vm_compute. auto. Qed.

Lemma needs_letter_format_word : needs letter_char true Patterns.format_word.
Proof.
  right. left. split; [|split]; left; intros c; apply letter_char_of;
    vm_compute; auto.
Qed.

Lemma digit_not_letter c : Char.is_digit c = true -> letter_char c = false.
Proof.
  unfold Char.is_digit, letter_char, Char.canonicalize, Char.is_lower.
  intros H. apply andb_prop in H as [H1 H2].
  apply N.leb_le in H1. apply N.leb_le in H2.
  rewrite (proj2 (N.leb_gt 97 c)) by lia.
  rewrite (proj2 (N.leb_gt 224 c)) by lia.
  simpl.
  repeat match goal with
         | |- context [(c =? ?n)%N] =>
             rewrite (proj2 (N.eqb_neq c n)) by lia
         end.
  reflexivity.
Qed.

Lemma unit_char_of (p c : N) :
  In (Char.canonicalize p) [75; 74; 80]%N ->
  cset_mem true (CChar p) c = true -> unit_char c = true.
Proof.
  simpl. intros Hp Hc. apply N.eqb_eq in Hc. unfold unit_char. rewrite Hc.
  apply existsb_exists. exists (Char.canonicalize p).
  split; [exact Hp | apply N.eqb_refl].
Qed.

Lemma needs_unit_size_range dash : needs unit_char true (Patterns.size_range dash).
Proof. do 6 right. left. intros c. apply unit_char_of. vm_compute. auto. Qed.

Lemma needs_unit_size_named : needs unit_char true Patterns.size_named.
Proof. do 6 right. left. intros c. apply unit_char_of. vm_compute. auto. Qed.

Lemma needs_unit_format_word : needs unit_char true Patterns.format_word.
Proof.
  right. left. split; [|split]; left; intros c; apply unit_char_of;
    vm_compute; auto.
Qed.

Lemma digit_not_unit c : Char.is_digit c = true -> unit_char c = false.
Proof.
  unfold Char.is_digit, unit_char, Char.canonicalize, Char.is_lower.
  intros H. apply andb_prop in H as [H1 H2].
  apply N.leb_le in H1. apply N.leb_le in H2.
  rewrite (proj2 (N.leb_gt 97 c)) by lia.
  rewrite (proj2 (N.leb_gt 224 c)) by lia.
  simpl.
  repeat match goal with
         | |- context [(c =? ?n)%N] =>
             rewrite (proj2 (N.eqb_neq c n)) by lia
         end.
  reflexivity.
Qed.

Lemma digits_value_nonneg s : forall acc, 0 <= acc -> 0 <= digits_value acc s.
Proof.
  induction s as [|c s IH]; intros acc Hacc; simpl; [exact Hacc|].
  destruct (Char.is_digit c) eqn:Hd; [|exact Hacc].
  apply IH. unfold Char.is_digit in Hd. apply andb_prop in Hd as [H1 _].
  apply N.leb_le in H1. lia.
Qed.

(** [parseInt] of a run of digits. *)
Lemma parseInt_digits (ds : list N) :
  ds <> [] -> Forall (fun c => Char.is_digit c = true) ds ->
  parseInt (Some ds) = number_of (digits_value 0 ds).
Proof.
  intros Hne Hds. destruct ds as [|d ds]; [contradiction|].
  inversion Hds as [|? ? Hd _]; subst.
  unfold parseInt. rewrite Hd. reflexivity.
Qed.

(** The rules for a text that starts with [a-bkb], whatever the order
    of [a] and [b]: [minKb] is the number [a] spells and [maxKb] the
    number [b] spells; when the rest of the text has none of the letters
    x, w, j, p, the other fields are the defaults. *)
Lemma parse_rules_size_range (dash : cset) (da db rest : list N) :
  da <> [] -> db <> [] ->
  Forall (fun c => Char.is_digit c = true) da ->
  Forall (fun c => Char.is_digit c = true) db ->
  let text := da ++ js "-" ++ db ++ js "kb" ++ rest in
  minKb (parse_rules dash text) = number_of (digits_value 0 da) /\
  maxKb (parse_rules dash text) = number_of (digits_value 0 db) /\
  (Forall (fun c => letter_char c = false) rest ->
   parse_rules dash text
   = mkRules (JNum 200) (JNum 230)
       (number_of (digits_value 0 da)) (number_of (digits_value 0 db))
       (Some (js "jpg"))).
Proof.
  intros Hna Hnb Hda Hdb text.
  destruct (size_range_matches dash da db rest Hna Hnb Hda Hdb) as (m & Hm & H1 & H2).
  fold text in Hm.
  assert (sizeMatch dash text = Some m) as Hs
    by (unfold sizeMatch; rewrite Hm; reflexivity).
  assert (minKb (parse_rules dash text) = number_of (digits_value 0 da) /\
          maxKb (parse_rules dash text) = number_of (digits_value 0 db))
    as (Hlo & Hhi).
  { unfold parse_rules. simpl. rewrite Hs, H1, H2.
    rewrite !parseInt_digits by assumption. auto. }
  split; [exact Hlo|]. split; [exact Hhi|].
  intros Hrest.
  assert (Forall (fun c => letter_char c = false) text) as Hplain.
  { unfold text.
    apply Forall_app; split;
      [eapply Forall_impl; [exact Hda|]; simpl; apply digit_not_letter|].
    apply Forall_app; split; [vm_compute; repeat constructor|].
    apply Forall_app; split;
      [eapply Forall_impl; [exact Hdb|]; simpl; apply digit_not_letter|].
    apply Forall_app; split; [vm_compute; repeat constructor | exact Hrest]. }
  unfold parse_rules in *. simpl in Hlo, Hhi. rewrite Hlo, Hhi.
  unfold widthMatch, formatMatch, str_match.
  rewrite (exec_from_needs true letter_char _ needs_letter_dims_x _ _ Hplain).
  rewrite (exec_from_needs true letter_char _ needs_letter_dims_named _ _ Hplain).
  rewrite (exec_from_needs true letter_char _ needs_letter_format_word _ _ Hplain).
  reflexivity.
Qed.

(** The rules for a text that starts with [wxh] or [wXh]: [width] is
    the number [w] spells and [height] the number [h] spells; when the
    rest of the text has none of the letters k, j, p, the other fields
    are the defaults. *)
Lemma parse_rules_dims (dash : cset) (dw dh rest : list N) (x : N) :
  dw <> [] -> dh <> [] ->
  Forall (fun c => Char.is_digit c = true) dw ->
  Forall (fun c => Char.is_digit c = true) dh ->
  In x (js "xX") ->
  match rest with c :: _ => Char.is_digit c = false | [] => True end ->
  let text := dw ++ [x] ++ dh ++ rest in
  width (parse_rules dash text) = number_of (digits_value 0 dw) /\
  height (parse_rules dash text) = number_of (digits_value 0 dh) /\
  (Forall (fun c => unit_char c = false) rest ->
   parse_rules dash text
   = mkRules (number_of (digits_value 0 dw)) (number_of (digits_value 0 dh))
       (JNum 20) (JNum 50) (Some (js "jpg"))).
Proof.
  intros Hnw Hnh Hdw Hdh Hx Hr text.
  destruct (dims_x_matches dw dh rest x Hnw Hnh Hdw Hdh Hx Hr) as (m & Hm & H1 & H2).
  fold text in Hm.
  assert (widthMatch text = Some m) as Hs
    by (unfold widthMatch; rewrite Hm; reflexivity).
  assert (width (parse_rules dash text) = number_of (digits_value 0 dw) /\
          height (parse_rules dash text) = number_of (digits_value 0 dh))
    as (Hlo & Hhi).
  { unfold parse_rules. simpl. rewrite Hs, H1, H2.
    rewrite !parseInt_digits by assumption. auto. }
  split; [exact Hlo|]. split; [exact Hhi|].
  intros Hrest.
  assert (Forall (fun c => unit_char c = false) text) as Hplain.
  { unfold text.
    apply Forall_app; split;
      [eapply Forall_impl; [exact Hdw|]; simpl; apply digit_not_unit|].
    apply Forall_app; split;
      [destruct Hx as [<-|[<-|[]]]; vm_compute; repeat constructor|].
    apply Forall_app; split;
      [eapply Forall_impl; [exact Hdh|]; simpl; apply digit_not_unit | exact Hrest]. }
  unfold parse_rules in *. simpl in Hlo, Hhi. rewrite Hlo, Hhi.
  unfold sizeMatch, formatMatch, str_match.
  rewrite (exec_from_needs true unit_char _ (needs_unit_size_range dash) _ _ Hplain).
  rewrite (exec_from_needs true unit_char _ needs_unit_size_named _ _ Hplain).
  rewrite (exec_from_needs true unit_char _ needs_unit_format_word _ _ Hplain).
  reflexivity.
Qed.

End Matches.

(** What a search for the size captured: two strings that start with a
    digit, of which [parseInt] reads the leading digits. *)
Lemma sizeMatch_captures dash text m :
  sizeMatch dash text = Some m ->
  exists a b,
    Regex.group 1 m = Some a /\ Regex.group 2 m = Some b /\
    parseInt (Some a) = number_of (digits_value 0 a) /\
    parseInt (Some b) = number_of (digits_value 0 b).
Proof.
  unfold sizeMatch, or_else. intros H.
  assert (forall r, Regex.capturing 1 r = Some Patterns.digits ->
                    Regex.capturing 2 r = Some Patterns.digits ->
                    Regex.str_match true r text = Some m ->
                    exists a b,
                      Regex.group 1 m = Some a /\ Regex.group 2 m = Some b /\
                      parseInt (Some a) = number_of (digits_value 0 a) /\
                      parseInt (Some b) = number_of (digits_value 0 b)) as Hgen.
  { intros r C1 C2 Hm.
    destruct (capture_digits r 1 C1 _ _ Hm) as (c1 & v1 & G1 & D1).
    destruct (capture_digits r 2 C2 _ _ Hm) as (c2 & v2 & G2 & D2).
    exists (c1 :: v1), (c2 :: v2). unfold parseInt. rewrite D1, D2. auto. }
  destruct (Regex.str_match true (Patterns.size_range dash) text) as [m1|] eqn:H1.
  - injection H as <-. exact (Hgen (Patterns.size_range dash) eq_refl eq_refl H1).
  - exact (Hgen Patterns.size_named eq_refl eq_refl H).
Qed.

(** An empty window: no size is within bounds of which the lower is
    the greater. *)
Lemma inverted_window_is_empty (lo hi : Z) (sizeKb : Q) :
  hi < lo -> js_le sizeKb (JNum hi) && js_ge sizeKb (JNum lo) = false.
Proof.
  intros Hlt. simpl.
  destruct (Qle_bool sizeKb (inject_Z hi)) eqn:H1; [|reflexivity].
  destruct (Qle_bool (inject_Z lo) sizeKb) eqn:H2; [|reflexivity].
  apply Qle_bool_iff in H1. apply Qle_bool_iff in H2.
  pose proof (Qle_trans _ _ _ H2 H1) as H3.
  rewrite <- Zle_Qle in H3. lia.
Qed.

(** C8.  Both parsers run three searches and return, for every text, a
    complete rules object, never an error: four numbers, none of them
    [NaN], and one of the formats "jpg", "jpeg", "png".  The searches are
    independent: the dimensions are what the first search captured, the
    size range what the second captured, the format what the third
    captured, and a search that finds nothing leaves its fields at 200
    by 230, at 20 to 50, at "jpg".  So a text in which no search
    matches, and in particular a text without a digit and without a
    letter j or p, parses to the full default.  A matching search does
    set its fields: a text that starts with [wxh] gets the width [w] and
    the height [h], a text that starts with [a-bkb] the sizes [a] and [b]
    (each the Number value that [parseInt] gives for the digits), a text
    that is one of the format words gets that format in lower case, the
    other fields at their defaults.  "200x230, 20-50kb, jpg" parses to
    200, 230, 20, 50, "jpg", and "300x400, 10-20kb, png" to 300, 400, 10,
    20, "png". *)
Theorem C8_lenient_free_text_parsing :
  forall text : jsstring,
    (exists w h lo hi f,
       parseRuleText text = mkRules w h lo hi (Some f) /\
       is_number w = true /\ is_number h = true /\
       is_number lo = true /\ is_number hi = true /\
       In f [js "jpg"; js "jpeg"; js "png"]) /\
    (exists w h lo hi f,
       parseCustomRule text = mkRules w h lo hi (Some f) /\
       is_number w = true /\ is_number h = true /\
       is_number lo = true /\ is_number hi = true /\
       In f [js "jpg"; js "jpeg"; js "png"]) /\
    (forall dash,
       match widthMatch text with
       | Some m => width (parse_rules dash text) = parseInt (Regex.group 1 m) /\
                   height (parse_rules dash text) = parseInt (Regex.group 2 m)
       | None => width (parse_rules dash text) = JNum 200 /\
                 height (parse_rules dash text) = JNum 230
       end /\
       match sizeMatch dash text with
       | Some m => minKb (parse_rules dash text) = parseInt (Regex.group 1 m) /\
                   maxKb (parse_rules dash text) = parseInt (Regex.group 2 m)
       | None => minKb (parse_rules dash text) = JNum 20 /\
                 maxKb (parse_rules dash text) = JNum 50
       end /\
       match formatMatch text with
       | Some m => format (parse_rules dash text)
                   = option_map toLowerCase (Regex.group 1 m)
       | None => format (parse_rules dash text) = Some (js "jpg")
       end) /\
    (forall dash,
       widthMatch text = None -> sizeMatch dash text = None ->
       formatMatch text = None ->
       parse_rules dash text = rules_lit 200 230 20 50 "jpg") /\
    (Forall (fun c => token_char c = false) text ->
       parseRuleText text = rules_lit 200 230 20 50 "jpg" /\
       parseCustomRule text = rules_lit 200 230 20 50 "jpg") /\
    (forall dash (dw dh rest : list N) (x : N),
       dw <> [] -> dh <> [] ->
       Forall (fun c => Char.is_digit c = true) dw ->
       Forall (fun c => Char.is_digit c = true) dh ->
       In x (js "xX") ->
       match rest with c :: _ => Char.is_digit c = false | [] => True end ->
       text = dw ++ [x] ++ dh ++ rest ->
       width (parse_rules dash text) = number_of (digits_value 0 dw) /\
       height (parse_rules dash text) = number_of (digits_value 0 dh) /\
       (Forall (fun c => unit_char c = false) rest ->
        parse_rules dash text
        = mkRules (number_of (digits_value 0 dw)) (number_of (digits_value 0 dh))
            (JNum 20) (JNum 50) (Some (js "jpg")))) /\
    (forall dash (da db rest : list N),
       da <> [] -> db <> [] ->
       Forall (fun c => Char.is_digit c = true) da ->
       Forall (fun c => Char.is_digit c = true) db ->
       text = da ++ js "-" ++ db ++ js "kb" ++ rest ->
       minKb (parse_rules dash text) = number_of (digits_value 0 da) /\
       maxKb (parse_rules dash text) = number_of (digits_value 0 db) /\
       (Forall (fun c => letter_char c = false) rest ->
        parse_rules dash text
        = mkRules (JNum 200) (JNum 230)
            (number_of (digits_value 0 da)) (number_of (digits_value 0 db))
            (Some (js "jpg")))) /\
    (In text (map js ["jpg"; "jpeg"; "png"; "JPG"; "JPEG"; "PNG"; "Jpg"; "pnG"]%string) ->
       parseRuleText text
       = mkRules (JNum 200) (JNum 230) (JNum 20) (JNum 50) (Some (toLowerCase text)) /\
       parseCustomRule text
       = mkRules (JNum 200) (JNum 230) (JNum 20) (JNum 50) (Some (toLowerCase text))) /\
    parseRuleText (js "200x230, 20-50kb, jpg") = rules_lit 200 230 20 50 "jpg" /\
    parseCustomRule (js "200x230, 20-50kb, jpg") = rules_lit 200 230 20 50 "jpg" /\
    parseRuleText (js "300x400, 10-20kb, png") = rules_lit 300 400 10 20 "png" /\
    parseCustomRule (js "300x400, 10-20kb, png") = rules_lit 300 400 10 20 "png" /\
    parseRuleText (js "Width: 640 and Height: 480, Size: 30 to 40 KB, as JPEG")
    = rules_lit 640 480 30 40 "jpeg" /\
    parseCustomRule (js "Width: 640 and Height: 480, Size: 30 to 40 KB, as JPEG")
    = rules_lit 640 480 30 40 "jpeg".
Proof.
  intros text.
  split; [apply parse_rules_complete|].
  split; [apply parse_rules_complete|].
  split; [intros dash; apply parse_rules_fields|].
  split; [intros dash Hw Hs Hf; unfold parse_rules; rewrite Hw, Hs, Hf; reflexivity|].
  split.
  { intros Ht. unfold parseRuleText, parseCustomRule, parse_rules.
    destruct (no_token_no_match Patterns.server_dash text Ht) as (Hw & Hs & Hf).
    destruct (no_token_no_match Patterns.client_dash text Ht) as (_ & Hc & _).
    rewrite Hw, Hs, Hc, Hf. split; reflexivity. }
  split.
  { intros dash dw dh rest x Hnw Hnh Hdw Hdh Hx Hrest ->.
    apply parse_rules_dims; assumption. }
  split.
  { intros dash da db rest Hna Hnb Hda Hdb ->.
    apply parse_rules_size_range; assumption. }
  split.
  { intros Hin. simpl in Hin.
    repeat (destruct Hin as [<-|Hin]; [split; vm_compute; reflexivity|]).
    contradiction. }
  repeat split; vm_compute; reflexivity.
Qed.

(** The theorem at four texts: one without tokens, one with
    dimensions, one with a size range, one with a format. *)
Lemma C8_one_token_at_a_time :
  parseRuleText (js "make it small") = rules_lit 200 230 20 50 "jpg" /\
  parseCustomRule (js "make it small") = rules_lit 200 230 20 50 "jpg" /\
  parseRuleText (js "640X480") = rules_lit 640 480 20 50 "jpg" /\
  parseCustomRule (js "640x480") = rules_lit 640 480 20 50 "jpg" /\
  parseRuleText (js "30-40kb") = rules_lit 200 230 30 40 "jpg" /\
  parseCustomRule (js "30-40kb") = rules_lit 200 230 30 40 "jpg" /\
  parseRuleText (js "PNG") = rules_lit 200 230 20 50 "png" /\
  parseCustomRule (js "PNG") = rules_lit 200 230 20 50 "png".
Proof.
  assert (Forall (fun c => Char.is_digit c = true) (js "640")) as D640
    by (vm_compute; repeat constructor).
  assert (Forall (fun c => Char.is_digit c = true) (js "480")) as D480
    by (vm_compute; repeat constructor).
  assert (Forall (fun c => Char.is_digit c = true) (js "30")) as D30
    by (vm_compute; repeat constructor).
  assert (Forall (fun c => Char.is_digit c = true) (js "40")) as D40
    by (vm_compute; repeat constructor).
  destruct (C8_lenient_free_text_parsing (js "make it small"))
    as (_ & _ & _ & _ & Hdefault & _).
  destruct (C8_lenient_free_text_parsing (js "640X480"))
    as (_ & _ & _ & _ & _ & HX & _).
  destruct (C8_lenient_free_text_parsing (js "640x480"))
    as (_ & _ & _ & _ & _ & Hx & _).
  destruct (C8_lenient_free_text_parsing (js "30-40kb"))
    as (_ & _ & _ & _ & _ & _ & Hsize & _).
  destruct (C8_lenient_free_text_parsing (js "PNG"))
    as (_ & _ & _ & _ & _ & _ & _ & Hfmt & _).
  destruct (HX Patterns.server_dash (js "640") (js "480") [] 88%N
              ltac:(discriminate) ltac:(discriminate) D640 D480
              ltac:(vm_compute; auto) I eq_refl) as (_ & _ & HX').
  destruct (Hx Patterns.client_dash (js "640") (js "480") [] 120%N
              ltac:(discriminate) ltac:(discriminate) D640 D480
              ltac:(vm_compute; auto) I eq_refl) as (_ & _ & Hx').
  destruct (Hsize Patterns.server_dash (js "30") (js "40") []
              ltac:(discriminate) ltac:(discriminate) D30 D40 eq_refl)
    as (_ & _ & Hs').
  destruct (Hsize Patterns.client_dash (js "30") (js "40") []
              ltac:(discriminate) ltac:(discriminate) D30 D40 eq_refl)
    as (_ & _ & Hc').
  split; [|split]; [apply Hdefault; vm_compute; repeat constructor ..|].
  split; [exact (HX' (List.Forall_nil _))|].
  split; [exact (Hx' (List.Forall_nil _))|].
  split; [exact (Hs' (List.Forall_nil _))|].
  split; [exact (Hc' (List.Forall_nil _))|].
  split; apply Hfmt; vm_compute; auto 10.
Defined.

(** Tokens are found anywhere in the text, in any order, and the
    pattern with names is tried when the short one finds nothing. *)
Example tokens_anywhere :
  parseRuleText (js "png please, under 15-25 KB and 120 x 90")
  = rules_lit 120 90 15 25 "png" /\
  parseRuleText (js "Dimensions 200x230 pixels, size 20-50KB, JPG format")
  = rules_lit 200 230 20 50 "jpg" /\
  parseCustomRule (js "width: 300, height: 400 and size: 10 to 30 kb")
  = rules_lit 300 400 10 30 "jpg" /\
  parseCustomRule (js "3x4") = rules_lit 3 4 20 50 "jpg".
Proof. vm_compute. auto. Qed.

(** C10, as the code has it.  Whatever a search for the size captured
    becomes [minKb] and [maxKb] in that order, each the Number value
    that [parseInt] gives for the captured digits: nothing is compared,
    swapped, rejected or raised.  When the first number is the greater
    one and below 2^53, the two fields are the two numbers themselves,
    so [minKb] is greater than [maxKb] and no size is within the
    window.  The first pattern does match such a text: for every two
    runs of digits [a] and [b] with [a] the greater, a text that starts
    with [a-bkb] makes [minKb] the Number value of [a] and [maxKb] that
    of [b] in both parsers; "50-20kb" gives minKb 50 and maxKb 20. *)
Theorem C10_inverted_range_passes_through :
  forall da db rest : list N,
    da <> [] -> db <> [] ->
    Forall (fun c => Char.is_digit c = true) da ->
    Forall (fun c => Char.is_digit c = true) db ->
    digits_value 0 db < digits_value 0 da ->
    let text := da ++ js "-" ++ db ++ js "kb" ++ rest in
    minKb (parseRuleText text) = number_of (digits_value 0 da) /\
    maxKb (parseRuleText text) = number_of (digits_value 0 db) /\
    minKb (parseCustomRule text) = number_of (digits_value 0 da) /\
    maxKb (parseCustomRule text) = number_of (digits_value 0 db) /\
    (Forall (fun c => letter_char c = false) rest ->
     let expected :=
       mkRules (JNum 200) (JNum 230)
         (number_of (digits_value 0 da)) (number_of (digits_value 0 db))
         (Some (js "jpg")) in
     parseRuleText text = expected /\ parseCustomRule text = expected) /\
    (digits_value 0 da < 2 ^ 53 ->
     minKb (parseRuleText text) = JNum (digits_value 0 da) /\
     maxKb (parseRuleText text) = JNum (digits_value 0 db) /\
     minKb (parseCustomRule text) = JNum (digits_value 0 da) /\
     maxKb (parseCustomRule text) = JNum (digits_value 0 db) /\
     (forall sizeKb,
        js_le sizeKb (maxKb (parseRuleText text))
        && js_ge sizeKb (minKb (parseRuleText text)) = false) /\
     (forall sizeKb,
        js_le sizeKb (maxKb (parseCustomRule text))
        && js_ge sizeKb (minKb (parseCustomRule text)) = false)) /\
    (forall dash t m, sizeMatch dash t = Some m ->
       exists a b,
         Regex.group 1 m = Some a /\ Regex.group 2 m = Some b /\
         minKb (parse_rules dash t) = number_of (digits_value 0 a) /\
         maxKb (parse_rules dash t) = number_of (digits_value 0 b) /\
         (digits_value 0 b < digits_value 0 a < 2 ^ 53 ->
          minKb (parse_rules dash t) = JNum (digits_value 0 a) /\
          maxKb (parse_rules dash t) = JNum (digits_value 0 b) /\
          forall sizeKb,
            js_le sizeKb (maxKb (parse_rules dash t))
            && js_ge sizeKb (minKb (parse_rules dash t)) = false)) /\
    parseRuleText (js "50-20kb") = rules_lit 200 230 50 20 "jpg" /\
    parseCustomRule (js "50-20kb") = rules_lit 200 230 50 20 "jpg".
Proof.
  intros da db rest Hna Hnb Hda Hdb Hgt text.
  destruct (parse_rules_size_range Patterns.server_dash da db rest Hna Hnb Hda Hdb)
    as (Hs1 & Hs2 & Hs3).
  destruct (parse_rules_size_range Patterns.client_dash da db rest Hna Hnb Hda Hdb)
    as (Hc1 & Hc2 & Hc3).
  fold text in Hs1, Hs2, Hs3, Hc1, Hc2, Hc3.
  unfold parseRuleText, parseCustomRule.
  split; [exact Hs1|]. split; [exact Hs2|].
  split; [exact Hc1|]. split; [exact Hc2|].
  split; [intros Hrest; split; [apply Hs3 | apply Hc3]; exact Hrest|].
  split.
  { intros Hsmall.
    pose proof (digits_value_nonneg db 0 ltac:(lia)) as Hb0.
    rewrite Hs1, Hs2, Hc1, Hc2.
    rewrite !number_of_exact by lia.
    repeat split; try reflexivity;
      intros sizeKb; apply inverted_window_is_empty; exact Hgt. }
  split.
  { intros dash t m Hm.
    destruct (sizeMatch_captures _ _ _ Hm) as (a & b & G1 & G2 & P1 & P2).
    exists a, b.
    assert (minKb (parse_rules dash t) = number_of (digits_value 0 a) /\
            maxKb (parse_rules dash t) = number_of (digits_value 0 b)) as (Hlo & Hhi)
      by (unfold parse_rules; simpl; rewrite Hm, G1, G2; auto).
    repeat (split; [assumption|]).
    intros Hinv.
    pose proof (digits_value_nonneg b 0 ltac:(lia)) as Hb0.
    rewrite Hlo, Hhi. rewrite !number_of_exact by lia.
    repeat split; try reflexivity.
    intros sizeKb. apply inverted_window_is_empty. lia. }
  split; vm_compute; reflexivity.
Qed.

(** The theorem at "50-20kb". *)
Lemma C10_fifty_to_twenty :
  parseRuleText (js "50-20kb") = rules_lit 200 230 50 20 "jpg" /\
  parseCustomRule (js "50-20kb") = rules_lit 200 230 50 20 "jpg" /\
  kilobytes (Examples.blank 30720) == 30 # 1 /\
  js_le (kilobytes (Examples.blank 30720)) (maxKb (parseRuleText (js "50-20kb")))
  && js_ge (kilobytes (Examples.blank 30720)) (minKb (parseRuleText (js "50-20kb")))
  = false.
Proof.
  assert (Forall (fun c => Char.is_digit c = true) (js "50")) as H50
    by (vm_compute; repeat constructor).
  assert (Forall (fun c => Char.is_digit c = true) (js "20")) as H20
    by (vm_compute; repeat constructor).
  destruct (C10_inverted_range_passes_through (js "50") (js "20") []
              ltac:(discriminate) ltac:(discriminate) H50 H20 eq_refl)
    as (_ & _ & _ & _ & Hfull & Hsmall & _).
  destruct (Hfull ltac:(constructor)) as (Hs & Hc).
  destruct (Hsmall eq_refl) as (_ & _ & _ & _ & Hwin & _).
  split; [exact Hs|]. split; [exact Hc|].
  split; [vm_compute; reflexivity|].
  apply Hwin.
Defined.

(** C10 as stated fails beyond 2^53, where [parseInt] rounds: of two
    runs of digits the first can spell the greater integer and both
    give the same number, so [minKb] is not greater than [maxKb]; and a
    run of 309 nines, beyond the range of a binary64, gives [Infinity]. *)
Lemma C10_beyond_two_to_the_53 :
  digits_value 0 (js "9007199254740992") < digits_value 0 (js "9007199254740993") /\
  parseRuleText (js "9007199254740993-9007199254740992kb")
  = rules_lit 200 230 9007199254740992 9007199254740992 "jpg" /\
  parseCustomRule (js "9007199254740993-9007199254740992kb")
  = rules_lit 200 230 9007199254740992 9007199254740992 "jpg" /\
  minKb (parseRuleText (repeat 57%N 309 ++ js "-1kb")) = JInf /\
  maxKb (parseRuleText (repeat 57%N 309 ++ js "-1kb")) = JNum 1 /\
  minKb (parseCustomRule (repeat 57%N 309 ++ js "-1kb")) = JInf.
Proof. vm_compute. repeat split; reflexivity. Qed.


(* ================================================================== *)
(** ** Rules from a preset *)
(* ================================================================== *)

(** An entry of the back end's table is one of its four literals. *)
Lemma server_presets_lookup p r :
  Server.presets !! p = Some r ->
  (p = js "photo" /\ r = rules_lit 200 230 20 50 "jpg") \/
  (p = js "signature" /\ r = rules_lit 140 60 10 20 "jpg") \/
  (p = js "thumb" /\ r = rules_lit 140 60 20 50 "jpg") \/
  (p = js "declaration" /\ r = rules_lit 800 300 50 100 "jpg").
Proof.
  intros H. apply elem_of_list_to_map_2 in H.
  repeat match goal with
         | H : _ ∈ _ :: _ |- _ => apply elem_of_cons in H as [H|H]
         | H : _ ∈ [] |- _ => apply elem_of_nil in H; contradiction
         | H : (_, _) = (_, _) |- _ => injection H as -> ->
         end; auto 6.
Qed.

(** An entry of the front end's table is one of its five literals. *)
Lemma client_presets_lookup p r :
  Client.PRESETS !! p = Some r ->
  (p = js "custom" /\ r = rules_lit 0 0 0 0 "jpg") \/
  (p = js "photo" /\ r = rules_lit 200 230 20 50 "jpg") \/
  (p = js "signature" /\ r = rules_lit 140 60 10 20 "jpg") \/
  (p = js "thumb" /\ r = rules_lit 140 60 20 50 "jpg") \/
  (p = js "declaration" /\ r = rules_lit 800 300 50 100 "jpg").
Proof.
  intros H. apply elem_of_list_to_map_2 in H.
  repeat match goal with
         | H : _ ∈ _ :: _ |- _ => apply elem_of_cons in H as [H|H]
         | H : _ ∈ [] |- _ => apply elem_of_nil in H; contradiction
         | H : (_, _) = (_, _) |- _ => injection H as -> ->
         end; auto 7.
Qed.

(** What [table[key]] can be. *)
Lemma js_get_cases table key :
  (exists r, table !! key = Some r /\ js_get table key = Some r) \/
  (table !! key = None /\
   (js_get table key = Some inherited_member \/ js_get table key = None)).
Proof.
  unfold js_get. destruct (table !! key) as [r|]; [left; eauto|].
  right. split; [reflexivity|]. destruct (bool_decide _); auto.
Qed.

(** Rules with a format, as the handler got them, are complete: four
    numbers and the format. *)
Lemma server_rules_complete req rules f :
  Server.derive_rules req = Some rules -> format rules = Some f ->
  exists w h lo hi,
    rules = mkRules w h lo hi (Some f) /\
    is_number w = true /\ is_number h = true /\
    is_number lo = true /\ is_number hi = true.
Proof.
  unfold Server.derive_rules. intros Hd Hf.
  destruct (Server.truthy (Server.preset req)
            && negb (bool_decide (Server.preset req = Some (js "custom")))).
  - destruct (js_get_cases Server.presets (default [] (Server.preset req)))
      as [(r & Hl & Hg)|(_ & [Hg|Hg])]; rewrite Hg in Hd; try discriminate;
      injection Hd as <-.
    + destruct (server_presets_lookup _ _ Hl) as [[_ ->]|[[_ ->]|[[_ ->]|[_ ->]]]];
        injection Hf as <-; unfold rules_lit; do 4 eexists;
        (split; [reflexivity|]); simpl; auto.
    + discriminate.
  - injection Hd as <-.
    destruct (parse_rules_complete Patterns.server_dash
                (Server.or_text (Server.ruleText req) Server.default_rule_text))
      as (w & h & lo & hi & f' & E & Hw & Hh & Hlo & Hhi & _).
    unfold parseRuleText in *. rewrite E in *. simpl in Hf. injection Hf as ->.
    exists w, h, lo, hi. auto.
Qed.

Lemma client_rules_complete sp cr rules f :
  Client.getCurrentRules sp cr = Some rules -> format rules = Some f ->
  exists w h lo hi,
    rules = mkRules w h lo hi (Some f) /\
    is_number w = true /\ is_number h = true /\
    is_number lo = true /\ is_number hi = true.
Proof.
  unfold Client.getCurrentRules. intros Hd Hf.
  destruct (bool_decide (sp = js "custom") && Server.truthy (Some cr)).
  - injection Hd as <-.
    destruct (parse_rules_complete Patterns.client_dash cr)
      as (w & h & lo & hi & f' & E & Hw & Hh & Hlo & Hhi & _).
    unfold parseCustomRule in *. rewrite E in *. simpl in Hf. injection Hf as ->.
    exists w, h, lo, hi. auto.
  - destruct (js_get_cases Client.PRESETS sp)
      as [(r & Hl & Hg)|(_ & [Hg|Hg])]; rewrite Hg in Hd; try discriminate;
      injection Hd as <-.
    + destruct (client_presets_lookup _ _ Hl)
        as [[_ ->]|[[_ ->]|[[_ ->]|[[_ ->]|[_ ->]]]]];
        injection Hf as <-; unfold rules_lit; do 4 eexists;
        (split; [reflexivity|]); simpl; auto.
    + discriminate.
Qed.

(* ================================================================== *)
(** ** The uploaded file *)
(* ================================================================== *)

(** C9.  Whatever the image library does and whatever the request asks
    for, a request with a stored upload (a file under a path that is not
    empty) is answered, and the upload directory is then what it was
    without the uploaded file, every other file untouched.
    This covers every way out of the handler: the success response with
    [valid] true or false, and every exception (no rules for the preset,
    a failed pipeline, unreadable metadata, a file already gone, rules
    without a format). *)
Theorem C9_upload_removed_on_every_path :
  forall (Raster : Type)
    (sharp_resize : Buffer -> jsnum -> jsnum -> option Raster)
    (sharp_toBuffer : Raster -> jsstring -> Z -> option Buffer)
    (sharp_metadata : Buffer -> option (Z * Z))
    (fuel : nat) (req : Server.Request) (fs : Server.FS) (path : string),
    (20 <= fuel)%nat ->
    Server.file req = Some path -> path <> EmptyString ->
    exists resp,
      Server.handle sharp_resize sharp_toBuffer sharp_metadata fuel req fs
      = Some (resp, delete path fs) /\
      delete path fs !! path = None /\
      (forall other, other <> path -> delete path fs !! other = fs !! other).
Proof.
  intros Raster sharp_resize sharp_toBuffer sharp_metadata fuel req fs path
    Hfuel Hfile Hpath.
  destruct (handle_answers sharp_resize sharp_toBuffer sharp_metadata fuel req fs Hfuel)
    as (resp & fs' & Hh).
  exists resp. split; [|split].
  - rewrite Hh. f_equal. f_equal.
    unfold Server.handle in Hh.
    destruct (Server.try_block sharp_resize sharp_toBuffer sharp_metadata fuel req fs)
      as [r fs1|e fs1|] eqn:Htry; [| |discriminate].
    + injection Hh as <- <-.
      destruct (try_block_ok _ _ _ _ _ _ _ _ Htry)
        as [(Hnone & _)|(p & rules & st & buf & meta & fmt & input & Hp & _ & _ & _
                          & _ & _ & -> & _)]; congruence.
    + destruct (try_block_err _ _ _ _ _ _ _ _ Htry) as (p & Hp & Hfs1).
      assert (p = path) as -> by congruence.
      unfold Server.catch_block in Hh. rewrite Hfile in Hh.
      rewrite bool_decide_eq_false_2 in Hh by exact Hpath.
      unfold Server.unlink in Hh.
      destruct Hfs1 as [-> | ->].
      * destruct (fs !! path) eqn:Hl; injection Hh as <- <-; [reflexivity|].
        symmetry. apply delete_id. exact Hl.
      * rewrite lookup_delete_eq in Hh. injection Hh as <- <-. reflexivity.
  - apply lookup_delete_eq.
  - intros other Hne. apply lookup_delete_ne. congruence.
Qed.

(** The theorem at the stored upload of the examples. *)
Lemma C9_signature_upload_removed :
  exists resp,
    Server.handle Examples.sharp_resize Examples.sharp_toBuffer
      Examples.sharp_metadata 20 (Examples.with_preset "signature") Examples.uploads
    = Some (resp, delete Examples.upload_path Examples.uploads).
Proof.
  destruct (C9_upload_removed_on_every_path (Z * Z)
              Examples.sharp_resize Examples.sharp_toBuffer Examples.sharp_metadata
              20 (Examples.with_preset "signature") Examples.uploads
              Examples.upload_path (le_n 20) eq_refl ltac:(discriminate))
    as (resp & H & _).
  exists resp. exact H.
Defined.

(** The ways out of the handler on examples, each with the directory
    empty afterwards: a result inside the window, a result outside it,
    a preset that is not in the table, an inherited member in the place
    of rules, and a file that is already gone. *)
Example every_way_out :
  (let r := Server.handle Examples.sharp_resize Examples.sharp_toBuffer
              Examples.sharp_metadata 20 (Examples.with_preset "signature")
              Examples.uploads in
   option_map (fun x => Server.verdict (fst x)) r = Some (Some true) /\
   option_map snd r = Some ∅) /\
  (let r := Server.handle Examples.flat_resize (Examples.flat_toBuffer 3000)
              Examples.signature_metadata 20 (Examples.with_preset "signature")
              Examples.uploads in
   option_map (fun x => Server.verdict (fst x)) r = Some (Some false) /\
   option_map snd r = Some ∅) /\
  Server.handle Examples.sharp_resize Examples.sharp_toBuffer
    Examples.sharp_metadata 20 (Examples.with_preset "passport") Examples.uploads
  = Some (Server.Failed TypeError, ∅) /\
  Server.handle Examples.flat_resize (Examples.flat_toBuffer 3000)
    Examples.signature_metadata 20 (Examples.with_preset "toString") Examples.uploads
  = Some (Server.Failed TypeError, ∅) /\
  Server.handle Examples.sharp_resize Examples.sharp_toBuffer
    Examples.sharp_metadata 20 (Examples.with_preset "signature") ∅
  = Some (Server.Failed ENOENT, ∅).
Proof. vm_compute. repeat split; reflexivity. Qed.

(* ================================================================== *)
(** ** The validity flag *)
(* ================================================================== *)

(** In the front end [valid] is the window test on the exact size of
    the blob that is returned, for every run that shows a result. *)
Lemma client_valid_is_window_test
    {Image Canvas : Type} (drawImage : Image -> jsnum -> jsnum -> Canvas)
    (canvas_toBlob : Canvas -> jsstring -> float -> option Buffer)
    fuel src sp cr r :
  Client.processClientSide drawImage canvas_toBlob fuel src sp cr = Client.Shown r ->
  exists img rules,
    src = Client.Loaded img /\
    Client.getCurrentRules sp cr = Some rules /\
    Client.res_width r = width rules /\
    Client.res_height r = height rules /\
    Client.res_sizeKb r = toFixed2 (kilobytes (Client.res_blob r)) /\
    Client.valid r = js_le (kilobytes (Client.res_blob r)) (maxKb rules)
                     && js_ge (kilobytes (Client.res_blob r)) (minKb rules) /\
    exists st,
      snd (Client.quality_search canvas_toBlob fuel
             (drawImage img (width rules) (height rules)) rules) = Finished st /\
      Client.blob st = Some (Client.res_blob r).
Proof.
  unfold Client.processClientSide.
  destruct src as [| |img]; try discriminate.
  destruct (Client.getCurrentRules sp cr) as [rules|]; [|discriminate].
  destruct (Client.quality_search canvas_toBlob fuel
              (drawImage img (width rules) (height rules)) rules)
    as [v [st|e|]] eqn:Hrun; try discriminate.
  destruct (Client.blob st) as [b|] eqn:Hb; [|discriminate].
  destruct (format rules) as [fmt|]; [|discriminate].
  intros [= <-]. exists img, rules. simpl. repeat split; auto.
  exists st. rewrite Hrun. auto.
Qed.

(** In the back end [valid] is the window test on the size rounded to
    two decimals, the number sent as [fileSizeKb]. *)
Lemma server_valid_is_window_test_on_rounded_size
    {Raster : Type} (sharp_resize : Buffer -> jsnum -> jsnum -> option Raster)
    (sharp_toBuffer : Raster -> jsstring -> Z -> option Buffer)
    (sharp_metadata : Buffer -> option (Z * Z)) fuel req fs r fs' :
  Server.handle sharp_resize sharp_toBuffer sharp_metadata fuel req fs
  = Some (Server.Processed r, fs') ->
  exists rules,
    Server.derive_rules req = Some rules /\
    Server.fileSizeKb r = parseFloat2 (toFixed2 (kilobytes (Server.image_bytes r))) /\
    Server.valid r = js_le (Server.fileSizeKb r) (maxKb rules)
                     && js_ge (Server.fileSizeKb r) (minKb rules).
Proof.
  unfold Server.handle.
  destruct (Server.try_block sharp_resize sharp_toBuffer sharp_metadata fuel req fs)
    as [resp fs1|e fs1|] eqn:Htry; [| |discriminate].
  - intros [= -> ->].
    destruct (try_block_ok _ _ _ _ _ _ _ _ Htry)
      as [(_ & Hbad & _)|(p & rules & st & buf & meta & fmt & input & _ & Hr & _ & _
                          & _ & _ & _ & _ & Hresp)]; [discriminate|].
    injection Hresp as ->. exists rules. simpl. auto.
  - unfold Server.catch_block. intros H.
    destruct (Server.file req); [destruct (bool_decide _)|];
      try destruct (Server.unlink _ _); discriminate.
Qed.

(** C2 fails in the back end, where the size is rounded before the
    window test.  An upload whose signature encodes to 20484 bytes at
    every quality is 20.0039 KB, above the 20 KB the preset allows: the
    loop finds every attempt too large and runs out of attempts, and the
    handler then sends that buffer with [fileSizeKb] 20 and [valid]
    true. *)
Theorem C2_server_validates_the_rounded_size :
  let outcome :=
    Server.handle Examples.flat_resize (Examples.flat_toBuffer 20484)
      Examples.signature_metadata 20 (Examples.with_preset "signature")
      Examples.uploads in
  let search :=
    Server.processImage Examples.flat_resize (Examples.flat_toBuffer 20484) 20
      Examples.uploads Examples.upload_path
      (JNum 140) (JNum 60) (JNum 10) (JNum 20) (Some (js "jpg")) in
  exists r,
    outcome = Some (Server.Processed r, ∅) /\
    Server.image_bytes r = Examples.blank 20484 /\
    js_le (kilobytes (Server.image_bytes r)) (JNum 20) = false /\
    length (fst search) = 20%nat /\
    Server.fileSizeKb r = 2000 # 100 /\
    Server.valid r = true.
Proof.
  exists (Server.mkSuccess 140 60 (2000 # 100) (js "JPG") true (js "jpeg")
            (Examples.blank 20484)).
  repeat split; vm_compute; reflexivity.
Qed.

(** The same blob in the front end is reported as it is: not valid. *)
Example client_validates_the_exact_size :
  Client.verdict
    (Client.processClientSide Examples.drawImage
       (fun _ _ _ => Some (Examples.blank 20484)) 15 (Client.Loaded tt)
       (js "signature") [])
  = Some false.
Proof. vm_compute. reflexivity. Qed.

(* ================================================================== *)
(** ** The dimensions of the result *)
(* ================================================================== *)

Lemma examples_fill_contract :
  Server.fill_contract Examples.sharp_resize Examples.sharp_toBuffer
    Examples.sharp_metadata.
Proof.
  intros input w h raster method quality buf Hr Hb.
  unfold Examples.sharp_resize in Hr.
  destruct ((0 <=? w) && (w <? 256) && (0 <=? h) && (h <? 256)) eqn:Hrange;
    [|discriminate].
  injection Hr as <-.
  unfold Examples.sharp_toBuffer in Hb. simpl in Hb.
  destruct (Byte.of_N (Z.to_N w)) as [bw|] eqn:Hw; [|discriminate].
  destruct (Byte.of_N (Z.to_N h)) as [bh|] eqn:Hh; [|discriminate].
  injection Hb as <-. simpl.
  apply Byte.to_of_N in Hw. apply Byte.to_of_N in Hh. rewrite Hw, Hh.
  repeat (apply andb_prop in Hrange as [Hrange ?]).
  f_equal. f_equal; apply Z2N.id; lia.
Qed.

Lemma examples_reject_infinity : Server.rejects_infinity Examples.sharp_resize.
Proof. intros input w h [-> | ->]; [|destruct w]; reflexivity. Qed.

(** C3, as the code has it.  Whenever a result is returned, its width
    and height are the width and height of the rules, whatever the
    uploaded image is.  The back end reads them from the buffer it
    returns, so there this rests on the image library keeping its
    promise for [fit: 'fill']: the rules hold two numbers, and when
    these are integers they are the width and height of the result.
    They are integers unless the rule text had a run of digits beyond
    the range of a binary64, for which the parser returns [Infinity];
    with an image library that rejects such a size, the width and
    height of the rules are the integers of the result.  The front end
    copies them from the rules, which hold two numbers, having
    stretched the image once onto a canvas of that size, on which the
    whole search then runs. *)
Theorem C3_result_has_the_dimensions_of_the_rules :
  (forall (Raster : Type)
     (sharp_resize : Buffer -> jsnum -> jsnum -> option Raster)
     (sharp_toBuffer : Raster -> jsstring -> Z -> option Buffer)
     (sharp_metadata : Buffer -> option (Z * Z))
     (fuel : nat) (req : Server.Request) (fs fs' : Server.FS) (r : Server.Success),
     Server.fill_contract sharp_resize sharp_toBuffer sharp_metadata ->
     Server.handle sharp_resize sharp_toBuffer sharp_metadata fuel req fs
     = Some (Server.Processed r, fs') ->
     exists rules,
       Server.derive_rules req = Some rules /\
       is_number (width rules) = true /\ is_number (height rules) = true /\
       (forall w h, width rules = JNum w -> height rules = JNum h ->
          Server.res_width r = w /\ Server.res_height r = h) /\
       (Server.rejects_infinity sharp_resize ->
          width rules = JNum (Server.res_width r) /\
          height rules = JNum (Server.res_height r))) /\
  (forall (Image Canvas : Type) (drawImage : Image -> jsnum -> jsnum -> Canvas)
     (canvas_toBlob : Canvas -> jsstring -> float -> option Buffer)
     (fuel : nat) (src : Client.source) (sp cr : jsstring) (r : Client.Result),
     Client.processClientSide drawImage canvas_toBlob fuel src sp cr = Client.Shown r ->
     exists img rules st,
       src = Client.Loaded img /\
       Client.getCurrentRules sp cr = Some rules /\
       is_number (width rules) = true /\ is_number (height rules) = true /\
       Client.res_width r = width rules /\ Client.res_height r = height rules /\
       snd (Client.quality_search canvas_toBlob fuel
              (drawImage img (width rules) (height rules)) rules) = Finished st /\
       Client.blob st = Some (Client.res_blob r)).
Proof.
  split.
  - intros Raster sharp_resize sharp_toBuffer sharp_metadata fuel req fs fs' r
      Hcontract Hh.
    unfold Server.handle in Hh.
    destruct (Server.try_block sharp_resize sharp_toBuffer sharp_metadata fuel req fs)
      as [resp fs1|e fs1|] eqn:Htry; [| |discriminate].
    2:{ unfold Server.catch_block in Hh.
        destruct (Server.file req); [destruct (bool_decide _)|];
          try destruct (Server.unlink _ _); discriminate. }
    injection Hh as -> ->.
    destruct (try_block_ok _ _ _ _ _ _ _ _ Htry)
      as [(_ & Hbad & _)|(p & rules & st & buf & meta & fmt & input & _ & Hr & Hfin
                          & Hout & Hmeta & Hin & _ & Hfmt & Hresp)]; [discriminate|].
    injection Hresp as ->. simpl.
    exists rules. split; [exact Hr|].
    destruct (server_rules_complete _ _ _ Hr Hfmt)
      as (w & h & lo & hi & -> & Hw & Hh & _).
    simpl in *.
    destruct (server_search_last sharp_resize sharp_toBuffer fs p
                w h lo hi fmt fuel st Hfin)
      as (sl & input' & out & _ & Hin' & Henc & Hout').
    assert (out = buf) as -> by congruence.
    unfold Server.sharp_pipeline in Henc.
    destruct (sharp_resize input' w h) as [raster|] eqn:Hres; [|discriminate].
    split; [exact Hw|]. split; [exact Hh|].
    assert (forall zw zh, w = JNum zw -> h = JNum zh ->
              fst meta = zw /\ snd meta = zh) as Hint.
    { intros zw zh -> ->.
      rewrite (Hcontract _ _ _ _ _ _ _ Hres Henc) in Hmeta.
      injection Hmeta as <-. simpl. auto. }
    split; [exact Hint|].
    intros Hinf.
    destruct w as [w| | |]; try discriminate;
      [|rewrite Hinf in Hres by auto; discriminate].
    destruct h as [h| | |]; try discriminate;
      [|rewrite Hinf in Hres by auto; discriminate].
    destruct (Hint w h eq_refl eq_refl) as [-> ->]. auto.
  - intros Image Canvas drawImage canvas_toBlob fuel src sp cr r Hshown.
    destruct (client_valid_is_window_test _ _ _ _ _ _ _ Hshown)
      as (img & rules & -> & Hrules & Hw & Hh & _ & _ & st & Hfin & Hblob).
    assert (exists f, format rules = Some f) as [f Hf].
    { unfold Client.processClientSide in Hshown. rewrite Hrules in Hshown.
      destruct (Client.quality_search _ _ _ _) as [v [st'|e|]]; try discriminate.
      destruct (Client.blob st'); [|discriminate].
      destruct (format rules); [eauto | discriminate]. }
    destruct (client_rules_complete _ _ _ _ Hrules Hf)
      as (w & h & lo & hi & -> & Hnw & Hnh & _).
    simpl in *.
    exists img, (mkRules w h lo hi (Some f)), st.
    repeat split; auto.
Qed.

(** The theorem at the signature preset, in both implementations. *)
Lemma C3_signature_is_140_by_60 :
  (exists rules,
     Server.derive_rules (Examples.with_preset "signature") = Some rules /\
     width rules = JNum 140 /\ height rules = JNum 60) /\
  (exists rules,
     Client.getCurrentRules (js "signature") [] = Some rules /\
     width rules = JNum 140 /\ height rules = JNum 60).
Proof.
  destruct C3_result_has_the_dimensions_of_the_rules as [Hserver Hclient].
  split.
  - assert (exists r fs',
              Server.handle Examples.sharp_resize Examples.sharp_toBuffer
                Examples.sharp_metadata 20 (Examples.with_preset "signature")
                Examples.uploads = Some (Server.Processed r, fs') /\
              Server.res_width r = 140 /\ Server.res_height r = 60)
      as (r & fs' & Hrun & Hw & Hh)
      by (vm_compute; eexists; eexists; repeat split; reflexivity).
    destruct (Hserver _ _ _ _ _ _ _ _ _ examples_fill_contract Hrun)
      as (rules & Hr & _ & _ & _ & Hdims).
    destruct (Hdims examples_reject_infinity) as (Hrw & Hrh).
    exists rules. rewrite Hw in Hrw. rewrite Hh in Hrh. auto.
  - assert (exists r,
              Client.processClientSide Examples.drawImage Examples.canvas_toBlob
                15 (Client.Loaded tt) (js "signature") [] = Client.Shown r /\
              Client.res_width r = JNum 140 /\ Client.res_height r = JNum 60)
      as (r & Hrun & Hw & Hh)
      by (vm_compute; eexists; repeat split; reflexivity).
    destruct (Hclient _ _ _ _ _ _ _ _ _ Hrun)
      as (img & rules & st & _ & Hr & _ & _ & Hw' & Hh' & _).
    exists rules. split; [exact Hr|]. split; congruence.
Defined.

(** C3 as stated fails in the back end on one point: the resize is not
    done once before the loop.  The pipeline that every attempt builds
    starts with the resize, so for the image that never fits it runs 20
    times. *)
Lemma C3_server_resizes_in_every_attempt :
  Server.resizes_run
    (Server.processImage Examples.flat_resize (Examples.flat_toBuffer 3000) 20
       Examples.uploads Examples.upload_path
       (JNum 140) (JNum 60) (JNum 0) (JNum 1) (Some (js "jpg")))
  = 20%nat.
Proof. vm_compute. reflexivity. Qed.

(* ================================================================== *)
(** ** Presets *)
(* ================================================================== *)

Lemma server_presets_miss p :
  ~ In p (map js ["photo"; "signature"; "thumb"; "declaration"]%string) ->
  Server.presets !! p = None.
Proof.
  intros Hp. apply not_elem_of_list_to_map_1. simpl.
  intros Hin. apply Hp. apply list_elem_of_In. exact Hin.
Qed.

Lemma client_presets_miss p :
  ~ In p (map js ["custom"; "photo"; "signature"; "thumb"; "declaration"]%string) ->
  Client.PRESETS !! p = None.
Proof.
  intros Hp. apply not_elem_of_list_to_map_1. simpl.
  intros Hin. apply Hp. apply list_elem_of_In. exact Hin.
Qed.

(** With rules that have no format the handler cannot succeed. *)
Lemma handle_without_format
    {Raster : Type} (sharp_resize : Buffer -> jsnum -> jsnum -> option Raster)
    (sharp_toBuffer : Raster -> jsstring -> Z -> option Buffer)
    (sharp_metadata : Buffer -> option (Z * Z)) fuel req fs path :
  (20 <= fuel)%nat -> Server.file req = Some path ->
  (forall rules, Server.derive_rules req = Some rules -> format rules = None) ->
  exists e fs',
    Server.handle sharp_resize sharp_toBuffer sharp_metadata fuel req fs
    = Some (Server.Failed e, fs').
Proof.
  intros Hfuel Hfile Hnone.
  destruct (handle_answers sharp_resize sharp_toBuffer sharp_metadata fuel req fs Hfuel)
    as (resp & fs' & Hh).
  rewrite Hh. unfold Server.handle in Hh.
  destruct (Server.try_block sharp_resize sharp_toBuffer sharp_metadata fuel req fs)
    as [r fs1|e fs1|] eqn:Htry; [| |discriminate].
  - destruct (try_block_ok _ _ _ _ _ _ _ _ Htry)
      as [(Hf & _)|(p & rules & st & buf & meta & fmt & input & _ & Hr & _ & _
                    & _ & _ & _ & Hfmt & _)]; [congruence|].
    rewrite (Hnone _ Hr) in Hfmt. discriminate.
  - unfold Server.catch_block in Hh. rewrite Hfile in Hh.
    destruct (bool_decide _); [|destruct (Server.unlink _ _)];
      injection Hh as <- <-; eauto.
Qed.

(** C7, as the code has it.  The four names [photo], [signature],
    [thumb] and [declaration] give the literal values of the table, the
    same in both implementations, whatever the rule text.  The name
    [custom] is not an error: the back end (also without a preset, or
    with an empty one) parses the rule text, or the default text when
    there is none; the front end parses the custom rule, or for an empty
    one returns the fifth entry of its table, all zeros.  Any other name
    gives no rules: the lookup finds nothing, or an inherited member of
    the table object that has none of the five properties, and the
    request ends in the general error response (the front end in its
    error message); there is no error of its own for an unknown
    preset. *)
Theorem C7_preset_lookup :
  (forall file text cr,
     Server.derive_rules (Server.mkRequest file text (Some (js "photo")))
       = Some (rules_lit 200 230 20 50 "jpg") /\
     Server.derive_rules (Server.mkRequest file text (Some (js "signature")))
       = Some (rules_lit 140 60 10 20 "jpg") /\
     Server.derive_rules (Server.mkRequest file text (Some (js "thumb")))
       = Some (rules_lit 140 60 20 50 "jpg") /\
     Server.derive_rules (Server.mkRequest file text (Some (js "declaration")))
       = Some (rules_lit 800 300 50 100 "jpg") /\
     Client.getCurrentRules (js "photo") cr = Some (rules_lit 200 230 20 50 "jpg") /\
     Client.getCurrentRules (js "signature") cr = Some (rules_lit 140 60 10 20 "jpg") /\
     Client.getCurrentRules (js "thumb") cr = Some (rules_lit 140 60 20 50 "jpg") /\
     Client.getCurrentRules (js "declaration") cr
       = Some (rules_lit 800 300 50 100 "jpg")) /\
  (forall file text p,
     p = None \/ p = Some [] \/ p = Some (js "custom") ->
     Server.derive_rules (Server.mkRequest file text p)
     = Some (parseRuleText (Server.or_text text Server.default_rule_text))) /\
  (forall c cr,
     Client.getCurrentRules (js "custom") (c :: cr) = Some (parseCustomRule (c :: cr))) /\
  Client.getCurrentRules (js "custom") [] = Some (rules_lit 0 0 0 0 "jpg") /\
  (forall (p : jsstring) file text,
     ~ In p (map js [""; "custom"; "photo"; "signature"; "thumb"; "declaration"]%string) ->
     let req := Server.mkRequest file text (Some p) in
     (Server.derive_rules req = None \/
      Server.derive_rules req = Some inherited_member) /\
     forall (Raster : Type)
       (sharp_resize : Buffer -> jsnum -> jsnum -> option Raster)
       (sharp_toBuffer : Raster -> jsstring -> Z -> option Buffer)
       (sharp_metadata : Buffer -> option (Z * Z)) fuel fs path,
       (20 <= fuel)%nat -> file = Some path ->
       exists e fs',
         Server.handle sharp_resize sharp_toBuffer sharp_metadata fuel req fs
         = Some (Server.Failed e, fs')) /\
  (forall (p cr : jsstring),
     ~ In p (map js ["custom"; "photo"; "signature"; "thumb"; "declaration"]%string) ->
     (Client.getCurrentRules p cr = None \/
      Client.getCurrentRules p cr = Some inherited_member) /\
     forall (Image Canvas : Type) (drawImage : Image -> jsnum -> jsnum -> Canvas)
       (canvas_toBlob : Canvas -> jsstring -> float -> option Buffer) fuel img,
       (15 <= fuel)%nat ->
       exists e,
         Client.processClientSide drawImage canvas_toBlob fuel (Client.Loaded img) p cr
         = Client.ErrorShown e).
Proof.
  split; [intros; repeat split; reflexivity|].
  split.
  { intros file text p [->|[->| ->]]; reflexivity. }
  split; [reflexivity|].
  split; [reflexivity|].
  split.
  - intros p file text Hp req.
    assert (Server.derive_rules req = js_get Server.presets p) as Hd.
    { unfold Server.derive_rules, req. simpl.
      destruct p as [|c p]; [exfalso; apply Hp; simpl; auto|]. simpl.
      rewrite bool_decide_eq_false_2; [reflexivity|].
      intros E. apply Hp. simpl. right. left. congruence. }
    assert (Server.presets !! p = None) as Hmiss.
    { apply server_presets_miss. intros Hin. apply Hp. simpl in *. tauto. }
    assert (Server.derive_rules req = None \/
            Server.derive_rules req = Some inherited_member) as Hcases.
    { rewrite Hd. unfold js_get. rewrite Hmiss. destruct (bool_decide _); auto. }
    split; [exact Hcases|].
    intros Raster sharp_resize sharp_toBuffer sharp_metadata fuel fs path Hfuel Hfile.
    apply (handle_without_format _ _ _ fuel req fs path Hfuel);
      [unfold req; simpl; exact Hfile|].
    intros rules Hr. destruct Hcases as [E|E]; rewrite E in Hr;
      [discriminate | injection Hr as <-; reflexivity].
  - intros p cr Hp.
    assert (Client.getCurrentRules p cr = js_get Client.PRESETS p) as Hd.
    { unfold Client.getCurrentRules.
      rewrite bool_decide_eq_false_2; [reflexivity|].
      intros E. apply Hp. simpl. left. congruence. }
    assert (Client.getCurrentRules p cr = None \/
            Client.getCurrentRules p cr = Some inherited_member) as Hcases.
    { rewrite Hd. unfold js_get. rewrite (client_presets_miss p Hp).
      destruct (bool_decide _); auto. }
    split; [exact Hcases|].
    intros Image Canvas drawImage canvas_toBlob fuel img Hfuel.
    unfold Client.processClientSide.
    destruct Hcases as [E|E]; rewrite E; [eauto|].
    assert (snd (Client.quality_search canvas_toBlob fuel
                   (drawImage img (width inherited_member) (height inherited_member))
                   inherited_member) <> OutOfFuel) as Hend.
    { apply client_search_bounded; simpl; [lia|]. unfold Client.maxAttempts. lia. }
    destruct (Client.quality_search _ _ _ _) as [v [st|e|]]; simpl in *;
      [|eauto|congruence].
    destruct (Client.blob st); eauto.
Qed.

(** The theorem at a name that is in neither table. *)
Lemma C7_unknown_preset_fails :
  Server.derive_rules (Examples.with_preset "passport") = None /\
  (exists e fs',
     Server.handle Examples.sharp_resize Examples.sharp_toBuffer
       Examples.sharp_metadata 20 (Examples.with_preset "passport") Examples.uploads
     = Some (Server.Failed e, fs')) /\
  (exists e,
     Client.processClientSide Examples.drawImage Examples.canvas_toBlob 15
       (Client.Loaded tt) (js "passport") [] = Client.ErrorShown e).
Proof.
  destruct C7_preset_lookup as (_ & _ & _ & _ & Hserver & Hclient).
  split; [reflexivity|]. split.
  - destruct (Hserver (js "passport") (Some Examples.upload_path) (Some []))
      as [_ Hfails]; [vm_compute; intuition discriminate|].
    apply (Hfails _ _ _ _ 20%nat Examples.uploads Examples.upload_path (le_n 20) eq_refl).
  - destruct (Hclient (js "passport") []) as [_ Hfails];
      [vm_compute; intuition discriminate|].
    apply (Hfails _ _ _ _ 15%nat tt (le_n 15)).
Defined.

(** C7 as stated fails at the name [custom], which is in neither list
    of four and yet gives rules: in the back end the rules parsed from
    the default text, in the front end the all-zero entry that its table
    has as a fifth. *)
Lemma C7_custom_gives_rules :
  Server.derive_rules (Examples.with_preset "custom")
  = Some (rules_lit 200 230 20 50 "jpg") /\
  Client.PRESETS !! js "custom" = Some (rules_lit 0 0 0 0 "jpg") /\
  Client.getCurrentRules (js "custom") [] = Some (rules_lit 0 0 0 0 "jpg").
Proof. vm_compute. auto. Qed.

(* ================================================================== *)
(** ** The two implementations side by side *)
(* ================================================================== *)

Section SideBySide.
Import Regex.

(** Away from the five characters the two classes accept the same. *)
Lemma dash_classes_agree c :
  ~ In c dash_variants ->
  cset_mem true (CUnion (CChar 45) Patterns.server_dash) c
  = cset_mem true (CUnion (CChar 45) Patterns.client_dash) c.
Proof.
  intros Hc. simpl. f_equal.
  change (Char.canonicalize 226) with 194%N.
  change (Char.canonicalize 8364) with 8364%N.
  change (Char.canonicalize 8220) with 8220%N.
  change (Char.canonicalize 8211) with 8211%N.
  assert (c <> 8211 /\ c <> 226 /\ c <> 194 /\ c <> 8364 /\ c <> 8220)%N
    as (H1 & H2 & H3 & H4 & H5) by (simpl in Hc; intuition congruence).
  assert (Char.canonicalize c <> 194 /\ Char.canonicalize c <> 8364 /\
          Char.canonicalize c <> 8220 /\ Char.canonicalize c <> 8211)%N
    as (C1 & C2 & C3 & C4).
  { unfold Char.canonicalize, Char.is_lower.
    destruct ((97 <=? c)%N && (c <=? 122)%N) eqn:E1.
    - apply andb_prop in E1 as [E1 E2].
      apply N.leb_le in E1. apply N.leb_le in E2. lia.
    - destruct ((224 <=? c)%N && (c <=? 254)%N && negb (c =? 247)%N) eqn:E2.
      + apply andb_prop in E2 as [E2 _]. apply andb_prop in E2 as [E2 E3].
        apply N.leb_le in E2. apply N.leb_le in E3. lia.
      + lia. }
  rewrite !(proj2 (N.eqb_neq _ _)) by assumption. reflexivity.
Qed.

Lemma run_size_range_agree k s :
  Forall (fun c => ~ In c dash_variants) (ahead s) ->
  run true (Patterns.size_range Patterns.server_dash) k s
  = run true (Patterns.size_range Patterns.client_dash) k s.
Proof.
  intros Hs. unfold Patterns.size_range. cbn [seqs].
  rewrite !(run_seq (Group 1 Patterns.digits)).
  apply run_cong. intros s1 [p1 E1].
  rewrite !(run_seq Patterns.spaces).
  apply run_cong. intros s2 [p2 E2].
  rewrite !run_seq.
  destruct s2 as [b [|c rest] cps]; [reflexivity|].
  rewrite !run_chr.
  rewrite dash_classes_agree; [reflexivity|].
  rewrite E1, E2 in Hs. simpl in Hs.
  apply Forall_app in Hs as [_ Hs]. apply Forall_app in Hs as [_ Hs].
  inversion Hs; assumption.
Qed.

Lemma exec_from_ext (r1 r2 : regex) (P : N -> Prop) :
  (forall b rest, Forall P rest ->
     run true r1 Some (mkState b rest []) = run true r2 Some (mkState b rest [])) ->
  forall rest before, Forall P rest ->
    exec_from true r1 before rest = exec_from true r2 before rest.
Proof.
  intros Hrun rest.
  induction rest as [|c rest IH]; intros before Hp; simpl;
    rewrite (Hrun _ _ Hp); [reflexivity|].
  rewrite IH; [reflexivity|]. inversion Hp; assumption.
Qed.

(** On a text without these characters the two parsers agree. *)
Lemma parsers_agree text :
  Forall (fun c => ~ In c dash_variants) text ->
  parseRuleText text = parseCustomRule text.
Proof.
  intros Ht. unfold parseRuleText, parseCustomRule, parse_rules, sizeMatch.
  assert (str_match true (Patterns.size_range Patterns.server_dash) text
          = str_match true (Patterns.size_range Patterns.client_dash) text) as ->;
    [|reflexivity].
  unfold str_match.
  apply (exec_from_ext _ _ (fun c => ~ In c dash_variants)); [|exact Ht].
  intros b rest Hrest. apply run_size_range_agree. exact Hrest.
Qed.

End SideBySide.

Section Refinement.

(** The back end's loop is the search of section 4.2 on the scale from
    0 to 100, for a window with two numbers as bounds and an input file
    that is there. *)
Lemma server_refines_fit
    {Raster : Type} (sharp_resize : Buffer -> jsnum -> jsnum -> option Raster)
    (sharp_toBuffer : Raster -> jsstring -> Z -> option Buffer)
    (fs : Server.FS) (inputPath : string) (input : Buffer)
    (w h : jsnum) (lo hi : Z) (fmt : option jsstring) (fuel : nat) :
  fs !! inputPath = Some input ->
  let search :=
    Server.processImage sharp_resize sharp_toBuffer fuel fs inputPath
      w h (JNum lo) (JNum hi) fmt in
  Spec42.fit Spec42.server_scale
    (Server.sharp_pipeline sharp_resize sharp_toBuffer input w h
       (Server.method_name (default (js "jpeg") fmt)))
    lo hi fuel
  = (map Spec42.of_server (fst search),
     loop_end_map Spec42.of_server (fun e => e) (snd search)).
Proof.
  intros Hin search. unfold search, Spec42.fit, Server.processImage.
  change (Spec42.mkSearch (Spec42.start Spec42.server_scale) None 0)
    with (Spec42.of_server (Server.mkSearch 92 None 0)).
  apply while_loop_map; [reflexivity|].
  intros st _. unfold Spec42.attempt, Server.attempt, Spec42.in_window. simpl.
  rewrite Hin.
  destruct (Server.sharp_pipeline _ _ _ _ _ _ _) as [out|]; [|reflexivity].
  unfold Server.adjust. simpl.
  destruct (Qle_bool (kilobytes out) (inject_Z hi));
    destruct (Qle_bool (inject_Z lo) (kilobytes out)); reflexivity.
Qed.

(** The front end's loop is the same search on the scale from 0 to 1,
    with its own step up; a [null] blob is its encoder failure. *)
Lemma client_refines_fit
    {Canvas : Type} (canvas_toBlob : Canvas -> jsstring -> float -> option Buffer)
    (canvas : Canvas) (w h : jsnum) (lo hi : Z) (fmt : option jsstring)
    (fuel : nat) :
  let rules := mkRules w h (JNum lo) (JNum hi) fmt in
  let search := Client.quality_search canvas_toBlob fuel canvas rules in
  Spec42.fit Spec42.client_scale
    (canvas_toBlob canvas (Client.mime_subtype fmt)) lo hi fuel
  = (map Spec42.of_client (fst search),
     loop_end_map Spec42.of_client (fun _ => EncoderError) (snd search)).
Proof.
  intros rules search. unfold search, Spec42.fit, Client.quality_search.
  change (Spec42.mkSearch (Spec42.start Spec42.client_scale) None 0)
    with (Spec42.of_client (Client.mkSearch 0.92%float None 0)).
  apply while_loop_map; [reflexivity|].
  intros st _. unfold Spec42.attempt, Client.attempt, Spec42.in_window. simpl.
  destruct (canvas_toBlob canvas (Client.mime_subtype fmt) (Client.quality st))
    as [b|]; [|reflexivity].
  unfold Client.adjust. simpl.
  destruct (Qle_bool (kilobytes b) (inject_Z hi));
    destruct (Qle_bool (inject_Z lo) (kilobytes b)); reflexivity.
Qed.

End Refinement.

(** C6, as the code has it.  The two loops are the same search, that of
    section 4.2, each on its own scale: the back end starts at 92 on a
    scale from 10 to 100, goes down by 5 and up by 3 and stops after 20
    attempts; the front end starts at 0.92 on a scale from 0.1 to 1,
    goes down by 0.05 and up by 0.02 and stops after 15.  Both test the
    window on the exact size inside the loop and keep the last buffer.
    Both derive the same rules for the four named presets, and for a
    custom rule text that is not empty and has none of the five
    characters of [dash_variants]: the en dash U+2013, which only the
    front end's pattern takes between the two sizes, and U+00E2, U+00C2,
    U+20AC, U+201C, which only the back end's takes.  With one of these
    five between the two sizes the parsers differ: the one whose pattern
    takes it reads the sizes, the other keeps 20 to 50. *)
Theorem C6_both_paths_instantiate_the_search :
  (forall (Raster : Type)
     (sharp_resize : Buffer -> jsnum -> jsnum -> option Raster)
     (sharp_toBuffer : Raster -> jsstring -> Z -> option Buffer)
     (fs : Server.FS) (inputPath : string) (input : Buffer)
     (w h : jsnum) (lo hi : Z) (fmt : option jsstring) (fuel : nat),
     fs !! inputPath = Some input ->
     let search :=
       Server.processImage sharp_resize sharp_toBuffer fuel fs inputPath
         w h (JNum lo) (JNum hi) fmt in
     Spec42.fit (Spec42.mkScale 92 (fun q => q - 5) (fun q => q + 3)
                   (fun q => Z.max 10 (Z.min 100 q)) 20)
       (Server.sharp_pipeline sharp_resize sharp_toBuffer input w h
          (Server.method_name (default (js "jpeg") fmt)))
       lo hi fuel
     = (map Spec42.of_server (fst search),
        loop_end_map Spec42.of_server (fun e => e) (snd search))) /\
  (forall (Canvas : Type)
     (canvas_toBlob : Canvas -> jsstring -> float -> option Buffer)
     (canvas : Canvas) (w h : jsnum) (lo hi : Z) (fmt : option jsstring)
     (fuel : nat),
     let search :=
       Client.quality_search canvas_toBlob fuel canvas
         (mkRules w h (JNum lo) (JNum hi) fmt) in
     Spec42.fit (Spec42.mkScale 0.92%float (fun q => q - 0.05)%float
                   (fun q => q + 0.02)%float
                   (fun q => Client.Math_max 0.1 (Client.Math_min 1 q))%float 15)
       (canvas_toBlob canvas (Client.mime_subtype fmt)) lo hi fuel
     = (map Spec42.of_client (fst search),
        loop_end_map Spec42.of_client (fun _ => EncoderError) (snd search))) /\
  (forall file text cr name,
     In name ["photo"; "signature"; "thumb"; "declaration"]%string ->
     Server.derive_rules (Server.mkRequest file text (Some (js name)))
     = Client.getCurrentRules (js name) cr) /\
  (forall file c text,
     Forall (fun c => ~ In c dash_variants) (c :: text) ->
     Server.derive_rules (Server.mkRequest file (Some (c :: text)) (Some (js "custom")))
     = Client.getCurrentRules (js "custom") (c :: text)) /\
  (forall file d,
     In d [226; 194; 8364; 8220]%N ->
     let text := js "10" ++ [d] ++ js "20kb" in
     Server.derive_rules (Server.mkRequest file (Some text) (Some (js "custom")))
     = Some (rules_lit 200 230 10 20 "jpg") /\
     Client.getCurrentRules (js "custom") text
     = Some (rules_lit 200 230 20 50 "jpg")) /\
  (forall file,
     let text := js "10" ++ [8211%N] ++ js "20kb" in
     Server.derive_rules (Server.mkRequest file (Some text) (Some (js "custom")))
     = Some (rules_lit 200 230 20 50 "jpg") /\
     Client.getCurrentRules (js "custom") text
     = Some (rules_lit 200 230 10 20 "jpg")).
Proof.
  split; [intros; apply server_refines_fit; assumption|].
  split; [intros; apply client_refines_fit|].
  split.
  { intros file text cr name Hname. simpl in Hname.
    destruct Hname as [<-|[<-|[<-|[<-|[]]]]]; reflexivity. }
  split.
  { intros file c text Ht.
    change (Server.derive_rules
              (Server.mkRequest file (Some (c :: text)) (Some (js "custom"))))
      with (Some (parseRuleText (c :: text))).
    change (Client.getCurrentRules (js "custom") (c :: text))
      with (Some (parseCustomRule (c :: text))).
    rewrite (parsers_agree _ Ht). reflexivity. }
  split.
  { intros file d Hd text. unfold text. simpl in Hd.
    destruct Hd as [<-|[<-|[<-|[<-|[]]]]]; split; vm_compute; reflexivity. }
  intros file text. split; vm_compute; reflexivity.
Qed.

(** The theorem at the stored upload and the signature preset. *)
Lemma C6_signature_search_is_the_fit :
  Spec42.fit Spec42.server_scale
    (Server.sharp_pipeline Examples.sharp_resize Examples.sharp_toBuffer
       (Examples.blank 64) (JNum 140) (JNum 60) (js "jpeg"))
    10 20 20
  = (map Spec42.of_server
       (fst (Server.processImage Examples.sharp_resize Examples.sharp_toBuffer 20
               Examples.uploads Examples.upload_path
               (JNum 140) (JNum 60) (JNum 10) (JNum 20) (Some (js "jpg")))),
     loop_end_map Spec42.of_server (fun e => e)
       (snd (Server.processImage Examples.sharp_resize Examples.sharp_toBuffer 20
               Examples.uploads Examples.upload_path
               (JNum 140) (JNum 60) (JNum 10) (JNum 20) (Some (js "jpg"))))) /\
  Server.derive_rules (Examples.with_text "140x60, 10-20kb")
  = Client.getCurrentRules (js "custom") (js "140x60, 10-20kb").
Proof.
  destruct C6_both_paths_instantiate_the_search as (Hserver & _ & _ & Hcustom & _).
  split.
  - apply (Hserver (Z * Z)%type Examples.sharp_resize Examples.sharp_toBuffer
             Examples.uploads Examples.upload_path (Examples.blank 64)
             (JNum 140) (JNum 60) 10 20 (Some (js "jpg")) 20%nat).
    reflexivity.
  - apply (Hcustom (Some Examples.upload_path) 49%N (js "40x60, 10-20kb")).
    vm_compute. repeat constructor; intuition discriminate.
Defined.

(** C6 as stated fails: for the same image and the same rules the two
    paths do not act alike.  An image that encodes to 1500 bytes at a
    quality of at most a fifth of the scale and to 3000 bytes above it,
    with the rules "100x100, 1-2kb, jpg" in both: the back end reaches
    the window in its 16th attempt and answers [valid] true, the front
    end stops after its 15th and shows [valid] false.  Below the window
    the back end steps up by 3 of 100, the front end by 0.02 of 1.  For
    [custom] with an empty text the two derive different rules, and so
    they do for "10-20kb" written with an en dash (only the front end
    reads the sizes) or with a euro sign (only the back end does). *)
Lemma C6_paths_disagree :
  Server.derive_rules (Examples.with_text "100x100, 1-2kb, jpg")
  = Client.getCurrentRules (js "custom") (js "100x100, 1-2kb, jpg") /\
  option_map (fun x => Server.verdict (fst x))
    (Server.handle Examples.flat_resize Examples.cliff_toBuffer Examples.any_metadata
       20 (Examples.with_text "100x100, 1-2kb, jpg") Examples.uploads)
  = Some (Some true) /\
  length (fst (Server.processImage Examples.flat_resize Examples.cliff_toBuffer 20
                 Examples.uploads Examples.upload_path
                 (JNum 100) (JNum 100) (JNum 1) (JNum 2) (Some (js "jpg"))))
  = 16%nat /\
  Client.verdict
    (Client.processClientSide Examples.drawImage Examples.cliff_toBlob 15
       (Client.Loaded tt) (js "custom") (js "100x100, 1-2kb, jpg"))
  = Some false /\
  length (fst (Client.quality_search Examples.cliff_toBlob 15 tt
                 (rules_lit 100 100 1 2 "jpg")))
  = 15%nat /\
  Spec42.budget Spec42.server_scale = 20 /\
  Spec42.budget Spec42.client_scale = 15 /\
  Spec42.increase Spec42.server_scale 92 = 92 + 3 /\
  Spec42.increase Spec42.client_scale 0.92%float = (0.92 + 0.02)%float /\
  (0.92 + 0.02 <? 0.92 + 0.03)%float = true /\
  Server.derive_rules (Examples.with_preset "custom")
  = Some (rules_lit 200 230 20 50 "jpg") /\
  Client.getCurrentRules (js "custom") [] = Some (rules_lit 0 0 0 0 "jpg") /\
  parseRuleText (js "10" ++ [8211%N] ++ js "20kb") = rules_lit 200 230 20 50 "jpg" /\
  parseCustomRule (js "10" ++ [8211%N] ++ js "20kb") = rules_lit 200 230 10 20 "jpg" /\
  parseRuleText (js "10" ++ [8364%N] ++ js "20kb") = rules_lit 200 230 10 20 "jpg" /\
  parseCustomRule (js "10" ++ [8364%N] ++ js "20kb") = rules_lit 200 230 20 50 "jpg".
Proof. vm_compute. repeat split; reflexivity. Qed.
